(** * Event organiser bot: the event store and its reminder scheduler

    A shallow embedding of [main.py]: the [events] table, the command
    handlers that mutate it and the periodic [reminder_loop].

    Modelling conventions.
    - A Python [str] is a list of characters; a character is a code point
      below 256, carried by [ascii].  [str.strip], [str.split] and
      [str.join] are written out below.
    - The [events] table is the list of its rows in rowid order together
      with the AUTOINCREMENT counter that SQLite keeps in
      [sqlite_sequence].  Each handler runs as one step on that state and
      returns the new state and the reply it sends.
    - An aware [datetime] is an integer number of microseconds since the
      epoch; the ISO text stored in [event_time_utc] is read back by
      [fromisoformat] to the instant that [isoformat] wrote, so the column
      holds the instant.  [datetime] holds the years 1 to 9999: arithmetic
      that leaves them raises [OverflowError], which no handler catches.
    - [sqlite3] calls return (a failing store is outside this
      development), except for two documented failures: a table whose
      AUTOINCREMENT counter reached the largest rowid refuses the INSERT,
      and an integer outside 64 bits cannot be bound to a statement
      ([OverflowError]).
    - An exception that leaves a handler ends it: statements after the
      point are not run and no reply is sent ([Raised]).
    - [chan.send] is a call into the transport: it returns, or it raises
      (discord.py documents [HTTPException], [Forbidden], ...); the
      scheduler has no handler for that, so the exception leaves
      [reminder_loop].  The text of a reminder is not modelled: a call of
      the sink records the row the text is built from.
    - A cycle of the scheduler is one step: a command that arrives while
      a send is awaited is taken to run after the cycle.
    - The replies of the commands are sent after the commit, so their
      fate does not touch the table; a reply is kept as a constructor.
      The commands that only read return what they show, field by field;
      the literals of their messages lie outside the characters of [str]
      and are kept as constructors.  [ping] and the set-up of the schema
      ([init_db], [ensure_column]) are left out. *)

From Stdlib Require Import String Ascii ZArith List Bool Lia Sorted.
Import ListNotations.
Open Scope list_scope.

(* ================================================================= *)
(** ** Python strings *)

Module PyStr.

Definition str := list ascii.

(** String literals of the source, as [str]. *)
Definition py (s : string) : str := list_ascii_of_string s.

Fixpoint eqb (a b : str) : bool :=
  match a, b with
  | [], [] => true
  | x :: a', y :: b' => Ascii.eqb x y && eqb a' b'
  | _, _ => false
  end.

(** [x in lst] on a list of strings. *)
Definition mem (x : str) (l : list str) : bool := existsb (eqb x) l.

(** [str.isspace] on one character, for code points below 256: TAB..CR,
    FS..US, SPACE, NEL (0x85) and NBSP (0xA0). *)
Definition is_space (c : ascii) : bool :=
  let n := N_of_ascii c in
  ((9 <=? n) && (n <=? 13) || (28 <=? n) && (n <=? 32)
   || (n =? 133) || (n =? 160))%N.

Definition comma : ascii := ","%char.
Definition space : ascii := " "%char.

Fixpoint drop_while (p : ascii -> bool) (s : str) : str :=
  match s with
  | [] => []
  | c :: s' => if p c then drop_while p s' else s
  end.

Definition lstrip (s : str) : str := drop_while is_space s.
Definition rstrip (s : str) : str := rev (drop_while is_space (rev s)).

(** [s.strip()] *)
Definition strip (s : str) : str := rstrip (lstrip s).

(** Puts [c] in front of the first piece. *)
Definition cons_hd (c : ascii) (ps : list str) : list str :=
  match ps with
  | [] => [[c]]
  | p :: ps' => (c :: p) :: ps'
  end.

(** [s.split(sep)] for a one-character separator: the pieces between
    the separators, empty ones included; never the empty list. *)
Fixpoint split (sep : ascii) (s : str) : list str :=
  match s with
  | [] => [[]]
  | c :: s' =>
      if Ascii.eqb c sep then [] :: split sep s'
      else cons_hd c (split sep s')
  end.

(** [sep.join(lst)] *)
Fixpoint join (sep : str) (l : list str) : str :=
  match l with
  | [] => []
  | [x] => x
  | x :: l' => x ++ sep ++ join sep l'
  end.

(** Truth value of a string: [if s]. *)
Definition truthy (s : str) : bool :=
  match s with [] => false | _ => true end.

End PyStr.

Import PyStr.

(* ================================================================= *)
(** ** Utilities of [main.py] *)

(** [names_to_list]: [None] and the empty text give no names; otherwise
    the stripped, non-blank pieces between commas. *)
Definition names_to_list (s : option str) : list str :=
  match s with
  | None => []
  | Some s' =>
      if negb (truthy s') then []
      else filter truthy (map strip (split comma s'))
  end.

(** [list_to_names]: [", ".join(lst)]. *)
Definition list_to_names (lst : list str) : str := join [comma; space] lst.

(** The first character, if any, is not whitespace; likewise the last. *)
Definition no_leading_ws (x : str) : bool :=
  match x with
  | [] => true
  | c :: _ => negb (is_space c)
  end.

Definition no_trailing_ws (x : str) : bool := no_leading_ws (rev x).

Definition has_comma (x : str) : bool := existsb (Ascii.eqb comma) x.

(** No comma and no whitespace at either end; the empty name included. *)
Definition tidy (x : str) : bool :=
  negb (has_comma x) && no_leading_ws x && no_trailing_ws x.

(** A name the comma-separated column can hold: non-empty, without a
    comma, without leading or trailing whitespace. *)
Definition clean (x : str) : bool := truthy x && tidy x.

(** What one stored name reads back as. *)
Definition reread (x : str) : list str := names_to_list (Some x).

(* ================================================================= *)
(** ** Times *)

Module PyTime.

Open Scope Z_scope.

(** One minute and the Taipei offset, in microseconds. *)
Definition minute : Z := 60000000.
Definition TAIPEI : Z := 8 * 60 * minute.

(** [timedelta(minutes=m)] *)
Definition timedelta_minutes (m : Z) : Z := m * minute.

(** [datetime.min] and [datetime.max] read as UTC:
    0001-01-01 00:00:00 and 9999-12-31 23:59:59.999999. *)
Definition datetime_min : Z := -62135596800000000.
Definition datetime_max : Z := 253402300799999999.

(** The instants that a [datetime] can hold.  Adding or subtracting a
    [timedelta], and [astimezone], raise [OverflowError] when the result
    is not one of them. *)
Definition in_datetime (t : Z) : bool :=
  (datetime_min <=? t) && (t <=? datetime_max).

Definition in_range (lo hi : N) (c : ascii) : bool :=
  let n := N_of_ascii c in ((lo <=? n) && (n <=? hi))%N.

(** ["0"] is code point 48. *)
Definition digit (lo hi : N) : ascii -> bool := in_range (48 + lo) (48 + hi).
Definition digit_val (c : ascii) : Z := Z.of_N (N_of_ascii c) - 48.

(** A matcher lists every way of matching a prefix, each with the value
    read and the text left, in the order in which the backtracking
    engine of [re] tries them. *)
Definition matcher (A : Type) : Type := str -> list (A * str).

Definition ret {A} (a : A) : matcher A := fun s => [(a, s)].

Definition bind {A B} (m : matcher A) (k : A -> matcher B) : matcher B :=
  fun s => flat_map (fun r => k (fst r) (snd r)) (m s).

Definition alt {A} (ms : list (matcher A)) : matcher A :=
  fun s => flat_map (fun m => m s) ms.

(** One character of a class, as a digit value. *)
Definition one (p : ascii -> bool) : matcher Z :=
  fun s => match s with
           | c :: s' => if p c then [(digit_val c, s')] else []
           | [] => []
           end.

(** Two characters of the given classes, read as a two-digit number. *)
Definition two (p q : ascii -> bool) : matcher Z :=
  bind (one p) (fun a => bind (one q) (fun b => ret (10 * a + b))).

Definition lit (c : ascii) : matcher unit :=
  fun s => match s with
           | c' :: s' => if Ascii.eqb c' c then [(tt, s')] else []
           | [] => []
           end.

(** [\s+], greedy: the longest run first, then shorter ones. *)
Fixpoint spaces1 (s : str) : list (unit * str) :=
  match s with
  | c :: s' => if is_space c then spaces1 s' ++ [(tt, s')] else []
  | [] => []
  end.

(** The groups that [_strptime] compiles the directives to:
    [%Y] is [\d\d\d\d], [%m] is [1[0-2]|0[1-9]|[1-9]],
    [%d] is [3[01]|[12]\d|0[1-9]|[1-9]| [1-9]],
    [%H] is [2[0-3]|[0-1]\d|\d], [%M] is [[0-5]\d|\d];
    a blank of the format is [\s+]. *)
Definition re_Y : matcher Z :=
  bind (two (digit 0 9) (digit 0 9)) (fun hi =>
  bind (two (digit 0 9) (digit 0 9)) (fun lo => ret (100 * hi + lo))).

Definition re_m : matcher Z :=
  alt [two (digit 1 1) (digit 0 2); two (digit 0 0) (digit 1 9);
       one (digit 1 9)].

Definition re_d : matcher Z :=
  alt [two (digit 3 3) (digit 0 1); two (digit 1 2) (digit 0 9);
       two (digit 0 0) (digit 1 9); one (digit 1 9);
       bind (lit space) (fun _ => one (digit 1 9))].

Definition re_H : matcher Z :=
  alt [two (digit 2 2) (digit 0 3); two (digit 0 1) (digit 0 9);
       one (digit 0 9)].

Definition re_M : matcher Z :=
  alt [two (digit 0 5) (digit 0 9); one (digit 0 9)].

(** The regular expression of ["%Y-%m-%d %H:%M"]. *)
Definition format_regex : matcher (Z * Z * Z * Z * Z) :=
  bind re_Y (fun y => bind (lit "-"%char) (fun _ =>
  bind re_m (fun m => bind (lit "-"%char) (fun _ =>
  bind re_d (fun d => bind spaces1 (fun _ =>
  bind re_H (fun h => bind (lit ":"%char) (fun _ =>
  bind re_M (fun mi => ret (y, m, d, h, mi)))))))))).

Definition is_leap (y : Z) : bool :=
  (y mod 4 =? 0) && (negb (y mod 100 =? 0) || (y mod 400 =? 0)).

Definition days_in_month (y m : Z) : Z :=
  if m =? 2 then (if is_leap y then 29 else 28)
  else if (m =? 4) || (m =? 6) || (m =? 9) || (m =? 11) then 30
  else 31.

(** Days from 1970-01-01 to the given date of the proleptic Gregorian
    calendar. *)
Definition days_from_civil (y m d : Z) : Z :=
  let y' := if m <=? 2 then y - 1 else y in
  let era := y' / 400 in
  let yoe := y' - era * 400 in
  let mp := if m <=? 2 then m + 9 else m - 3 in
  let doy := (153 * mp + 2) / 5 + d - 1 in
  let doe := yoe * 365 + yoe / 4 - yoe / 100 + doy in
  era * 146097 + doe - 719468.

(** [datetime.strptime(s, "%Y-%m-%d %H:%M")]: the first match of the
    regular expression must use the whole text, and the fields must name
    a date; the result is the naive time, in microseconds from
    1970-01-01 00:00.  [None] is [ValueError]. *)
Definition strptime (s : str) : option Z :=
  match format_regex s with
  | (y, m, d, h, mi, rest) :: _ =>
      match rest with
      | [] =>
          if (1 <=? y) && (d <=? days_in_month y m)
          then Some ((((days_from_civil y m d) * 24 + h) * 60 + mi) * minute)
          else None
      | _ => None
      end
  | [] => None
  end.

(** [parse_local_time]: the text, stripped, is a Taipei wall-clock time.
    The result is the instant. *)
Definition parse_local_time (s : str) : option Z :=
  match strptime (strip s) with
  | Some naive => Some (naive - TAIPEI)
  | None => None
  end.

End PyTime.

Import PyTime.

(* ================================================================= *)
(** ** The [events] table *)

Open Scope Z_scope.

(** A row of [events], column by column as in [SCHEMA_SQL].  The columns
    on whose being NULL the code branches, or which it sets to NULL, are
    options; the text columns that [create_event] fills and the handlers
    only show are plain texts; [reminded] is written as 0 or 1. *)
Record Row : Type := mkRow {
  id : Z;
  channel_id : option Z;
  title : str;
  proposer : str;
  manager : option str;
  participants : option str;
  note : str;
  location : str;
  event_time_utc : option Z;
  remind_minutes : option Z;
  reminded : Z
}.

(** The table and the counter of [sqlite_sequence] for it. *)
Record DB : Type := mkDB {
  rows : list Row;
  sqlite_seq : Z
}.

Definition empty_db : DB := mkDB [] 0.

(** Largest rowid of SQLite: 2^63 - 1. *)
Definition MAX_ROWID : Z := 9223372036854775807.

Definition max_id (rs : list Row) : Z :=
  fold_right (fun r acc => Z.max (id r) acc) 0 rs.

(** The integers that [sqlite3] binds to a statement: those of 64 bits.
    For any other, [execute] raises [OverflowError]. *)
Definition bindable (v : Z) : bool :=
  (- MAX_ROWID - 1 <=? v) && (v <=? MAX_ROWID).

(** [SELECT ... FROM events WHERE id = ?] then [fetchone()] *)
Definition select_by_id (e : Z) (db : DB) : option Row :=
  find (fun r => id r =? e) (rows db).

(** [UPDATE events SET ... WHERE id = ?] *)
Definition update_by_id (e : Z) (f : Row -> Row) (db : DB) : DB :=
  mkDB (map (fun r => if id r =? e then f r else r) (rows db)) (sqlite_seq db).

(** [DELETE FROM events WHERE id = ?] *)
Definition delete_by_id (e : Z) (db : DB) : DB :=
  mkDB (filter (fun r => negb (id r =? e)) (rows db)) (sqlite_seq db).

(** [INSERT INTO events] without an id.  With AUTOINCREMENT the new
    rowid is one more than the largest rowid the table ever held (the
    counter, or the largest rowid present if that is larger); when that
    is already the largest possible rowid the INSERT fails.  The result
    carries [lastrowid]. *)
Definition insert (mk : Z -> Row) (db : DB) : option (DB * Z) :=
  let top := Z.max (sqlite_seq db) (max_id (rows db)) in
  if top <? MAX_ROWID
  then Some (mkDB (rows db ++ [mk (top + 1)]) (top + 1), top + 1)
  else None.

(** Setters used by the UPDATE statements. *)
Definition set_participants (p : option str) (r : Row) : Row :=
  mkRow (id r) (channel_id r) (title r) (proposer r) (manager r) p
        (note r) (location r) (event_time_utc r) (remind_minutes r)
        (reminded r).

Definition set_manager_col (m : option str) (r : Row) : Row :=
  mkRow (id r) (channel_id r) (title r) (proposer r) m (participants r)
        (note r) (location r) (event_time_utc r) (remind_minutes r)
        (reminded r).

Definition set_note (n : str) (r : Row) : Row :=
  mkRow (id r) (channel_id r) (title r) (proposer r) (manager r)
        (participants r) n (location r) (event_time_utc r)
        (remind_minutes r) (reminded r).

Definition set_remind (m : option Z) (flag : Z) (r : Row) : Row :=
  mkRow (id r) (channel_id r) (title r) (proposer r) (manager r)
        (participants r) (note r) (location r) (event_time_utc r) m flag.

Definition set_reminded (flag : Z) (r : Row) : Row :=
  set_remind (remind_minutes r) flag r.

(* ================================================================= *)
(** ** The transport *)

(** What a channel object can be. *)
Inductive Channel : Type :=
| TextChannel | Thread | DMChannel | OtherChannel.

(** [is_messageable]; [None] is Python's [None]. *)
Definition is_messageable (ch : option Channel) : bool :=
  match ch with
  | Some TextChannel | Some Thread | Some DMChannel => true
  | _ => false
  end.

(** The two flags of [guild_permissions] that [delete_event] reads. *)
Record Permissions : Type := mkPermissions {
  manage_guild : bool;
  administrator : bool
}.

(** What a handler sees of [ctx].  [ctx.author] is a [discord.Member]
    in a guild and a [discord.User] in a direct message; only the former
    has [guild_permissions] ([None]: no such attribute). *)
Record Ctx : Type := mkCtx {
  ctx_channel : Channel;
  ctx_channel_id : Z;
  display_name : str;
  guild_permissions : option Permissions
}.

(** What [await chan.send(...)] does. *)
Inductive SendResult : Type :=
| Sent
| SendRaised.

(** The transport as the scheduler uses it: [bot.get_channel], and what
    becomes of sending the reminder built from a row to its channel. *)
Record Transport : Type := mkTransport {
  get_channel : Z -> option Channel;
  send : Row -> SendResult
}.

(** One call of the notification sink: the event handed over, the
    instant of the scan and what became of the send. *)
Record SinkCall : Type := mkSinkCall {
  call_event : Row;
  call_at : Z;
  call_result : SendResult
}.

(** How a cycle ended: it ran through, or an exception left it. *)
Inductive Outcome : Type :=
| Completed
| Aborted.

(** The replies of the handlers; [Raised] is the handler left by an
    exception, with no reply. *)
Inductive Reply : Type :=
| Raised
| NeedTextChannel
| Usage
| BadTimeFormat
| StoreFull
| Created (e : Z)
| NotFound
| AlreadyMember
| Joined
| NotMember
| Left (cleared : bool)
| NotAParticipant
| ManagerSet (who : str)
| NeedEventId
| NoParticipants
| ManagerDrawn (who : str)
| NoteUpdated
| OutOfRange
| ReminderSet (minutes : Z)
| Denied
| NeedConfirm
| Deleted
| Scanned (calls : list SinkCall) (o : Outcome).

(* ================================================================= *)
(** ** The reminder scheduler *)

(** [x or d] on a nullable integer column: NULL and 0 are both false. *)
Definition or_default (x : option Z) (d : Z) : Z :=
  match x with
  | Some v => if v =? 0 then d else v
  | None => d
  end.

(** [WHERE event_time_utc IS NOT NULL AND reminded = 0], and the rows
    that the SELECT of the loop fetches. *)
Definition due_candidate (r : Row) : bool :=
  match event_time_utc r with
  | Some _ => reminded r =? 0
  | None => false
  end.

Definition candidates (db : DB) : list Row := filter due_candidate (rows db).

(** [remind_at] as the loop computes it. *)
Definition remind_at (row : Row) (event_dt_utc : Z) : Z :=
  event_dt_utc - timedelta_minutes (or_default (remind_minutes row) 30).

(** [bot.get_channel(row["channel_id"]) if row["channel_id"] else None] *)
Definition channel_of (tr : Transport) (row : Row) : option Channel :=
  match channel_id row with
  | Some c => if c =? 0 then None else get_channel tr c
  | None => None
  end.

(** [UPDATE events SET reminded = 1 WHERE id = ?] *)
Definition mark_reminded (row : Row) (db : DB) : DB :=
  update_by_id (id row) (set_reminded 1) db.

(** [fromisoformat] returns a [datetime], and the subtraction of line
    136 must give one: when [event_dt_utc - timedelta(...)] leaves the
    years 1 to 9999 it raises [OverflowError].  (A [timedelta] that is
    itself out of range takes the result out of them as well.) *)
Definition remind_at_defined (row : Row) (event_dt_utc : Z) : bool :=
  in_datetime event_dt_utc && in_datetime (remind_at row event_dt_utc).

(** The text of the reminder shows the time through [fmt_dt_local]:
    [astimezone(TAIPEI)] must give a [datetime] too. *)
Definition shown_defined (event_dt_utc : Z) : bool :=
  in_datetime event_dt_utc && in_datetime (event_dt_utc + TAIPEI).

(** The body of the [for row in rows] loop over the fetched rows.  An
    exception ends the loop there: the UPDATE after it is not run and
    the rows after it are not looked at.  It comes from the arithmetic
    on the time, before anything is sent, or from the send. *)
Fixpoint remind_each (tr : Transport) (now_utc : Z) (fetched : list Row)
    (db : DB) : DB * list SinkCall * Outcome :=
  match fetched with
  | [] => (db, [], Completed)
  | row :: rest =>
      match event_time_utc row with
      | None => remind_each tr now_utc rest db
      | Some event_dt_utc =>
          if negb (remind_at_defined row event_dt_utc) then (db, [], Aborted)
          else if remind_at row event_dt_utc <=? now_utc then
            if is_messageable (channel_of tr row) then
              if negb (shown_defined event_dt_utc) then (db, [], Aborted)
              else
                match send tr row with
                | SendRaised =>
                    (db, [mkSinkCall row now_utc SendRaised], Aborted)
                | Sent =>
                    let '(db', calls, o) :=
                      remind_each tr now_utc rest (mark_reminded row db) in
                    (db', mkSinkCall row now_utc Sent :: calls, o)
                end
            else remind_each tr now_utc rest (mark_reminded row db)
          else remind_each tr now_utc rest db
      end
  end.

(** One cycle of [reminder_loop], run at [now_utc]. *)
Definition reminder_loop (tr : Transport) (now_utc : Z) (db : DB)
    : DB * list SinkCall * Outcome :=
  remind_each tr now_utc (candidates db) db.

(* ================================================================= *)
(** ** The commands *)

Definition bar : ascii := "|"%char.

(** [!create_event].  [dt_local.astimezone(timezone.utc)] raises
    [OverflowError] when the time in UTC is not a [datetime] (a Taipei
    time in the first eight hours of the year 1); the INSERT binds the
    id of the channel; a full table refuses the INSERT. *)
Definition create_event (ctx : Ctx) (payload : option str) (db : DB)
    : DB * Reply :=
  if negb (is_messageable (Some (ctx_channel ctx))) then (db, NeedTextChannel)
  else
    match payload with
    | None => (db, Usage)
    | Some p =>
        if negb (truthy p) then (db, Usage)
        else
          let parts := map strip (split bar p) in
          if (length parts <? 3)%nat then (db, Usage)
          else
            let title := nth 0 parts [] in
            let time_str := nth 1 parts [] in
            let location := nth 2 parts [] in
            let note :=
              if (4 <=? length parts)%nat then nth 3 parts [] else [] in
            match parse_local_time time_str with
            | None => (db, BadTimeFormat)
            | Some dt_utc =>
                if negb (in_datetime dt_utc) then (db, Raised)
                else
                  let proposer := display_name ctx in
                  let manager := proposer in
                  let participants := [proposer] in
                  if negb (bindable (ctx_channel_id ctx)) then (db, Raised)
                  else
                    match
                      insert (fun i =>
                        mkRow i (Some (ctx_channel_id ctx)) title proposer
                              (Some manager)
                              (Some (list_to_names participants)) note
                              location (Some dt_utc) (Some 30) 0) db
                    with
                    | None => (db, StoreFull)
                    | Some (db', event_id) => (db', Created event_id)
                    end
            end
    end.

(** What a handler answers when its SELECT by id fetched no row: that
    the event is not found.  For an id outside 64 bits nothing was
    fetched because binding it raised [OverflowError]: no row has such
    an id, and the handler is left without a reply. *)
Definition no_row (event_id : Z) : Reply :=
  if bindable event_id then NotFound else Raised.

(** [!join_event] *)
Definition join_event (ctx : Ctx) (event_id : Z) (db : DB) : DB * Reply :=
  let member_name := display_name ctx in
  match select_by_id event_id db with
  | None => (db, no_row event_id)
  | Some row =>
      let parts := names_to_list (participants row) in
      if mem member_name parts then (db, AlreadyMember)
      else
        let parts := parts ++ [member_name] in
        (update_by_id event_id
           (set_participants (Some (list_to_names parts))) db, Joined)
  end.

(** [name == row["manager"]] *)
Definition is_manager (name : str) (m : option str) : bool :=
  match m with
  | Some m' => PyStr.eqb name m'
  | None => false
  end.

Definition is_none {A} (x : option A) : bool :=
  match x with None => true | Some _ => false end.

(** [!leave_event] *)
Definition leave_event (ctx : Ctx) (event_id : Z) (db : DB) : DB * Reply :=
  match select_by_id event_id db with
  | None => (db, no_row event_id)
  | Some row =>
      let parts := names_to_list (participants row) in
      let name := display_name ctx in
      if negb (mem name parts) then (db, NotMember)
      else
        let parts := filter (fun p => negb (PyStr.eqb p name)) parts in
        let new_manager :=
          if is_manager name (manager row) then None else manager row in
        (update_by_id event_id
           (fun r => set_manager_col new_manager
                       (set_participants (Some (list_to_names parts)) r)) db,
         Left (is_none new_manager))
  end.

(** [!set_manager] *)
Definition set_manager (ctx : Ctx) (event_id : Z) (who : str) (db : DB)
    : DB * Reply :=
  match select_by_id event_id db with
  | None => (db, no_row event_id)
  | Some row =>
      let parts := names_to_list (participants row) in
      if negb (mem who parts) then (db, NotAParticipant)
      else (update_by_id event_id (set_manager_col (Some who)) db,
            ManagerSet who)
  end.

(** [random.choice(parts)] on a non-empty list, the random source being
    the number [r] it draws. *)
Definition choice (r : nat) (parts : list str) : str :=
  nth (r mod length parts) parts [].

(** [!random_manager] *)
Definition random_manager (ctx : Ctx) (event_id : option Z) (r : nat)
    (db : DB) : DB * Reply :=
  match event_id with
  | None => (db, NeedEventId)
  | Some event_id =>
      match select_by_id event_id db with
      | None => (db, no_row event_id)
      | Some row =>
          let parts := names_to_list (participants row) in
          match parts with
          | [] => (db, NoParticipants)
          | _ =>
              let who := choice r parts in
              (update_by_id event_id (set_manager_col (Some who)) db,
               ManagerDrawn who)
          end
      end
  end.

(** [!add_note] *)
Definition add_note (ctx : Ctx) (event_id : Z) (text : str) (db : DB)
    : DB * Reply :=
  match select_by_id event_id db with
  | None => (db, no_row event_id)
  | Some _ => (update_by_id event_id (set_note text) db, NoteUpdated)
  end.

(** [!set_reminder] *)
Definition set_reminder (ctx : Ctx) (event_id : Z) (minutes : Z) (db : DB)
    : DB * Reply :=
  if (minutes <? 0) || (24 * 60 <? minutes) then (db, OutOfRange)
  else
    match select_by_id event_id db with
    | None => (db, no_row event_id)
    | Some _ =>
        (update_by_id event_id (set_remind (Some minutes) 0) db,
         ReminderSet minutes)
    end.

(** [confirm != "confirm"] *)
Definition confirmed (confirm : option str) : bool :=
  match confirm with
  | Some c => PyStr.eqb c (py "confirm")
  | None => false
  end.

(** [!delete_event].  [ctx.author.guild_permissions] is read whoever
    the caller is: for an author without the attribute the handler is
    left by [AttributeError]. *)
Definition delete_event (ctx : Ctx) (event_id : Z) (confirm : option str)
    (db : DB) : DB * Reply :=
  match select_by_id event_id db with
  | None => (db, no_row event_id)
  | Some row =>
      let display := display_name ctx in
      let is_owner :=
        PyStr.eqb display (proposer row) || is_manager display (manager row) in
      match guild_permissions ctx with
      | None => (db, Raised)
      | Some p =>
          let perms := manage_guild p || administrator p in
          if negb (is_owner || perms) then (db, Denied)
          else if negb (confirmed confirm) then (db, NeedConfirm)
          else (delete_by_id event_id db, Deleted)
      end
  end.

(* ================================================================= *)
(** ** Runs *)

(** Everything that touches the store: the commands and the cycles of
    the scheduler. *)
Inductive Cmd : Type :=
| CreateEvent (ctx : Ctx) (payload : option str)
| JoinEvent (ctx : Ctx) (event_id : Z)
| LeaveEvent (ctx : Ctx) (event_id : Z)
| SetManager (ctx : Ctx) (event_id : Z) (who : str)
| RandomManager (ctx : Ctx) (event_id : option Z) (r : nat)
| AddNote (ctx : Ctx) (event_id : Z) (text : str)
| SetReminder (ctx : Ctx) (event_id : Z) (minutes : Z)
| DeleteEvent (ctx : Ctx) (event_id : Z) (confirm : option str)
| ReminderLoop (tr : Transport) (now_utc : Z).

Definition step (c : Cmd) (db : DB) : DB * Reply :=
  match c with
  | CreateEvent ctx payload => create_event ctx payload db
  | JoinEvent ctx e => join_event ctx e db
  | LeaveEvent ctx e => leave_event ctx e db
  | SetManager ctx e who => set_manager ctx e who db
  | RandomManager ctx e r => random_manager ctx e r db
  | AddNote ctx e text => add_note ctx e text db
  | SetReminder ctx e m => set_reminder ctx e m db
  | DeleteEvent ctx e confirm => delete_event ctx e confirm db
  | ReminderLoop tr now_utc =>
      let '(db', calls, o) := reminder_loop tr now_utc db in
      (db', Scanned calls o)
  end.

(** Runs the commands in order; the replies come out in the same order. *)
Fixpoint run (cs : list Cmd) (db : DB) : DB * list Reply :=
  match cs with
  | [] => (db, [])
  | c :: cs' =>
      let '(db1, r) := step c db in
      let '(db2, rs) := run cs' db1 in
      (db2, r :: rs)
  end.

(** The ids that the successful creations of a run returned. *)
Fixpoint created_ids (rs : list Reply) : list Z :=
  match rs with
  | [] => []
  | Created e :: rs' => e :: created_ids rs'
  | _ :: rs' => created_ids rs'
  end.

(** The sink calls of a run for one event. *)
Fixpoint sink_calls (rs : list Reply) : list SinkCall :=
  match rs with
  | [] => []
  | Scanned calls _ :: rs' => calls ++ sink_calls rs'
  | _ :: rs' => sink_calls rs'
  end.

Definition calls_for (e : Z) (calls : list SinkCall) : list SinkCall :=
  filter (fun c => id (call_event c) =? e) calls.

(** The participants of an event as every handler reads them. *)
Definition participants_of (r : Row) : list str :=
  names_to_list (participants r).

(** I2 on a row: no manager, an empty one, or one of the participants. *)
Definition manager_ok (r : Row) : Prop :=
  match manager r with
  | None => True
  | Some m => m = [] \/ In m (participants_of r)
  end.

(* ================================================================= *)
(** ** Invariants and measures *)

(** Every rowid of the table is covered by the AUTOINCREMENT counter, as
    SQLite keeps it. *)
Definition ids_bounded (db : DB) : Prop :=
  Forall (fun r => id r <= sqlite_seq db) (rows db).

(** The row that [create_event] inserts for the caller. *)
Definition new_row (ctx : Ctx) (title note location : str) (t : Z) (i : Z)
    : Row :=
  mkRow i (Some (ctx_channel_id ctx)) title (display_name ctx)
        (Some (display_name ctx))
        (Some (list_to_names [display_name ctx])) note location
        (Some t) (Some 30) 0.

(** A property [P] of the row that SELECT finds for event [e], once the
    counter has passed [e]. *)
Definition event_inv (P : Row -> Prop) (e : Z) (db : DB) : Prop :=
  e <= sqlite_seq db /\
  forall row, select_by_id e db = Some row -> P row.

(** Two rows with the same participants and manager columns. *)
Definition same_people (r r' : Row) : Prop :=
  participants r' = participants r /\ manager r' = manager r.

(** I1 on a row. *)
Definition participants_distinct (r : Row) : Prop := NoDup (participants_of r).

(** Commands in which whoever joins event [e] has a tidy display name. *)
Definition tidy_join (e : Z) (c : Cmd) : Prop :=
  match c with
  | JoinEvent ctx e' => e' = e -> tidy (display_name ctx) = true
  | _ => True
  end.

(** The fields of a request: [[p.strip() for p in payload.split("|")]]. *)
Definition fields (p : str) : list str := map strip (split bar p).

(** Every row of [e] carries the reminded flag. *)
Definition marked (e : Z) (db : DB) : Prop :=
  Forall (fun r => id r = e -> reminded r = 1) (rows db).

Definition is_sent (c : SinkCall) : bool :=
  match call_result c with Sent => true | SendRaised => false end.

(** The sends for event [e] that went through. *)
Definition delivered (e : Z) (calls : list SinkCall) : list SinkCall :=
  filter is_sent (calls_for e calls).

Definition is_cycle (c : Cmd) : Prop :=
  match c with ReminderLoop _ _ => True | _ => False end.

(* ================================================================= *)
(** ** Scenarios *)

Module Scenario.

(** Members of the guild without its permissions, writing in the text
    channel 77. *)
Definition member : option Permissions := Some (mkPermissions false false).

Definition alice : Ctx := mkCtx TextChannel 77 (py "Alice") member.
Definition bob : Ctx := mkCtx TextChannel 77 (py "Bob") member.

(** A member whose display name is written surname first. *)
Definition smith_alice : Ctx :=
  mkCtx TextChannel 77 (py "Smith, Alice") member.

Definition board_game_night : option str :=
  Some (py "Board Game Night | 2025-08-20 19:30 | Cafe X").

(** The same request with nothing before the first bar. *)
Definition untitled : option str :=
  Some (py " | 2025-08-20 19:30 | Cafe X").

(** 2025-08-20 19:30 in Taipei. *)
Definition game_time : Z := 1755689400000000.

(** The store after Alice created the event. *)
Definition db_alice : DB := fst (create_event alice board_game_night empty_db).

(** A transport on which every channel is a text channel and every send
    goes through, and one on which every send raises. *)
Definition tr_ok : Transport :=
  mkTransport (fun _ => Some TextChannel) (fun _ => Sent).
Definition tr_down : Transport :=
  mkTransport (fun _ => Some TextChannel) (fun _ => SendRaised).

Definition carol : Ctx := mkCtx TextChannel 77 (py "Carol") member.

(** Alice writing to the bot in a direct message: the author is a
    [discord.User]. *)
Definition alice_dm : Ctx := mkCtx DMChannel 99 (py "Alice") None.

Definition confirm : option str := Some (py "confirm").

Definition film_night : option str :=
  Some (py "Film Night | 2025-09-01 20:00 | Hall | bring snacks").

(** A request whose time has no such day. *)
Definition bad_time : option str :=
  Some (py "Board Game Night | 2025-02-30 19:30 | Cafe X").

(** A request for the first minute that [strptime] accepts; in UTC it
    lies eight hours before [datetime.min]. *)
Definition year_one : option str :=
  Some (py "New Year | 0001-01-01 00:00 | Cafe X").

(** A request for ten past eight on the first day that [strptime]
    accepts, which is 00:10 UTC, and the store in which Alice created
    that event before the board game night. *)
Definition dawn : option str := Some (py "Dawn | 0001-01-01 08:10 | Hill").

Definition db_dawn : DB :=
  fst (run [CreateEvent alice dawn; CreateEvent alice board_game_night]
           empty_db).

Definition row_dawn : Row :=
  mkRow 1 (Some 77) (py "Dawn") (py "Alice") (Some (py "Alice"))
        (Some (py "Alice")) [] (py "Hill")
        (Some (datetime_min + timedelta_minutes 10)) (Some 30) 0.

(** The row of the event as Alice created it, and the same row once the
    reminder went out. *)
Definition row_alice : Row :=
  mkRow 1 (Some 77) (py "Board Game Night") (py "Alice") (Some (py "Alice"))
        (Some (py "Alice")) [] (py "Cafe X") (Some game_time) (Some 30) 0.

Definition row_notified : Row := set_reminded 1 row_alice.

(** The store after a cycle at the event time sent the reminder. *)
Definition db_notified : DB :=
  fst (run [ReminderLoop tr_ok game_time] db_alice).

(** The store after Bob joined, its row, and the row once Alice left. *)
Definition db_alice_bob : DB := fst (run [JoinEvent bob 1] db_alice).

Definition row_alice_bob : Row :=
  set_participants (Some (py "Alice, Bob")) row_alice.

Definition row_bob : Row :=
  set_manager_col None (set_participants (Some (py "Bob")) row_alice).

End Scenario.

(* ================================================================= *)
(** ** Measures for the whole table *)

(** The columns that no statement of the handlers writes after the
    INSERT. *)
Definition same_event (r r' : Row) : Prop :=
  id r' = id r /\ channel_id r' = channel_id r /\ title r' = title r /\
  proposer r' = proposer r /\ location r' = location r /\
  event_time_utc r' = event_time_utc r.

(** The event a command names, if it names one. *)
Definition target (c : Cmd) : option Z :=
  match c with
  | JoinEvent _ e | LeaveEvent _ e | SetManager _ e _ | AddNote _ e _
  | SetReminder _ e _ | DeleteEvent _ e _ => Some e
  | RandomManager _ e _ => e
  | CreateEvent _ _ | ReminderLoop _ _ => None
  end.

(** [id] is the primary key. *)
Definition ids_distinct (db : DB) : Prop := NoDup (map id (rows db)).

(** The test of [delete_event] for a caller with the permissions [p]:
    proposer, manager, or one of the two guild permissions. *)
Definition may_delete (ctx : Ctx) (p : Permissions) (row : Row) : bool :=
  PyStr.eqb (display_name ctx) (proposer row)
  || is_manager (display_name ctx) (manager row)
  || manage_guild p || administrator p.

(** [now_utc >= remind_at] on a row with a time. *)
Definition due (now_utc : Z) (r : Row) : bool :=
  match event_time_utc r with
  | Some t => remind_at r t <=? now_utc
  | None => false
  end.

(** The rows for which the loop reaches the send: due, with a channel
    that can be written to. *)
Definition to_send (tr : Transport) (now_utc : Z) (r : Row) : bool :=
  due now_utc r && is_messageable (channel_of tr r).

(** The arithmetic of the loop on the time of the row does not raise:
    the time, its threshold and its Taipei time are [datetime]s. *)
Definition representable (r : Row) : bool :=
  match event_time_utc r with
  | Some t => remind_at_defined r t && shown_defined t
  | None => true
  end.

(** A property of rows that every setter of the UPDATE statements
    keeps. *)
Definition setters_keep (P : Row -> Prop) : Prop :=
  forall r, P r ->
    (forall p, P (set_participants p r)) /\
    (forall m, P (set_manager_col m r)) /\
    (forall n, P (set_note n r)) /\
    (forall m f, P (set_remind m f r)).

(* ================================================================= *)
(** ** Showing times *)

Module PyFmt.

(** The character of a decimal digit. *)
Definition dchar (v : Z) : ascii := ascii_of_N (48 + Z.to_N v).

(** [%m], [%d], [%H], [%M] of [strftime]: two digits. *)
Definition pad2 (n : Z) : str := [dchar (n / 10); dchar (n mod 10)].

(** [%Y] of [strftime], four digits as the table of the library
    reference has it.  (The C library of Linux drops leading zeros below
    the year 1000; what is proved of this function is about the years
    from 1000 on, where the platforms agree.) *)
Definition pad4 (n : Z) : str :=
  [dchar (n / 1000); dchar (n / 100 mod 10); dchar (n / 10 mod 10);
   dchar (n mod 10)].

(** The date inside a 400-year era, from the day of the era counted
    from a 1 March: year of the era (the March-based year, plus one for
    January and February), month, day. *)
Definition civil_in_era (doe : Z) : Z * Z * Z :=
  let yoe := (doe - doe / 1460 + doe / 36524 - doe / 146096) / 365 in
  let doy := doe - (365 * yoe + yoe / 4 - yoe / 100) in
  let mp := (5 * doy + 2) / 153 in
  let d := doy - (153 * mp + 2) / 5 + 1 in
  let m := if mp <? 10 then mp + 3 else mp - 9 in
  (if m <=? 2 then yoe + 1 else yoe, m, d).

(** The date of the proleptic Gregorian calendar that lies the given
    number of days after 1970-01-01: what [datetime] computes from its
    day count. *)
Definition civil_from_days (z : Z) : Z * Z * Z :=
  let era := (z + 719468) / 146097 in
  let doe := (z + 719468) mod 146097 in
  let '(y, m, d) := civil_in_era doe in
  (y + era * 400, m, d).

(** Whole minutes of the Taipei wall clock since 1970-01-01 00:00, for
    an instant: [astimezone(TAIPEI)], seconds dropped. *)
Definition local_minutes (t : Z) : Z := (t + TAIPEI) / minute.

(** [dt.astimezone(TAIPEI).strftime("%Y-%m-%d %H:%M")] *)
Definition strftime_local (t : Z) : str :=
  let mins := local_minutes t in
  let '(y, m, d) := civil_from_days (mins / 1440) in
  let hm := mins mod 1440 in
  pad4 y ++ ["-"%char] ++ pad2 m ++ ["-"%char] ++ pad2 d ++ [space]
  ++ pad2 (hm / 60) ++ [":"%char] ++ pad2 (hm mod 60).

(** What [fmt_dt_local] returns.  The literal it returns for a missing
    time lies outside the characters of [str]; it is kept as a
    constructor. *)
Inductive TimeText : Type :=
| NotSet
| Shown (s : str).

(** [fmt_dt_local], where it returns; for a time whose Taipei date is
    not a [datetime], [astimezone] raises instead (see [fmt_defined]). *)
Definition fmt_dt_local (iso_utc : option Z) : TimeText :=
  match iso_utc with
  | None => NotSet
  | Some t => Shown (strftime_local t)
  end.

End PyFmt.

Import PyFmt.

(* ================================================================= *)
(** ** The commands that only read *)

(** [s or <literal>] on a text: [None] stands for the literal, which
    lies outside the characters of [str]. *)
Definition or_literal (s : str) : option str :=
  if truthy s then Some s else None.

(** What [show_event] puts into its message, field by field. *)
Record Summary : Type := mkSummary {
  shown_id : Z;
  shown_title : str;
  shown_time : TimeText;
  shown_location : option str;
  shown_proposer : str;
  shown_manager : option str;
  shown_count : nat;
  shown_names : option str;
  shown_note : option str;
  shown_minutes : Z
}.

(** What becomes of [!show_event]: an exception, the reply that the
    event is not found, or the summary. *)
Inductive Showing : Type :=
| ShowRaised
| NoSuchEvent
| Summarised (s : Summary).

(** [fmt_dt_local] returns: there is no time, or the time is shown. *)
Definition fmt_defined (iso_utc : option Z) : bool :=
  match iso_utc with
  | None => true
  | Some t => shown_defined t
  end.

(** [!show_event] *)
Definition show_event (event_id : Z) (db : DB) : Showing :=
  match select_by_id event_id db with
  | None => if bindable event_id then NoSuchEvent else ShowRaised
  | Some row =>
      let parts := names_to_list (participants row) in
      if negb (fmt_defined (event_time_utc row)) then ShowRaised
      else
        Summarised
          (mkSummary (id row) (title row)
             (fmt_dt_local (event_time_utc row))
             (or_literal (location row))
             (proposer row)
             (match manager row with
              | Some m => or_literal m
              | None => None
              end)
             (length parts)
             (or_literal (list_to_names parts))
             (or_literal (note row))
             (or_default (remind_minutes row) 30))
  end.








(* ================================================================= *)
(** ** Start-up *)

Definition LF : ascii := ascii_of_N 10.
Definition CR : ascii := ascii_of_N 13.

(** [f.readline()] on a file opened in text mode: the first line with
    its end, every kind of line end read as LF. *)
Fixpoint readline (content : str) : str :=
  match content with
  | [] => []
  | c :: rest =>
      if Ascii.eqb c LF || Ascii.eqb c CR then [LF] else c :: readline rest
  end.

(** [load_token], given what [os.getenv("DISCORD_TOKEN")] returns and
    the content of [DISCORD_TOKEN.txt] ([None]: no such file). *)
Definition load_token (env : option str) (file : option str) : option str :=
  let from_file :=
    match file with
    | Some content =>
        let line := strip (readline content) in
        if truthy line then Some line else None
    | None => None
    end in
  match env with
  | Some token => if truthy token then Some (strip token) else from_file
  | None => from_file
  end.

(** The entry point: [Some t] when [bot.run(t)] is reached, [None] when
    the [RuntimeError] is raised instead. *)
Definition entrypoint (env : option str) (file : option str) : option str :=
  match load_token env file with
  | Some token => if truthy token then Some token else None
  | None => None
  end.

(* ================================================================= *)
(** ** Measures for times *)

(** The year of the Taipei date of an instant. *)
Definition local_year (t : Z) : Z :=
  fst (fst (civil_from_days (local_minutes t / 1440))).

(** [p] holds of [fuel] integers in a row, from [z] on. *)
Fixpoint all_from (fuel : nat) (z : Z) (p : Z -> bool) : bool :=
  match fuel with
  | O => true
  | S f => p z && all_from f (z + 1) p
  end.

(** The date computed for a day of the era is a date of the calendar,
    and counting its days gives the day back. *)
Definition era_day_ok (doe : Z) : bool :=
  let '(y0, m, d) := civil_in_era doe in
  (1 <=? m) && (m <=? 12) && (1 <=? d) && (d <=? days_in_month y0 m)
  && (days_from_civil y0 m d =? doe - 719468).

(** The first way in which a matcher matches. *)
Definition first_match {A} (m : matcher A) (s : str) (a : A) (rest : str)
    : Prop :=
  exists l, m s = (a, rest) :: l.

(* ================================================================= *)
(** ** Facts about the string functions *)

Section StringFacts.

Lemma eqb_eq (a b : str) : PyStr.eqb a b = true <-> a = b.
Proof.
  revert b; induction a as [|x a IH]; intros [|y b]; simpl.
  - split; reflexivity.
  - split; discriminate.
  - split; discriminate.
  - rewrite andb_true_iff, Ascii.eqb_eq, IH.
    split; [intros [-> ->]; reflexivity | intros H; inversion H; auto].
Qed.

Lemma eqb_refl (a : str) : PyStr.eqb a a = true.
Proof. apply eqb_eq; reflexivity. Qed.

Lemma eqb_neq (a b : str) : PyStr.eqb a b = false <-> a <> b.
Proof.
  rewrite <- eqb_eq. destruct (PyStr.eqb a b); split; congruence.
Qed.

Lemma mem_In (x : str) (l : list str) : mem x l = true <-> In x l.
Proof.
  unfold mem. rewrite existsb_exists. split.
  - intros [y [Hy He]]. apply eqb_eq in He. subst; assumption.
  - intros H. exists x. split; [assumption | apply eqb_refl].
Qed.

Lemma mem_not_In (x : str) (l : list str) : mem x l = false <-> ~ In x l.
Proof.
  rewrite <- mem_In. destruct (mem x l); split; congruence.
Qed.

Lemma has_comma_In (x : str) : has_comma x = true <-> In comma x.
Proof.
  unfold has_comma. rewrite existsb_exists. split.
  - intros [c [Hc He]]. apply Ascii.eqb_eq in He. subst; assumption.
  - intros H. exists comma. split; [assumption | apply Ascii.eqb_refl].
Qed.

Lemma split_not_nil (c : ascii) (s : str) : split c s <> [].
Proof.
  destruct s as [|x s]; simpl; [discriminate|].
  destruct (Ascii.eqb x c); [discriminate|].
  destruct (split c s); discriminate.
Qed.

(** Splitting distributes over a separator. *)
Lemma split_app_sep (c : ascii) (a b : str) :
  split c (a ++ c :: b) = split c a ++ split c b.
Proof.
  induction a as [|x a IH]; simpl.
  - rewrite Ascii.eqb_refl. reflexivity.
  - destruct (Ascii.eqb x c); rewrite IH; [reflexivity|].
    pose proof (split_not_nil c a) as Hn.
    destruct (split c a); [contradiction | reflexivity].
Qed.

Lemma split_no_sep (c : ascii) (x : str) : ~ In c x -> split c x = [x].
Proof.
  induction x as [|y x IH]; simpl; intros H; [reflexivity|].
  destruct (Ascii.eqb y c) eqn:E.
  - apply Ascii.eqb_eq in E. subst. tauto.
  - rewrite IH by tauto. reflexivity.
Qed.

Lemma split_pieces_no_sep (c : ascii) (s : str) :
  Forall (fun p => ~ In c p) (split c s).
Proof.
  induction s as [|y s IH]; simpl.
  - constructor; [tauto | constructor].
  - destruct (Ascii.eqb y c) eqn:E.
    + constructor; [tauto | assumption].
    + destruct (split c s) as [|p ps]; simpl.
      * constructor; [|constructor]. intros [->|[]].
        rewrite Ascii.eqb_refl in E. discriminate.
      * inversion IH; subst. constructor; [|assumption].
        intros [->|H]; [|tauto].
        rewrite Ascii.eqb_refl in E. discriminate.
Qed.

Lemma drop_while_incl (p : ascii -> bool) (s : str) (c : ascii) :
  In c (drop_while p s) -> In c s.
Proof.
  induction s as [|y s IH]; simpl; [tauto|].
  destruct (p y); simpl; tauto.
Qed.

Lemma drop_while_length (p : ascii -> bool) (s : str) :
  (length (drop_while p s) <= length s)%nat.
Proof.
  induction s as [|y s IH]; simpl; [lia|].
  destruct (p y); simpl; lia.
Qed.

Lemma drop_while_head (p : ascii -> bool) (s : str) :
  match drop_while p s with [] => True | c :: _ => p c = false end.
Proof.
  induction s as [|y s IH]; simpl; [exact I|].
  destruct (p y) eqn:E; [assumption | simpl; assumption].
Qed.

(** What [drop_while] leaves is a suffix. *)
Lemma drop_while_suffix (p : ascii -> bool) (s : str) :
  exists t : str, s = t ++ drop_while p s.
Proof.
  induction s as [|y s [t IH]]; simpl.
  - exists []. reflexivity.
  - destruct (p y).
    + exists (y :: t). simpl. congruence.
    + exists []. reflexivity.
Qed.

Lemma lstrip_fixed (x : str) : lstrip x = x <-> no_leading_ws x = true.
Proof.
  unfold lstrip. destruct x as [|c x]; simpl; [tauto|].
  destruct (is_space c) eqn:E; simpl; split; try congruence; try tauto.
  intros H. pose proof (drop_while_length is_space x) as L.
  rewrite H in L. simpl in L. lia.
Qed.

Lemma rstrip_fixed (x : str) : rstrip x = x <-> no_trailing_ws x = true.
Proof.
  unfold rstrip, no_trailing_ws. rewrite <- lstrip_fixed. unfold lstrip.
  split; intros H.
  - rewrite <- H at 2. rewrite rev_involutive. reflexivity.
  - rewrite H. apply rev_involutive.
Qed.

Lemma lstrip_length (x : str) : (length (lstrip x) <= length x)%nat.
Proof. apply drop_while_length. Qed.

Lemma rstrip_length (x : str) : (length (rstrip x) <= length x)%nat.
Proof.
  unfold rstrip. rewrite length_rev.
  etransitivity; [apply drop_while_length|]. rewrite length_rev. lia.
Qed.

(** [rstrip] keeps a prefix. *)
Lemma rstrip_prefix (x : str) : exists t : str, x = rstrip x ++ t.
Proof.
  unfold rstrip. destruct (drop_while_suffix is_space (rev x)) as [t Ht].
  exists (rev t). rewrite <- rev_app_distr, <- Ht, rev_involutive.
  reflexivity.
Qed.

Lemma strip_incl (x : str) (c : ascii) : In c (strip x) -> In c x.
Proof.
  unfold strip, rstrip, lstrip. intros H.
  apply in_rev in H. apply drop_while_incl in H. apply in_rev in H.
  eapply drop_while_incl; eassumption.
Qed.

Lemma strip_nil : strip [] = [].
Proof. reflexivity. Qed.

(** A leading whitespace character does not change the stripped text. *)
Lemma strip_cons_space (c : ascii) (x : str) :
  is_space c = true -> strip (c :: x) = strip x.
Proof. intros H. unfold strip, lstrip. simpl. rewrite H. reflexivity. Qed.

Lemma strip_no_trailing (x : str) : no_trailing_ws (strip x) = true.
Proof.
  unfold strip, rstrip, no_trailing_ws. rewrite rev_involutive.
  pose proof (drop_while_head is_space (rev (lstrip x))) as H.
  destruct (drop_while is_space (rev (lstrip x))); simpl; [reflexivity|].
  rewrite H. reflexivity.
Qed.

Lemma strip_no_leading (x : str) : no_leading_ws (strip x) = true.
Proof.
  unfold strip. destruct (rstrip_prefix (lstrip x)) as [t Ht].
  pose proof (drop_while_head is_space x) as H. fold (lstrip x) in H.
  destruct (rstrip (lstrip x)) as [|c r]; [reflexivity|].
  rewrite Ht in H. simpl in *. rewrite H. reflexivity.
Qed.

Lemma tidy_spec (x : str) :
  tidy x = true <-> ~ In comma x /\ strip x = x.
Proof.
  unfold tidy. rewrite !andb_true_iff, negb_true_iff.
  rewrite <- has_comma_In, <- lstrip_fixed, <- rstrip_fixed.
  split.
  - intros [[Hc Hl] Hr]. split; [congruence|].
    unfold strip. rewrite Hl. assumption.
  - intros [Hc Hs]. assert (Hl : lstrip x = x).
    { pose proof (lstrip_length x) as L1.
      pose proof (rstrip_length (lstrip x)) as L2.
      unfold strip in Hs. rewrite Hs in L2.
      unfold lstrip in *. destruct x as [|c x]; [reflexivity|].
      simpl in *. destruct (is_space c); [|reflexivity].
      pose proof (drop_while_length is_space x). lia. }
    repeat split.
    + destruct (has_comma x); [tauto | reflexivity].
    + assumption.
    + unfold strip in Hs. rewrite Hl in Hs. assumption.
Qed.

Lemma strip_tidy (x : str) : tidy x = true -> strip x = x.
Proof. intros H. apply tidy_spec in H. tauto. Qed.

End StringFacts.

(* ================================================================= *)
(** ** Reading back the participants column *)

Section NamesFacts.

Lemma reread_eq (x : str) :
  reread x = filter truthy (map strip (split comma x)).
Proof.
  unfold reread, names_to_list. destruct x; reflexivity.
Qed.

Lemma is_space_space : is_space space = true.
Proof. reflexivity. Qed.

(** The blank that [join] puts after a comma is stripped away again. *)
Lemma reread_cons_space (s : str) : reread (space :: s) = reread s.
Proof.
  rewrite !reread_eq. simpl split. change (Ascii.eqb space comma) with false.
  pose proof (split_not_nil comma s) as Hn.
  destruct (split comma s) as [|p ps]; [contradiction|].
  simpl. rewrite (strip_cons_space space p is_space_space). reflexivity.
Qed.

(** A comma cuts a stored text in two independent parts. *)
Lemma reread_app_comma (a b : str) :
  reread (a ++ comma :: b) = reread a ++ reread b.
Proof.
  rewrite !reread_eq, split_app_sep, map_app, filter_app. reflexivity.
Qed.

(** Reading a stored list reads every entry on its own. *)
Lemma reread_join (l : list str) :
  names_to_list (Some (list_to_names l)) = flat_map reread l.
Proof.
  fold (reread (list_to_names l)). unfold list_to_names.
  induction l as [|x l IH]; [reflexivity|].
  destruct l as [|y l].
  - simpl. rewrite app_nil_r. reflexivity.
  - change (join [comma; space] (x :: y :: l))
      with (x ++ comma :: space :: join [comma; space] (y :: l)).
    rewrite reread_app_comma, reread_cons_space, IH. reflexivity.
Qed.

Lemma clean_tidy (x : str) : clean x = true -> tidy x = true.
Proof. unfold clean. rewrite andb_true_iff. tauto. Qed.

Lemma reread_tidy (x : str) :
  tidy x = true -> reread x = if truthy x then [x] else [].
Proof.
  intros H. apply tidy_spec in H. destruct H as [Hc Hs].
  rewrite reread_eq, (split_no_sep comma x Hc). simpl. rewrite Hs.
  reflexivity.
Qed.

Lemma reread_clean (x : str) : clean x = true -> reread x = [x].
Proof.
  intros H. unfold clean in H. apply andb_true_iff in H. destruct H as [Ht Hy].
  rewrite (reread_tidy _ Hy), Ht. reflexivity.
Qed.

(** Whatever is read back is clean. *)
Lemma reread_all_clean (s : str) : Forall (fun x => clean x = true) (reread s).
Proof.
  rewrite reread_eq. apply Forall_forall. intros x Hx.
  apply filter_In in Hx. destruct Hx as [Hx Ht].
  apply in_map_iff in Hx. destruct Hx as [p [<- Hp]].
  unfold clean. rewrite Ht. simpl. apply tidy_spec.
  pose proof (split_pieces_no_sep comma s) as Hf.
  rewrite Forall_forall in Hf. split.
  - intros Hc. apply (Hf p Hp). apply strip_incl. assumption.
  - unfold strip at 1. assert (Hl : lstrip (strip p) = strip p)
      by (apply lstrip_fixed, strip_no_leading).
    rewrite Hl. apply rstrip_fixed, strip_no_trailing.
Qed.

Lemma names_to_list_all_clean (s : option str) :
  Forall (fun x => clean x = true) (names_to_list s).
Proof.
  destruct s as [s|]; [apply reread_all_clean | constructor].
Qed.

Lemma flat_map_reread_clean (l : list str) :
  Forall (fun x => clean x = true) l -> flat_map reread l = l.
Proof.
  induction 1 as [|x l Hx Hl IH]; simpl; [reflexivity|].
  rewrite (reread_clean _ Hx), IH. reflexivity.
Qed.

(** Storing and reading back a list of clean names gives the list. *)
Lemma roundtrip_clean (l : list str) :
  Forall (fun x => clean x = true) l ->
  names_to_list (Some (list_to_names l)) = l.
Proof. intros H. rewrite reread_join. apply flat_map_reread_clean, H. Qed.

(** Storing what was read gives it back. *)
Lemma roundtrip_stored (s : option str) :
  names_to_list (Some (list_to_names (names_to_list s))) = names_to_list s.
Proof. apply roundtrip_clean, names_to_list_all_clean. Qed.

Lemma names_to_list_filter (s : option str) (f : str -> bool) :
  names_to_list (Some (list_to_names (filter f (names_to_list s))))
  = filter f (names_to_list s).
Proof.
  apply roundtrip_clean. apply Forall_forall. intros x Hx.
  apply filter_In in Hx. destruct Hx as [Hx _].
  pose proof (names_to_list_all_clean s) as H.
  rewrite Forall_forall in H. auto.
Qed.

(** Appending a name to what was read and storing it: the old names
    stay, followed by whatever the new name reads back as. *)
Lemma names_to_list_append (s : option str) (x : str) :
  names_to_list (Some (list_to_names (names_to_list s ++ [x])))
  = names_to_list s ++ reread x.
Proof.
  rewrite reread_join, flat_map_app. simpl. rewrite app_nil_r.
  rewrite flat_map_reread_clean by apply names_to_list_all_clean.
  reflexivity.
Qed.

End NamesFacts.

(* ================================================================= *)
(** ** Facts about the table *)

Section TableFacts.

Lemma id_set_participants p r : id (set_participants p r) = id r.
Proof. reflexivity. Qed.

Lemma id_set_manager_col m r : id (set_manager_col m r) = id r.
Proof. reflexivity. Qed.

Lemma id_set_note n r : id (set_note n r) = id r.
Proof. reflexivity. Qed.

Lemma id_set_remind m f r : id (set_remind m f r) = id r.
Proof. reflexivity. Qed.

Lemma select_by_id_In e db r : select_by_id e db = Some r -> In r (rows db).
Proof. unfold select_by_id. intros H. apply find_some in H. tauto. Qed.

Lemma select_by_id_id e db r : select_by_id e db = Some r -> id r = e.
Proof.
  unfold select_by_id. intros H. apply find_some in H.
  destruct H as [_ H]. apply Z.eqb_eq in H. assumption.
Qed.

(** An UPDATE that keeps the id: the row found afterwards is the updated
    row found before. *)
Lemma select_update_same e f db :
  (forall r, id (f r) = id r) ->
  select_by_id e (update_by_id e f db) = option_map f (select_by_id e db).
Proof.
  intros Hf. unfold select_by_id, update_by_id. simpl.
  induction (rows db) as [|r rs IH]; simpl; [reflexivity|].
  destruct (id r =? e) eqn:E.
  - rewrite Hf, E. reflexivity.
  - rewrite E. assumption.
Qed.

Lemma select_update_other e e' f db :
  (forall r, id (f r) = id r) -> e' <> e ->
  select_by_id e' (update_by_id e f db) = select_by_id e' db.
Proof.
  intros Hf Hne. unfold select_by_id, update_by_id. simpl.
  induction (rows db) as [|r rs IH]; simpl; [reflexivity|].
  destruct (id r =? e) eqn:E.
  - rewrite Hf. apply Z.eqb_eq in E.
    assert (E' : (id r =? e') = false) by (apply Z.eqb_neq; lia).
    rewrite E'. assumption.
  - destruct (id r =? e'); [reflexivity | assumption].
Qed.

(** A property of rows that the update keeps on the rows it touches
    stays true of every row. *)
Lemma update_by_id_Forall (P : Row -> Prop) e f db :
  (forall r, In r (rows db) -> id r = e -> P r -> P (f r)) ->
  Forall P (rows db) -> Forall P (rows (update_by_id e f db)).
Proof.
  intros Hf H. unfold update_by_id. simpl.
  rewrite Forall_forall in *. intros r' Hr'.
  apply in_map_iff in Hr'. destruct Hr' as [r [<- Hr]].
  destruct (id r =? e) eqn:E; [|auto].
  apply Z.eqb_eq in E. auto.
Qed.

Lemma delete_by_id_Forall (P : Row -> Prop) e db :
  Forall P (rows db) -> Forall P (rows (delete_by_id e db)).
Proof.
  intros H. unfold delete_by_id. simpl. rewrite Forall_forall in *.
  intros r Hr. apply filter_In in Hr. destruct Hr as [Hr _]. auto.
Qed.

Lemma max_id_ge rs r : In r rs -> id r <= max_id rs.
Proof.
  induction rs as [|r' rs IH]; simpl; [tauto|].
  intros [->|H]; [lia|]. specialize (IH H). lia.
Qed.

Lemma insert_spec mk db db' e :
  insert mk db = Some (db', e) ->
  e = Z.max (sqlite_seq db) (max_id (rows db)) + 1 /\
  rows db' = rows db ++ [mk e] /\ sqlite_seq db' = e.
Proof.
  unfold insert. destruct (_ <? MAX_ROWID); [|discriminate].
  intros H. inversion H; subst. simpl. auto.
Qed.

End TableFacts.

(* ================================================================= *)
(** ** Single commands *)

Section Commands.

Variable ctx : Ctx.

Lemma is_manager_spec name m : is_manager name m = true <-> m = Some name.
Proof.
  destruct m as [m|]; simpl.
  - rewrite eqb_eq. split; congruence.
  - split; discriminate.
Qed.

(** C5: with an existing event and minutes within 0..1440, [set_reminder]
    succeeds and the row then has [reminded = 0] and the new minutes,
    whatever the flag was before; with minutes outside that range it
    replies out-of-range and the store is the same. *)
Theorem set_reminder_rearms (e m : Z) (db : DB) (row : Row) :
  select_by_id e db = Some row ->
  (0 <= m <= 1440 ->
   snd (set_reminder ctx e m db) = ReminderSet m /\
   exists row',
     select_by_id e (fst (set_reminder ctx e m db)) = Some row' /\
     reminded row' = 0 /\ remind_minutes row' = Some m /\
     event_time_utc row' = event_time_utc row) /\
  (m < 0 \/ 1440 < m -> set_reminder ctx e m db = (db, OutOfRange)).
Proof.
  intros Hsel. unfold set_reminder. split.
  - intros Hm.
    assert (G : (m <? 0) || (24 * 60 <? m) = false).
    { apply orb_false_iff. split; apply Z.ltb_ge; lia. }
    rewrite G, Hsel. simpl. split; [reflexivity|].
    exists (set_remind (Some m) 0 row).
    rewrite select_update_same by apply id_set_remind.
    rewrite Hsel. simpl. auto.
  - intros Hm.
    assert (G : (m <? 0) || (24 * 60 <? m) = true).
    { apply orb_true_iff. destruct Hm; [left | right]; apply Z.ltb_lt; lia. }
    rewrite G. reflexivity.
Qed.

(** C9: when the caller is a participant, [leave_event] takes exactly
    that name out of the participants and empties the manager if the
    caller was the manager; when the caller is not a participant it
    replies not-a-member and the store is the same. *)
Theorem leave_event_removes_name (e : Z) (db : DB) (row : Row) :
  select_by_id e db = Some row ->
  (In (display_name ctx) (participants_of row) ->
   exists row',
     select_by_id e (fst (leave_event ctx e db)) = Some row' /\
     snd (leave_event ctx e db) = Left (is_none (manager row')) /\
     participants_of row'
       = filter (fun p => negb (PyStr.eqb p (display_name ctx)))
                (participants_of row) /\
     ~ In (display_name ctx) (participants_of row') /\
     (forall p, p <> display_name ctx ->
        (In p (participants_of row') <-> In p (participants_of row))) /\
     (manager row = Some (display_name ctx) -> manager row' = None) /\
     (manager row <> Some (display_name ctx) -> manager row' = manager row))
  /\
  (~ In (display_name ctx) (participants_of row) ->
   leave_event ctx e db = (db, NotMember)).
Proof.
  intros Hsel. unfold leave_event. rewrite Hsel. split.
  - intros Hin. apply mem_In in Hin. unfold participants_of in *.
    rewrite Hin. cbn [negb fst snd].
    rewrite select_update_same by reflexivity. rewrite Hsel.
    cbn [option_map]. eexists. split; [reflexivity|].
    cbn [participants manager set_manager_col set_participants].
    rewrite names_to_list_filter.
    split; [reflexivity|]. split; [reflexivity|]. split; [|split; [|split]].
    + intros H. apply filter_In in H. destruct H as [_ H].
      rewrite eqb_refl in H. discriminate.
    + intros p Hp. rewrite filter_In, negb_true_iff, eqb_neq. tauto.
    + intros Hm. apply is_manager_spec in Hm. rewrite Hm. reflexivity.
    + intros Hm. destruct (is_manager (display_name ctx) (manager row)) eqn:E;
        [|reflexivity].
      apply is_manager_spec in E. contradiction.
  - intros Hin. apply mem_not_In in Hin. unfold participants_of in *.
    rewrite Hin. reflexivity.
Qed.

End Commands.

(* ================================================================= *)
(** ** Identifiers *)

Section Identifiers.

(** Whatever the marking of reminded rows keeps, a cycle keeps. *)
Lemma remind_each_inv (Q : DB -> Prop) tr now fetched :
  (forall row d, Q d -> Q (mark_reminded row d)) ->
  forall db, Q db -> Q (fst (fst (remind_each tr now fetched db))).
Proof.
  intros Hmark. induction fetched as [|row rest IH]; intros db HQ; simpl.
  - assumption.
  - destruct (event_time_utc row) as [t|]; [|auto].
    destruct (remind_at_defined row t); [|exact HQ]. cbn [negb].
    destruct (remind_at row t <=? now); [|auto].
    destruct (is_messageable (channel_of tr row)); [|auto].
    destruct (shown_defined t); [|exact HQ]. cbn [negb].
    destruct (send tr row).
    + specialize (IH (mark_reminded row db) (Hmark _ _ HQ)).
      destruct (remind_each tr now rest (mark_reminded row db)) as [[d c] o].
      exact IH.
    + exact HQ.
Qed.

Lemma reminder_loop_seq tr now db :
  sqlite_seq (fst (fst (reminder_loop tr now db))) = sqlite_seq db.
Proof.
  unfold reminder_loop.
  apply (remind_each_inv (fun d => sqlite_seq d = sqlite_seq db));
    [intros row d H; exact H | reflexivity].
Qed.

Lemma reminder_loop_ids_bounded tr now db :
  ids_bounded db -> ids_bounded (fst (fst (reminder_loop tr now db))).
Proof.
  unfold reminder_loop. apply remind_each_inv.
  intros row d H. unfold ids_bounded, mark_reminded in *.
  apply update_by_id_Forall; [|exact H]. intros r _ _ Hr. exact Hr.
Qed.

Ltac break_step :=
  unfold no_row;
  repeat match goal with
  | |- context [match ?x with _ => _ end] =>
      match type of x with
      | sumbool _ _ => fail 1
      | _ => destruct x eqn:?
      end
  end.

(** [create_event] either refuses and leaves the store alone, or inserts
    one such row and returns its id. *)
Lemma create_event_cases ctx payload db :
  (fst (create_event ctx payload db) = db /\
   forall e, snd (create_event ctx payload db) <> Created e) \/
  (exists title note location t db' e,
     insert (new_row ctx title note location t) db = Some (db', e) /\
     create_event ctx payload db = (db', Created e)).
Proof.
  unfold create_event. cbv zeta. fold bar.
  repeat match goal with
  | |- context [match ?x with _ => _ end] => destruct x eqn:?
  end;
  try (left; split; [reflexivity | discriminate]).
  right. do 6 eexists. split; [|reflexivity]. eassumption.
Qed.

(** The counter never goes down, and a creation returns an id above it
    and leaves it at that id. *)
Lemma step_seq c db :
  sqlite_seq db <= sqlite_seq (fst (step c db)) /\
  (forall e, snd (step c db) = Created e ->
     sqlite_seq db < e /\ sqlite_seq (fst (step c db)) = e).
Proof.
  destruct c; simpl.
  - destruct (create_event_cases ctx payload db)
      as [[Hdb Hno]|[ti [no [lo [t [db' [e' [Hins Hc]]]]]]]].
    + rewrite Hdb. split; [lia|]. intros e He. destruct (Hno e He).
    + rewrite Hc. simpl. apply insert_spec in Hins.
      destruct Hins as [He [_ Hs]]. split; [lia|].
      intros e H. inversion H; subst. lia.
  - unfold join_event. break_step; simpl; split; try lia; discriminate.
  - unfold leave_event. break_step; simpl; split; try lia; discriminate.
  - unfold set_manager. break_step; simpl; split; try lia; discriminate.
  - unfold random_manager. break_step; simpl; split; try lia; discriminate.
  - unfold add_note. break_step; simpl; split; try lia; discriminate.
  - unfold set_reminder. break_step; simpl; split; try lia; discriminate.
  - unfold delete_event. break_step; simpl; split; try lia; discriminate.
  - pose proof (reminder_loop_seq tr now_utc db) as H.
    destruct (reminder_loop tr now_utc db) as [[d calls] o]. simpl in *.
    split; [lia | discriminate].
Qed.

Lemma update_ids_bounded e f db :
  (forall r, id (f r) = id r) ->
  ids_bounded db -> ids_bounded (update_by_id e f db).
Proof.
  intros Hf H. unfold ids_bounded in *.
  apply update_by_id_Forall; [|exact H].
  intros r _ _ Hr. simpl. rewrite Hf. exact Hr.
Qed.

Lemma step_ids_bounded c db :
  ids_bounded db -> ids_bounded (fst (step c db)).
Proof.
  intros H. destruct c; simpl.
  - destruct (create_event_cases ctx payload db)
      as [[Hdb Hno]|[ti [no [lo [t [db' [e' [Hins Hc]]]]]]]].
    + rewrite Hdb. assumption.
    + rewrite Hc. simpl. apply insert_spec in Hins.
      destruct Hins as [He [Hr Hs]].
      unfold ids_bounded. rewrite Hr, Hs. apply Forall_app. split.
      * eapply Forall_impl; [|exact H]. simpl. intros r Hle. lia.
      * constructor; [simpl; lia | constructor].
  - unfold join_event. break_step; simpl; try assumption;
      apply update_ids_bounded; solve [reflexivity | assumption].
  - unfold leave_event. break_step; simpl; try assumption;
      apply update_ids_bounded; solve [reflexivity | assumption].
  - unfold set_manager. break_step; simpl; try assumption;
      apply update_ids_bounded; solve [reflexivity | assumption].
  - unfold random_manager. break_step; simpl; try assumption;
      apply update_ids_bounded; solve [reflexivity | assumption].
  - unfold add_note. break_step; simpl; try assumption;
      apply update_ids_bounded; solve [reflexivity | assumption].
  - unfold set_reminder. break_step; simpl; try assumption;
      apply update_ids_bounded; solve [reflexivity | assumption].
  - unfold delete_event. break_step; simpl; try assumption.
    apply delete_by_id_Forall. assumption.
  - pose proof (reminder_loop_ids_bounded tr now_utc db H) as H'.
    destruct (reminder_loop tr now_utc db) as [[d calls] o]. exact H'.
Qed.

Lemma run_cons c cs db :
  run (c :: cs) db
  = (fst (run cs (fst (step c db))),
     snd (step c db) :: snd (run cs (fst (step c db)))).
Proof.
  simpl. destruct (step c db) as [db1 r]. simpl.
  destruct (run cs db1) as [db2 rs]. reflexivity.
Qed.

Lemma run_app cs1 cs2 db :
  run (cs1 ++ cs2) db
  = (fst (run cs2 (fst (run cs1 db))),
     snd (run cs1 db) ++ snd (run cs2 (fst (run cs1 db)))).
Proof.
  revert db. induction cs1 as [|c cs1 IH]; intros db.
  - simpl. destruct (run cs2 db). reflexivity.
  - rewrite <- app_comm_cons, !run_cons, IH. reflexivity.
Qed.

Lemma run_ids_bounded cs db :
  ids_bounded db -> ids_bounded (fst (run cs db)).
Proof.
  revert db. induction cs as [|c cs IH]; intros db H; [exact H|].
  rewrite run_cons. simpl. apply IH, step_ids_bounded, H.
Qed.

Lemma created_ids_app rs1 rs2 :
  created_ids (rs1 ++ rs2) = created_ids rs1 ++ created_ids rs2.
Proof.
  induction rs1 as [|r rs1 IH]; [reflexivity|].
  destruct r; simpl; rewrite ?IH; reflexivity.
Qed.

(** The ids created by a run lie above the counter it started from, in
    increasing order, and the counter ends at or above each of them. *)
Lemma run_created_above cs db :
  Forall (fun i => sqlite_seq db < i) (created_ids (snd (run cs db))) /\
  StronglySorted Z.lt (created_ids (snd (run cs db))) /\
  sqlite_seq db <= sqlite_seq (fst (run cs db)).
Proof.
  revert db. induction cs as [|c cs IH]; intros db.
  - simpl. repeat split; [constructor | constructor | lia].
  - rewrite run_cons. cbn [fst snd].
    destruct (step_seq c db) as [Hmono Hcr].
    destruct (IH (fst (step c db))) as [Habove [Hsorted Hle]].
    assert (Hab' : Forall (fun i => sqlite_seq db < i)
                     (created_ids (snd (run cs (fst (step c db)))))).
    { eapply Forall_impl; [|exact Habove]. simpl. intros i Hi. lia. }
    destruct (snd (step c db)) eqn:Hr; cbn [created_ids];
      try (repeat split; [assumption | assumption | lia]).
    destruct (Hcr e eq_refl) as [Hlt Heq].
    repeat split; [| |lia].
    + constructor; assumption.
    + constructor; [assumption|]. rewrite Heq in Habove. exact Habove.
Qed.

Lemma StronglySorted_lt_NoDup (l : list Z) : StronglySorted Z.lt l -> NoDup l.
Proof.
  induction 1 as [|x l Hs IH Hx]; constructor; [|assumption].
  intros Hin. rewrite Forall_forall in Hx. specialize (Hx x Hin). lia.
Qed.

End Identifiers.

(** C8: over any run of commands from a store whose rowids the counter
    covers, the ids that the creations return are strictly increasing in
    the order of creation, hence pairwise distinct, and the id of an
    event that a command of the run deleted is not returned by any later
    creation. *)
Theorem created_ids_increasing_never_reused (cs : list Cmd) (db : DB) :
  ids_bounded db ->
  StronglySorted Z.lt (created_ids (snd (run cs db))) /\
  NoDup (created_ids (snd (run cs db))) /\
  (forall cs1 ctx e confirm cs2,
     cs = cs1 ++ DeleteEvent ctx e confirm :: cs2 ->
     snd (delete_event ctx e confirm (fst (run cs1 db))) = Deleted ->
     ~ In e (created_ids
               (snd (run cs2
                  (fst (delete_event ctx e confirm (fst (run cs1 db)))))))).
Proof.
  intros Hb. destruct (run_created_above cs db) as [_ [Hs _]].
  split; [exact Hs|]. split; [apply StronglySorted_lt_NoDup, Hs|].
  intros cs1 ctx e confirm cs2 _ Hdel Hin.
  pose proof (run_ids_bounded cs1 db Hb) as Hb1.
  set (db1 := fst (run cs1 db)) in *.
  assert (He : e <= sqlite_seq db1).
  { unfold delete_event, no_row in Hdel.
    destruct (select_by_id e db1) as [row|] eqn:Hsel;
      [|destruct (bindable e); discriminate].
    pose proof (select_by_id_In _ _ _ Hsel) as Hrow.
    pose proof (select_by_id_id _ _ _ Hsel) as Hid.
    unfold ids_bounded in Hb1. rewrite Forall_forall in Hb1.
    specialize (Hb1 row Hrow). lia. }
  destruct (step_seq (DeleteEvent ctx e confirm) db1) as [Hmono _].
  simpl in Hmono.
  destruct (run_created_above cs2 (fst (delete_event ctx e confirm db1)))
    as [Habove _].
  rewrite Forall_forall in Habove. specialize (Habove e Hin). lia.
Qed.

(* ================================================================= *)
(** ** Invariants of one event *)

Section EventInvariants.

Lemma select_insert_other mk db db' e' e :
  (forall i, id (mk i) = i) ->
  insert mk db = Some (db', e') -> e <> e' ->
  select_by_id e db' = select_by_id e db.
Proof.
  intros Hmk Hins Hne. apply insert_spec in Hins.
  destruct Hins as [_ [Hr _]]. unfold select_by_id. rewrite Hr. clear Hr.
  induction (rows db) as [|r rs IH]; simpl.
  - rewrite Hmk. assert (E : (e' =? e) = false) by (apply Z.eqb_neq; lia).
    rewrite E. reflexivity.
  - destruct (id r =? e); [reflexivity | assumption].
Qed.

Lemma select_insert_new mk db db' e' :
  (forall i, id (mk i) = i) ->
  insert mk db = Some (db', e') ->
  select_by_id e' db' = Some (mk e').
Proof.
  intros Hmk Hins. apply insert_spec in Hins.
  destruct Hins as [He [Hr _]]. unfold select_by_id. rewrite Hr.
  assert (Hlt : forall r, In r (rows db) -> id r < e').
  { intros r Hin. pose proof (max_id_ge _ _ Hin). lia. }
  clear He Hr. induction (rows db) as [|r rs IH]; simpl.
  - rewrite Hmk, Z.eqb_refl. reflexivity.
  - assert (E : (id r =? e') = false).
    { apply Z.eqb_neq. specialize (Hlt r (or_introl eq_refl)). lia. }
    rewrite E. apply IH. intros r' Hr'. apply Hlt. right. assumption.
Qed.

Lemma select_delete e e' db row :
  select_by_id e (delete_by_id e' db) = Some row ->
  select_by_id e db = Some row.
Proof.
  unfold select_by_id, delete_by_id. simpl.
  induction (rows db) as [|r rs IH]; simpl; [discriminate|].
  destruct (id r =? e') eqn:E'; simpl.
  - intros H. specialize (IH H). destruct (id r =? e) eqn:E; [|assumption].
    apply find_some in H. destruct H as [H _]. apply filter_In in H.
    destruct H as [_ H]. apply find_some in IH. destruct IH as [_ IH].
    apply Z.eqb_eq in E, E', IH. apply negb_true_iff, Z.eqb_neq in H. lia.
  - destruct (id r =? e); [tauto | assumption].
Qed.

Lemma select_mark_reminded e row d r' :
  select_by_id e (mark_reminded row d) = Some r' ->
  exists r, select_by_id e d = Some r /\ same_people r r'.
Proof.
  unfold mark_reminded. destruct (Z.eq_dec e (id row)) as [->|Hne].
  - rewrite select_update_same by reflexivity.
    destruct (select_by_id (id row) d) as [r|]; [|discriminate].
    simpl. intros H. inversion H; subst. exists r.
    split; [reflexivity | split; reflexivity].
  - rewrite select_update_other by (reflexivity || assumption).
    intros H. exists r'. split; [assumption | split; reflexivity].
Qed.

Lemma select_reminder_loop tr now e db r' :
  select_by_id e (fst (fst (reminder_loop tr now db))) = Some r' ->
  exists r, select_by_id e db = Some r /\ same_people r r'.
Proof.
  revert r'. unfold reminder_loop.
  apply (remind_each_inv
           (fun d => forall r', select_by_id e d = Some r' ->
                     exists r, select_by_id e db = Some r /\ same_people r r')).
  - intros row d IH r' H. apply select_mark_reminded in H.
    destruct H as [r1 [H1 [Hp1 Hm1]]]. destruct (IH r1 H1) as [r [H0 [Hp Hm]]].
    exists r. split; [assumption|]. split; congruence.
  - intros r' H. exists r'. split; [assumption | split; reflexivity].
Qed.

(** An UPDATE of event [e'] keeps the invariant of event [e] if the
    new row of [e] has the property whenever the old one had it. *)
Lemma event_inv_update (P : Row -> Prop) e e' f db :
  (forall r, id (f r) = id r) ->
  (forall row, e' = e -> select_by_id e db = Some row -> P row -> P (f row)) ->
  event_inv P e db -> event_inv P e (update_by_id e' f db).
Proof.
  intros Hid Hf [Hle HP]. split; [exact Hle|].
  intros row. destruct (Z.eq_dec e e') as [<-|Hne].
  - rewrite select_update_same by assumption.
    destruct (select_by_id e db) as [r|] eqn:Hsel; [|discriminate].
    simpl. intros H. inversion H; subst. auto.
  - rewrite select_update_other by assumption. apply HP.
Qed.

Section PeopleInvariant.

Variable P : Row -> Prop.
Hypothesis P_people : forall r r', same_people r r' -> P r -> P r'.
Variable e : Z.

Lemma event_inv_create ctx payload db :
  event_inv P e db -> event_inv P e (fst (create_event ctx payload db)).
Proof.
  intros [Hle HP].
  destruct (create_event_cases ctx payload db)
    as [[Hdb Hno]|[ti [no [lo [t [db' [e' [Hins Hc]]]]]]]].
  - rewrite Hdb. split; assumption.
  - rewrite Hc. simpl. pose proof (insert_spec _ _ _ _ Hins) as [He [_ Hs]].
    split; [lia|]. intros row.
    rewrite (select_insert_other (new_row ctx ti no lo t) db db' e' e
               (fun i => eq_refl) Hins) by lia.
    apply HP.
Qed.

Lemma event_inv_same_people e' f db :
  (forall r, id (f r) = id r) -> (forall r, same_people r (f r)) ->
  event_inv P e db -> event_inv P e (update_by_id e' f db).
Proof.
  intros Hid Hf. apply event_inv_update; [assumption|].
  intros row _ _. apply P_people, Hf.
Qed.

Lemma event_inv_delete e' db :
  event_inv P e db -> event_inv P e (delete_by_id e' db).
Proof.
  intros [Hle HP]. split; [exact Hle|].
  intros row H. apply select_delete in H. auto.
Qed.

Lemma event_inv_reminder_loop tr now db :
  event_inv P e db -> event_inv P e (fst (fst (reminder_loop tr now db))).
Proof.
  intros [Hle HP]. split.
  - rewrite reminder_loop_seq. exact Hle.
  - intros r' H. apply select_reminder_loop in H.
    destruct H as [r [Hsel Hsame]]. eapply P_people; eauto.
Qed.

End PeopleInvariant.

End EventInvariants.

Section PeopleSteps.

Lemma manager_ok_people r r' :
  same_people r r' -> manager_ok r -> manager_ok r'.
Proof.
  intros [Hp Hm]. unfold manager_ok, participants_of. rewrite Hp, Hm. tauto.
Qed.

Lemma participants_distinct_people r r' :
  same_people r r' -> participants_distinct r -> participants_distinct r'.
Proof.
  intros [Hp Hm]. unfold participants_distinct, participants_of.
  rewrite Hp. tauto.
Qed.

Lemma step_reminder_loop tr now db :
  fst (step (ReminderLoop tr now) db) = fst (fst (reminder_loop tr now db)).
Proof.
  simpl. destruct (reminder_loop tr now db) as [[d calls] o]. reflexivity.
Qed.

Lemma choice_In r x l : In (choice r (x :: l)) (x :: l).
Proof.
  unfold choice. apply nth_In. apply Nat.mod_upper_bound. simpl. lia.
Qed.

(** The commands that leave participants and manager alone keep any
    property of them. *)
Lemma step_other_people (P : Row -> Prop) e c db :
  (forall r r', same_people r r' -> P r -> P r') ->
  match c with
  | JoinEvent _ _ | LeaveEvent _ _ | SetManager _ _ _
  | RandomManager _ _ _ => False
  | _ => True
  end ->
  event_inv P e db -> event_inv P e (fst (step c db)).
Proof.
  intros HP Hc H. destruct c; try contradiction.
  - apply event_inv_create; assumption.
  - simpl. unfold add_note.
    destruct (select_by_id event_id db); simpl; [|assumption].
    apply event_inv_same_people; try assumption; try reflexivity.
    intros r0; split; reflexivity.
  - simpl. unfold set_reminder.
    destruct ((minutes <? 0) || (24 * 60 <? minutes)); simpl; [assumption|].
    destruct (select_by_id event_id db); simpl; [|assumption].
    apply event_inv_same_people; try assumption; try reflexivity.
    intros r0; split; reflexivity.
  - simpl. unfold delete_event.
    destruct (select_by_id event_id db); simpl; [|assumption].
    destruct (guild_permissions ctx); simpl; [|assumption].
    destruct (negb _); simpl; [assumption|].
    destruct (negb _); simpl; [assumption|].
    apply event_inv_delete; assumption.
  - rewrite step_reminder_loop. apply event_inv_reminder_loop; assumption.
Qed.

(** I2 is kept by every command, whatever the names. *)
Lemma step_manager_ok e c db :
  event_inv manager_ok e db -> event_inv manager_ok e (fst (step c db)).
Proof.
  intros H.
  destruct c;
    try (apply step_other_people;
         [exact manager_ok_people | exact I | exact H]).
  - (* join *)
    simpl. unfold join_event.
    destruct (select_by_id event_id db) as [row|] eqn:Hsel; [|exact H].
    destruct (mem _ _) eqn:Hmem; [exact H|]. simpl.
    apply event_inv_update; [reflexivity | | exact H].
    intros row0 -> Hsel0 Hok. rewrite Hsel0 in Hsel. inversion Hsel; subst.
    unfold manager_ok, participants_of in *.
    cbn [manager participants set_participants].
    destruct (manager row) as [m|]; [|exact I].
    destruct Hok as [->|Hin]; [left; reflexivity | right].
    rewrite names_to_list_append. apply in_or_app. left. assumption.
  - (* leave *)
    simpl. unfold leave_event.
    destruct (select_by_id event_id db) as [row|] eqn:Hsel; [|exact H].
    destruct (negb (mem _ _)) eqn:Hmem; [exact H|]. simpl.
    apply event_inv_update; [reflexivity | | exact H].
    intros row0 -> Hsel0 Hok. rewrite Hsel0 in Hsel. inversion Hsel; subst.
    unfold manager_ok, participants_of in *.
    cbn [manager participants set_participants set_manager_col].
    destruct (is_manager (display_name ctx) (manager row)) eqn:Hman;
      [exact I|].
    destruct (manager row) as [m|]; [|exact I].
    destruct Hok as [->|Hin]; [left; reflexivity | right].
    rewrite names_to_list_filter. apply filter_In. split; [assumption|].
    simpl in Hman. apply negb_true_iff, eqb_neq. apply eqb_neq in Hman.
    congruence.
  - (* set_manager *)
    simpl. unfold set_manager.
    destruct (select_by_id event_id db) as [row|] eqn:Hsel; [|exact H].
    destruct (negb (mem _ _)) eqn:Hmem; [exact H|]. simpl.
    apply negb_false_iff, mem_In in Hmem.
    apply event_inv_update; [reflexivity | | exact H].
    intros row0 -> Hsel0 Hok. rewrite Hsel0 in Hsel. inversion Hsel; subst.
    unfold manager_ok, participants_of.
    cbn [manager participants set_manager_col]. right. assumption.
  - (* random_manager *)
    simpl. unfold random_manager.
    destruct event_id as [event_id|]; [|exact H].
    destruct (select_by_id event_id db) as [row|] eqn:Hsel; [|exact H].
    destruct (names_to_list (participants row)) as [|x l] eqn:Hparts;
      [exact H|]. simpl.
    apply event_inv_update; [reflexivity | | exact H].
    intros row0 -> Hsel0 Hok. rewrite Hsel0 in Hsel. inversion Hsel; subst.
    unfold manager_ok, participants_of.
    cbn [manager participants set_manager_col]. right.
    rewrite Hparts. apply choice_In.
Qed.

(** I1 is kept by every command as long as whoever joins has a tidy
    name. *)
Lemma step_participants_distinct e c db :
  tidy_join e c ->
  event_inv participants_distinct e db ->
  event_inv participants_distinct e (fst (step c db)).
Proof.
  intros Ht H.
  destruct c;
    try (apply step_other_people;
         [exact participants_distinct_people | exact I | exact H]).
  - (* join *)
    simpl. unfold join_event.
    destruct (select_by_id event_id db) as [row|] eqn:Hsel; [|exact H].
    destruct (mem _ _) eqn:Hmem; [exact H|]. simpl.
    apply event_inv_update; [reflexivity | | exact H].
    intros row0 -> Hsel0 Hok. rewrite Hsel0 in Hsel. inversion Hsel; subst.
    unfold participants_distinct, participants_of in *.
    cbn [participants set_participants].
    rewrite names_to_list_append. simpl in Ht.
    rewrite (reread_tidy _ (Ht eq_refl)).
    destruct (truthy (display_name ctx)).
    + apply NoDup_app; [assumption | constructor; [intros []|constructor] |].
      intros a Ha [<-|[]]. apply mem_not_In in Hmem. contradiction.
    + rewrite app_nil_r. assumption.
  - (* leave *)
    simpl. unfold leave_event.
    destruct (select_by_id event_id db) as [row|] eqn:Hsel; [|exact H].
    destruct (negb (mem _ _)) eqn:Hmem; [exact H|]. simpl.
    apply event_inv_update; [reflexivity | | exact H].
    intros row0 -> Hsel0 Hok. rewrite Hsel0 in Hsel. inversion Hsel; subst.
    unfold participants_distinct, participants_of in *.
    cbn [participants set_participants set_manager_col].
    rewrite names_to_list_filter. apply NoDup_filter. assumption.
  - (* set_manager *)
    simpl. unfold set_manager.
    destruct (select_by_id event_id db) as [row|] eqn:Hsel; [|exact H].
    destruct (negb (mem _ _)) eqn:Hmem; [exact H|]. simpl.
    apply event_inv_update; [reflexivity | | exact H].
    intros row0 _ _ Hok. exact Hok.
  - (* random_manager *)
    simpl. unfold random_manager.
    destruct event_id as [event_id|]; [|exact H].
    destruct (select_by_id event_id db) as [row|] eqn:Hsel; [|exact H].
    destruct (names_to_list (participants row)) as [|x l] eqn:Hparts;
      [exact H|]. simpl.
    apply event_inv_update; [reflexivity | | exact H].
    intros row0 _ _ Hok. exact Hok.
Qed.

End PeopleSteps.

(* ================================================================= *)
(** ** I1 and I2 over runs *)

Section RunInvariants.

Lemma run_event_inv (P : Row -> Prop) (Q : Cmd -> Prop) e :
  (forall c db, Q c -> event_inv P e db -> event_inv P e (fst (step c db))) ->
  forall cs db, Forall Q cs -> event_inv P e db ->
  event_inv P e (fst (run cs db)).
Proof.
  intros Hstep. induction cs as [|c cs IH]; intros db HQ H; [exact H|].
  rewrite run_cons. simpl. inversion HQ; subst. apply IH; auto.
Qed.

(** Right after a creation, the event found under the returned id is the
    row just inserted. *)
Lemma create_event_created ctx payload db db1 e :
  create_event ctx payload db = (db1, Created e) ->
  sqlite_seq db1 = e /\
  exists title note location t,
    select_by_id e db1 = Some (new_row ctx title note location t e).
Proof.
  intros Hc.
  destruct (create_event_cases ctx payload db)
    as [[Hdb Hno]|[ti [no [lo [t [db' [e' [Hins Hc']]]]]]]].
  - exfalso. apply (Hno e). rewrite Hc. reflexivity.
  - rewrite Hc in Hc'. inversion Hc'; subst.
    pose proof (insert_spec _ _ _ _ Hins) as [_ [_ Hs]].
    split; [exact Hs|]. exists ti, no, lo, t.
    apply (select_insert_new (new_row ctx ti no lo t) db db' e'
             (fun i => eq_refl) Hins).
Qed.

Lemma participants_of_new_row ctx title note location t e :
  participants_of (new_row ctx title note location t e)
  = reread (display_name ctx).
Proof. reflexivity. Qed.

End RunInvariants.

(** What the code keeps of I1: once an event is created by a member
    whose display name has no comma and no leading or trailing
    whitespace, every run of commands in which the members joining it
    have such names (in particular every sequence of joins and leaves on
    it) leaves its participants free of duplicates. *)
Theorem participants_distinct_for_tidy_names
    (ctx : Ctx) (payload : option str) (db db1 : DB) (e : Z)
    (cs : list Cmd) (row : Row) :
  create_event ctx payload db = (db1, Created e) ->
  tidy (display_name ctx) = true ->
  Forall (tidy_join e) cs ->
  select_by_id e (fst (run cs db1)) = Some row ->
  NoDup (participants_of row).
Proof.
  intros Hc Ht Hcs Hsel.
  destruct (create_event_created _ _ _ _ _ Hc) as [Hs [ti [no [lo [t Hnew]]]]].
  assert (H1 : event_inv participants_distinct e db1).
  { split; [lia|]. intros r Hr. rewrite Hnew in Hr. inversion Hr; subst.
    unfold participants_distinct. rewrite participants_of_new_row.
    rewrite (reread_tidy _ Ht).
    destruct (truthy (display_name ctx)); repeat constructor. intros []. }
  pose proof (run_event_inv participants_distinct (tidy_join e) e
                (fun c d => step_participants_distinct e c d) cs db1 Hcs H1)
    as [_ H].
  exact (H row Hsel).
Qed.

(** What the code keeps of I2: once an event is created by a member
    whose display name has no comma and no leading or trailing
    whitespace, every run of commands, by members of any name, leaves
    its manager unset, empty or among its participants. *)
Theorem manager_among_participants_for_tidy_proposer
    (ctx : Ctx) (payload : option str) (db db1 : DB) (e : Z)
    (cs : list Cmd) (row : Row) :
  create_event ctx payload db = (db1, Created e) ->
  tidy (display_name ctx) = true ->
  select_by_id e (fst (run cs db1)) = Some row ->
  manager_ok row.
Proof.
  intros Hc Ht Hsel.
  destruct (create_event_created _ _ _ _ _ Hc) as [Hs [ti [no [lo [t Hnew]]]]].
  assert (H1 : event_inv manager_ok e db1).
  { split; [lia|]. intros r Hr. rewrite Hnew in Hr. inversion Hr; subst.
    unfold manager_ok. rewrite participants_of_new_row.
    cbn [manager new_row]. rewrite (reread_tidy _ Ht).
    destruct (display_name ctx);
      [left; reflexivity | right; left; reflexivity]. }
  pose proof (run_event_inv manager_ok (fun _ => True) e
                (fun c d _ => step_manager_ok e c d) cs db1) as H.
  destruct H as [_ H]; [apply Forall_forall; intros; exact I | exact H1 |].
  exact (H row Hsel).
Qed.

(** C3 on the code: I1 is broken by a join.  After Alice created the
    event, a member whose display name is "Smith, Alice" joins: the test
    [member_name in parts] finds the name absent, the handler appends it
    and answers that the member joined, and the participants read back
    from what it stored are Alice, Smith and Alice: Alice is listed
    twice. *)
Lemma participants_duplicate_with_comma_name :
  exists db' row,
    select_by_id 1 Scenario.db_alice = Some Scenario.row_alice /\
    participants_of Scenario.row_alice = [py "Alice"] /\
    display_name Scenario.smith_alice = py "Smith, Alice" /\
    run [JoinEvent Scenario.smith_alice 1] Scenario.db_alice
      = (db', [Joined]) /\
    select_by_id 1 db' = Some row /\
    participants_of row = [py "Alice"; py "Smith"; py "Alice"] /\
    ~ NoDup (participants_of row).
Proof.
  eexists. eexists.
  split; [vm_compute; reflexivity|]. split; [vm_compute; reflexivity|].
  split; [reflexivity|]. split; [vm_compute; reflexivity|].
  split; [vm_compute; reflexivity|].
  split; [vm_compute; reflexivity|].
  intros H. vm_compute in H. inversion H as [|x l Hnot _]; subst.
  apply Hnot. right. left. reflexivity.
Qed.

(** C4 on the code: I2 is broken by the creation.  A member whose
    display name is "Smith, Alice" creates an event: [create_event]
    stores the name as manager and as the one participant, and the
    participants read back from what it stored are Smith and Alice, so
    that the manager is not among them; it stays so when Bob joins. *)
Lemma manager_not_participant_with_comma_name :
  exists db1 row0 row,
    create_event Scenario.smith_alice Scenario.board_game_night empty_db
      = (db1, Created 1) /\
    select_by_id 1 db1 = Some row0 /\
    manager row0 = Some (py "Smith, Alice") /\
    participants_of row0 = [py "Smith"; py "Alice"] /\
    ~ manager_ok row0 /\
    select_by_id 1 (fst (run [JoinEvent Scenario.bob 1] db1)) = Some row /\
    manager row = Some (py "Smith, Alice") /\
    participants_of row = [py "Smith"; py "Alice"; py "Bob"] /\
    ~ manager_ok row.
Proof.
  eexists. eexists. eexists. split; [vm_compute; reflexivity|].
  split; [vm_compute; reflexivity|].
  split; [reflexivity|]. split; [vm_compute; reflexivity|].
  split.
  { unfold manager_ok. vm_compute. intros [H|[H|[H|[]]]]; discriminate. }
  split; [vm_compute; reflexivity|].
  split; [reflexivity|]. split; [vm_compute; reflexivity|].
  unfold manager_ok. vm_compute. intros [H|[H|[H|[H|[]]]]]; discriminate.
Qed.

Section Roundtrip.

Lemma flat_map_reread_all_clean (l : list str) :
  Forall (fun x => clean x = true) (flat_map reread l).
Proof.
  induction l as [|x l IH]; simpl; [constructor|].
  apply Forall_app. split; [apply reread_all_clean | exact IH].
Qed.

Lemma clean_no_comma (x : str) : clean x = true -> ~ In comma x.
Proof. intros H. apply clean_tidy, tidy_spec in H. tauto. Qed.

(** A text without a comma is read as one entry, the text stripped, or
    as none when nothing is left of it. *)
Lemma reread_no_comma (x : str) :
  ~ In comma x -> reread x = if truthy (strip x) then [strip x] else [].
Proof.
  intros Hc. rewrite reread_eq, (split_no_sep comma x Hc). reflexivity.
Qed.

End Roundtrip.

(** C10, as the code has it: storing a list of names and reading it back
    gives the list exactly when every entry is non-empty, has no comma
    and has no leading or trailing whitespace.  A name with a comma,
    [a ++ "," ++ b], stored among clean names is read back as what [a]
    reads back as followed by what [b] reads back as, never as the name
    itself.  A part without a comma is read as one entry, the part
    stripped, or as none when it is empty or all whitespace: so the
    name gives the two entries [a] and [b] when both are clean, and, for
    parts without a comma, as many entries as there are parts that are
    not blank. *)
Theorem names_roundtrip_iff_clean :
  (forall l,
     names_to_list (Some (list_to_names l)) = l <->
     Forall (fun x => clean x = true) l) /\
  (forall l1 a b l2,
     Forall (fun x => clean x = true) l1 ->
     Forall (fun x => clean x = true) l2 ->
     names_to_list (Some (list_to_names (l1 ++ (a ++ comma :: b) :: l2)))
       = l1 ++ (reread a ++ reread b) ++ l2 /\
     ~ In (a ++ comma :: b) (reread a ++ reread b) /\
     (clean a = true -> clean b = true -> reread a ++ reread b = [a; b])) /\
  (forall x, ~ In comma x ->
     reread x = if truthy (strip x) then [strip x] else []) /\
  (forall a b, ~ In comma a -> ~ In comma b ->
     length (reread a ++ reread b)
     = ((if truthy (strip a) then 1 else 0)
        + (if truthy (strip b) then 1 else 0))%nat).
Proof.
  split; [|split; [|split]].
  - intros l. split.
    + intros H. rewrite reread_join in H. rewrite <- H.
      apply flat_map_reread_all_clean.
    + apply roundtrip_clean.
  - intros l1 a b l2 H1 H2. split; [|split].
    + rewrite reread_join, flat_map_app. simpl.
      rewrite reread_app_comma.
      rewrite !flat_map_reread_clean by assumption. reflexivity.
    + intros Hin. rewrite <- reread_app_comma in Hin.
      pose proof (reread_all_clean (a ++ comma :: b)) as Hc.
      rewrite Forall_forall in Hc. apply Hc in Hin.
      apply clean_no_comma in Hin. apply Hin.
      apply in_or_app. right. left. reflexivity.
    + intros Ha Hb. rewrite (reread_clean _ Ha), (reread_clean _ Hb).
      reflexivity.
  - exact reread_no_comma.
  - intros a b Ha Hb. rewrite length_app.
    rewrite (reread_no_comma a Ha), (reread_no_comma b Hb).
    destruct (truthy (strip a)); destruct (truthy (strip b)); reflexivity.
Qed.

(** C10 as stated fails where a comma has nothing after it: the name
    "a," comes back as the one entry "a", and "," as no entry. *)
Lemma comma_name_read_back_as_one_entry :
  has_comma (py "a,") = true /\
  names_to_list (Some (list_to_names [py "a,"])) = [py "a"] /\
  ~ (2 <= length (names_to_list (Some (list_to_names [py "a,"]))))%nat /\
  names_to_list (Some (list_to_names [py ","])) = [].
Proof.
  split; [reflexivity|]. split; [reflexivity|].
  split; [vm_compute; lia | reflexivity].
Qed.

(* ================================================================= *)
(** ** Creation *)

Section Creation.

Lemma split_nil_length (c : ascii) : length (split c []) = 1%nat.
Proof. reflexivity. Qed.

Lemma strip_idempotent (x : str) : strip (strip x) = strip x.
Proof.
  unfold strip at 1.
  assert (Hl : lstrip (strip x) = strip x)
    by (apply lstrip_fixed, strip_no_leading).
  rewrite Hl. apply rstrip_fixed, strip_no_trailing.
Qed.

(** The numbers that the groups of the regular expression can read. *)
Lemma one_reads (lo hi : N) (s r : str) (v : Z) :
  In (v, r) (one (digit lo hi) s) -> Z.of_N lo <= v <= Z.of_N hi.
Proof.
  unfold one, digit, in_range, digit_val. destruct s as [|c s']; [intros []|].
  destruct (_ && _) eqn:E; [|intros []].
  intros [H|[]]. inversion H; subst.
  apply andb_true_iff in E. destruct E as [E1 E2].
  apply N.leb_le in E1, E2. lia.
Qed.

Lemma bind_reads {A B} (m : matcher A) (k : A -> matcher B) (s : str)
    (x : B * str) :
  In x (bind m k s) -> exists a r, In (a, r) (m s) /\ In x (k a r).
Proof.
  unfold bind. intros H. apply in_flat_map in H.
  destruct H as [[a r] [H1 H2]]. exists a, r. split; assumption.
Qed.

Lemma two_reads (lo1 hi1 lo2 hi2 : N) (s r : str) (v : Z) :
  In (v, r) (two (digit lo1 hi1) (digit lo2 hi2) s) ->
  10 * Z.of_N lo1 + Z.of_N lo2 <= v <= 10 * Z.of_N hi1 + Z.of_N hi2.
Proof.
  unfold two. intros H.
  apply bind_reads in H. destruct H as [a [r1 [Ha H]]].
  apply bind_reads in H. destruct H as [b [r2 [Hb H]]].
  destruct H as [H|[]]. apply pair_equal_spec in H. destruct H as [<- _].
  apply one_reads in Ha. apply one_reads in Hb. lia.
Qed.

Ltac reads_alt H :=
  unfold alt in H; cbn [flat_map] in H;
  repeat (apply in_app_or in H; destruct H as [H|H]);
  try (apply two_reads in H; simpl in H; lia);
  try (apply one_reads in H; simpl in H; lia);
  try contradiction.

Lemma format_regex_reads_fields (s rest : str) (y m d h mi : Z) :
  In (y, m, d, h, mi, rest) (format_regex s) ->
  0 <= y <= 9999 /\ 1 <= m <= 12 /\ 1 <= d <= 31 /\
  0 <= h <= 23 /\ 0 <= mi <= 59.
Proof.
  unfold format_regex. intros H.
  apply bind_reads in H. destruct H as [y0 [r1 [Hy H]]].
  apply bind_reads in H. destruct H as [u1 [r2 [_ H]]].
  apply bind_reads in H. destruct H as [m0 [r3 [Hm H]]].
  apply bind_reads in H. destruct H as [u2 [r4 [_ H]]].
  apply bind_reads in H. destruct H as [d0 [r5 [Hd H]]].
  apply bind_reads in H. destruct H as [u3 [r6 [_ H]]].
  apply bind_reads in H. destruct H as [h0 [r7 [Hh H]]].
  apply bind_reads in H. destruct H as [u4 [r8 [_ H]]].
  apply bind_reads in H. destruct H as [mi0 [r9 [Hmi H]]].
  destruct H as [H|[]]. inversion H; subst.
  assert (Gy : 0 <= y <= 9999).
  { unfold re_Y in Hy.
    apply bind_reads in Hy. destruct Hy as [a [q1 [Ha Hy]]].
    apply bind_reads in Hy. destruct Hy as [b [q2 [Hb Hy]]].
    destruct Hy as [Hy|[]]. apply pair_equal_spec in Hy.
    destruct Hy as [<- _].
    apply two_reads in Ha. apply two_reads in Hb. simpl in Ha, Hb. lia. }
  assert (Gm : 1 <= m <= 12) by (unfold re_m in Hm; reads_alt Hm).
  assert (Gd : 1 <= d <= 31).
  { unfold re_d in Hd. unfold alt in Hd. cbn [flat_map] in Hd.
    repeat (apply in_app_or in Hd; destruct Hd as [Hd|Hd]);
      try (apply two_reads in Hd; simpl in Hd; lia);
      try (apply one_reads in Hd; simpl in Hd; lia);
      try contradiction.
    apply bind_reads in Hd. destruct Hd as [u [q [_ Hd]]].
    apply one_reads in Hd. simpl in Hd. lia. }
  assert (Gh : 0 <= h <= 23) by (unfold re_H in Hh; reads_alt Hh).
  assert (Gmi : 0 <= mi <= 59) by (unfold re_M in Hmi; reads_alt Hmi).
  tauto.
Qed.

(** The day counts of the years 1 to 9999. *)
Lemma days_from_civil_range (y m d : Z) :
  1 <= y <= 9999 -> 1 <= m <= 12 -> 1 <= d <= 31 ->
  -719162 <= days_from_civil y m d <= 2932896.
Proof.
  intros Hy Hm Hd. unfold days_from_civil.
  destruct (m <=? 2) eqn:E; [apply Z.leb_le in E | apply Z.leb_gt in E];
    cbv zeta; Z.to_euclidean_division_equations; lia.
Qed.

(** A time that [parse_local_time] accepts lies, as a Taipei wall-clock
    time, in the years 1 to 9999: in UTC it is a [datetime] unless it
    falls before [datetime.min], which the first eight Taipei hours of
    the year 1 do. *)
Lemma parse_local_time_range (s : str) (t : Z) :
  parse_local_time s = Some t ->
  datetime_min - TAIPEI <= t <= datetime_max - TAIPEI.
Proof.
  unfold parse_local_time, strptime.
  destruct (format_regex (strip s)) as [|[[[[[y m] d] h] mi] rest] l] eqn:Hf;
    [discriminate|].
  destruct rest; [|discriminate].
  destruct ((1 <=? y) && (d <=? days_in_month y m)) eqn:Hv; [|discriminate].
  intros H. inversion H; subst t.
  assert (Hin : In (y, m, d, h, mi, []) (format_regex (strip s)))
    by (rewrite Hf; left; reflexivity).
  apply format_regex_reads_fields in Hin.
  apply andb_true_iff in Hv. destruct Hv as [Hy _]. apply Z.leb_le in Hy.
  pose proof (days_from_civil_range y m d) as Hdays.
  unfold datetime_min, datetime_max, TAIPEI, minute. lia.
Qed.

Lemma in_datetime_parsed (s : str) (t : Z) :
  parse_local_time s = Some t ->
  in_datetime t = (datetime_min <=? t).
Proof.
  intros H. apply parse_local_time_range in H. unfold in_datetime.
  assert (E : (t <=? datetime_max) = true).
  { apply Z.leb_le. unfold TAIPEI, minute, datetime_max in *. lia. }
  rewrite E. apply andb_true_r.
Qed.

End Creation.

(** C2, as the code has it: [create_event] refuses, leaving the store as
    it was, a request without payload or with an empty one, a payload of
    fewer than three fields and a time that does not parse (in a channel
    that is not messageable the refusal asks for a text channel
    instead); every reply other than the created one leaves the store as
    it was.  An empty title is not refused: in a messageable channel,
    with three fields, a time that parses and is not before
    [datetime.min] in UTC, a channel id of 64 bits and room for one more
    rowid,
    the event is inserted with the empty title.  A time that parses but
    lies in UTC before [datetime.min] (a Taipei time before 08:00 on
    0001-01-01) raises: nothing is stored and nothing is answered. *)
Theorem create_event_validation (ctx : Ctx) (payload : option str) (db : DB) :
  ((forall e, snd (create_event ctx payload db) <> Created e) ->
   fst (create_event ctx payload db) = db) /\
  ((payload = None \/ payload = Some [] \/
    exists p, payload = Some p /\ (length (fields p) < 3)%nat) ->
   create_event ctx payload db
   = (db, if is_messageable (Some (ctx_channel ctx)) then Usage
          else NeedTextChannel)) /\
  (forall p, payload = Some p -> (3 <= length (fields p))%nat ->
   parse_local_time (nth 1 (fields p) []) = None ->
   create_event ctx payload db
   = (db, if is_messageable (Some (ctx_channel ctx)) then BadTimeFormat
          else NeedTextChannel)) /\
  (is_messageable (Some (ctx_channel ctx)) = true ->
   forall p t, payload = Some p -> (3 <= length (fields p))%nat ->
   nth 0 (fields p) [] = [] ->
   parse_local_time (nth 1 (fields p) []) = Some t ->
   datetime_min <= t ->
   bindable (ctx_channel_id ctx) = true ->
   Z.max (sqlite_seq db) (max_id (rows db)) < MAX_ROWID ->
   exists db' e row,
     create_event ctx payload db = (db', Created e) /\
     select_by_id e db' = Some row /\ title row = []) /\
  (is_messageable (Some (ctx_channel ctx)) = true ->
   forall p t, payload = Some p -> (3 <= length (fields p))%nat ->
   parse_local_time (nth 1 (fields p) []) = Some t ->
   t < datetime_min ->
   create_event ctx payload db = (db, Raised)).
Proof.
  split; [|split; [|split; [|split]]].
  - intros Hno.
    destruct (create_event_cases ctx payload db)
      as [[Hdb _]|[ti [no [lo [t [db' [e' [_ Hc]]]]]]]]; [exact Hdb|].
    exfalso. apply (Hno e'). rewrite Hc. reflexivity.
  - intros Hp. unfold create_event.
    destruct (is_messageable (Some (ctx_channel ctx))); simpl; [|reflexivity].
    destruct Hp as [->|[->|[p [-> Hlen]]]]; try reflexivity.
    destruct (truthy p); simpl; [|reflexivity].
    fold (fields p). apply Nat.ltb_lt in Hlen. rewrite Hlen. reflexivity.
  - intros p -> Hlen Hparse. unfold create_event.
    destruct (is_messageable (Some (ctx_channel ctx))); simpl; [|reflexivity].
    assert (Hp : truthy p = true).
    { destruct p; [simpl in Hlen; lia | reflexivity]. }
    rewrite Hp. simpl. fold (fields p).
    apply Nat.ltb_ge in Hlen. rewrite Hlen, Hparse. reflexivity.
  - intros Hch p t -> Hlen Htitle Hparse Hmin Hbind Hroom.
    assert (Hutc : in_datetime t = true).
    { rewrite (in_datetime_parsed _ _ Hparse). apply Z.leb_le. exact Hmin. }
    unfold create_event. rewrite Hch. simpl.
    assert (Hp : truthy p = true).
    { destruct p; [simpl in Hlen; lia | reflexivity]. }
    rewrite Hp. simpl. fold (fields p).
    apply Nat.ltb_ge in Hlen. rewrite Hlen, Hparse, Htitle, Hutc, Hbind.
    cbn [negb].
    match goal with
    | |- context [insert ?mk db] =>
        destruct (insert mk db) as [[db' e]|] eqn:Hins;
        [pose proof (select_insert_new mk db db' e (fun i => eq_refl) Hins)
           as Hsel
        | unfold insert in Hins; apply Z.ltb_lt in Hroom;
          rewrite Hroom in Hins; discriminate]
    end.
    eexists. eexists. eexists. split; [reflexivity|].
    split; [exact Hsel | reflexivity].
  - intros Hch p t -> Hlen Hparse Hmin.
    assert (Hutc : in_datetime t = false).
    { rewrite (in_datetime_parsed _ _ Hparse). apply Z.leb_gt. exact Hmin. }
    unfold create_event. rewrite Hch. simpl.
    assert (Hp : truthy p = true).
    { destruct p; [simpl in Hlen; lia | reflexivity]. }
    rewrite Hp. simpl. fold (fields p).
    apply Nat.ltb_ge in Hlen. rewrite Hlen, Hparse, Hutc. reflexivity.
Qed.

(** C2 fails on the code: a request whose title field is empty, with a
    good time and place, is accepted and stored. *)
Lemma create_event_accepts_empty_title :
  nth 0 (fields (py " | 2025-08-20 19:30 | Cafe X")) (py "x") = [] /\
  exists db',
    create_event Scenario.alice Scenario.untitled empty_db
      = (db', Created 1) /\
    map title (rows db') = [[]] /\ db' <> empty_db.
Proof.
  split; [vm_compute; reflexivity|].
  eexists. split; [vm_compute; reflexivity|].
  split; [reflexivity | discriminate].
Qed.

(* ================================================================= *)
(** ** The scheduler *)

Section Scheduler.

Variable tr : Transport.
Variable now : Z.

(** What the loop hands to the sink: a fetched row whose threshold, as
    the loop computes it, is not after the scan. *)
Lemma remind_each_calls fetched db c :
  In c (snd (fst (remind_each tr now fetched db))) ->
  In (call_event c) fetched /\ call_at c = now /\
  call_result c = send tr (call_event c) /\
  is_messageable (channel_of tr (call_event c)) = true /\
  exists t, event_time_utc (call_event c) = Some t /\
            remind_at (call_event c) t <= now.
Proof.
  revert db. induction fetched as [|row rest IH]; intros db; simpl; [tauto|].
  assert (Hrest : forall d,
            In c (snd (fst (remind_each tr now rest d))) ->
            (row = call_event c \/ In (call_event c) rest) /\ call_at c = now /\
            call_result c = send tr (call_event c) /\
            is_messageable (channel_of tr (call_event c)) = true /\
            exists t, event_time_utc (call_event c) = Some t /\
                      remind_at (call_event c) t <= now).
  { intros d H. destruct (IH d H) as [H1 H2].
    split; [right; exact H1 | exact H2]. }
  destruct (event_time_utc row) as [t|] eqn:Ht; [|apply Hrest].
  destruct (remind_at_defined row t); [|intros []]. cbn [negb].
  destruct (remind_at row t <=? now) eqn:Hdue; [|apply Hrest].
  destruct (is_messageable (channel_of tr row)) eqn:Hch; [|apply Hrest].
  destruct (shown_defined t); [|intros []]. cbn [negb].
  apply Z.leb_le in Hdue.
  destruct (send tr row) eqn:Hsend.
  - specialize (Hrest (mark_reminded row db)).
    destruct (remind_each tr now rest (mark_reminded row db)) as [[d cl] o].
    simpl in *. intros [<-|H]; [|auto]. simpl.
    repeat split; auto. exists t. auto.
  - simpl. intros [<-|[]]. simpl. repeat split; auto. exists t. auto.
Qed.

Lemma marked_mark_reminded e row d :
  marked e d -> marked e (mark_reminded row d).
Proof.
  unfold marked, mark_reminded. apply update_by_id_Forall.
  intros r _ _ _ _. reflexivity.
Qed.

Lemma mark_reminded_marks row d : marked (id row) (mark_reminded row d).
Proof.
  unfold marked, mark_reminded, update_by_id. simpl.
  apply Forall_forall. intros r' Hr'. apply in_map_iff in Hr'.
  destruct Hr' as [r [<- _]]. destruct (id r =? id row) eqn:E.
  - reflexivity.
  - apply Z.eqb_neq in E. tauto.
Qed.

Lemma remind_each_marked e fetched db :
  marked e db -> marked e (fst (fst (remind_each tr now fetched db))).
Proof.
  apply remind_each_inv. intros row d. apply marked_mark_reminded.
Qed.

(** A cycle that runs through marks every fetched row that is due,
    whether its channel can be written to or not. *)
Lemma remind_each_completed_marks fetched db row t :
  snd (remind_each tr now fetched db) = Completed ->
  In row fetched -> event_time_utc row = Some t -> remind_at row t <= now ->
  marked (id row) (fst (fst (remind_each tr now fetched db))).
Proof.
  revert db. induction fetched as [|r rest IH]; intros db Hdone Hin Ht Hdue;
    [destruct Hin|].
  simpl in *.
  destruct Hin as [->|Hin].
  - rewrite Ht in *.
    destruct (remind_at_defined row t); [|discriminate]. cbn [negb] in *.
    apply Z.leb_le in Hdue. rewrite Hdue in *.
    destruct (is_messageable (channel_of tr row)).
    + destruct (shown_defined t); [|discriminate]. cbn [negb] in *.
      destruct (send tr row); [|discriminate].
      pose proof (remind_each_marked (id row) rest (mark_reminded row db)
                    (mark_reminded_marks row db)) as Hm.
      destruct (remind_each tr now rest (mark_reminded row db)) as [[d cl] o].
      exact Hm.
    + apply remind_each_marked, mark_reminded_marks.
  - destruct (event_time_utc r) as [t'|]; [|auto].
    destruct (remind_at_defined r t'); [|discriminate]. cbn [negb] in *.
    destruct (remind_at r t' <=? now); [|auto].
    destruct (is_messageable (channel_of tr r)); [|auto].
    destruct (shown_defined t'); [|discriminate]. cbn [negb] in *.
    destruct (send tr r); [|discriminate].
    specialize (IH (mark_reminded r db)).
    destruct (remind_each tr now rest (mark_reminded r db)) as [[d cl] o].
    simpl in *. auto.
Qed.

(** A send that raises ends the pass at that row: nothing is marked for
    it and the rows behind it are not looked at. *)
Lemma remind_each_raise row rest db t :
  event_time_utc row = Some t ->
  remind_at_defined row t = true -> shown_defined t = true ->
  remind_at row t <= now ->
  is_messageable (channel_of tr row) = true -> send tr row = SendRaised ->
  remind_each tr now (row :: rest) db
  = (db, [mkSinkCall row now SendRaised], Aborted).
Proof.
  intros Ht Hat Hshown Hdue Hch Hsend. simpl. apply Z.leb_le in Hdue.
  rewrite Ht, Hat, Hdue, Hch, Hshown, Hsend. reflexivity.
Qed.

(** A marked event is not fetched. *)
Lemma marked_not_candidate e db r :
  marked e db -> In r (candidates db) -> id r <> e.
Proof.
  unfold marked, candidates. intros Hm Hin Hid.
  apply filter_In in Hin. destruct Hin as [Hin Hc].
  rewrite Forall_forall in Hm. specialize (Hm r Hin Hid).
  unfold due_candidate in Hc. rewrite Hm in Hc.
  destruct (event_time_utc r); discriminate.
Qed.

Lemma calls_for_nil e calls :
  (forall c, In c calls -> id (call_event c) <> e) -> calls_for e calls = [].
Proof.
  induction calls as [|c calls IH]; intros H; [reflexivity|].
  simpl. assert (E : (id (call_event c) =? e) = false).
  { apply Z.eqb_neq. apply H. left. reflexivity. }
  rewrite E. apply IH. intros c' Hc'. apply H. right. assumption.
Qed.

(** A cycle does not call the sink for a marked event, and leaves it
    marked. *)
Lemma reminder_loop_marked e db :
  marked e db ->
  calls_for e (snd (fst (reminder_loop tr now db))) = [] /\
  marked e (fst (fst (reminder_loop tr now db))).
Proof.
  intros Hm. unfold reminder_loop. split.
  - apply calls_for_nil. intros c Hc. apply remind_each_calls in Hc.
    destruct Hc as [Hin _]. eapply marked_not_candidate; eassumption.
  - apply remind_each_marked, Hm.
Qed.

(** Within one pass over rows of distinct ids, at most one send for [e]
    goes through, and if one does the event is marked afterwards. *)
Lemma remind_each_delivered e fetched db :
  NoDup (map id fetched) ->
  (length (delivered e (snd (fst (remind_each tr now fetched db)))) <= 1)%nat /\
  (delivered e (snd (fst (remind_each tr now fetched db))) <> [] ->
   marked e (fst (fst (remind_each tr now fetched db)))).
Proof.
  revert db. induction fetched as [|row rest IH]; intros db Hnd; simpl.
  - split; [lia | intros H; destruct H; reflexivity].
  - inversion Hnd as [|x l Hnotin Hnd']; subst.
    assert (Hnone : (length (delivered e []) <= 1)%nat /\
                    (delivered e [] <> [] -> marked e db)).
    { split; [simpl; lia | intros H; destruct H; reflexivity]. }
    destruct (event_time_utc row) as [t|]; [|auto].
    destruct (remind_at_defined row t); [|exact Hnone]. cbn [negb].
    destruct (remind_at row t <=? now); [|auto].
    destruct (is_messageable (channel_of tr row)); [|auto].
    destruct (shown_defined t); [|exact Hnone]. cbn [negb].
    destruct (send tr row) eqn:Hsend.
    + specialize (IH (mark_reminded row db) Hnd').
      pose proof (remind_each_calls rest (mark_reminded row db)) as Hcalls.
      pose proof (remind_each_marked (id row) rest (mark_reminded row db)
                    (mark_reminded_marks row db)) as Hm.
      destruct (remind_each tr now rest (mark_reminded row db)) as [[d cl] o].
      simpl in *. unfold delivered in *. simpl.
      destruct (id row =? e) eqn:E.
      * apply Z.eqb_eq in E. subst e.
        rewrite (calls_for_nil (id row) cl).
        -- simpl. split; [lia | intros _; exact Hm].
        -- intros c Hc Hid. apply Hcalls in Hc. destruct Hc as [Hin _].
           apply Hnotin. rewrite <- Hid. apply in_map. exact Hin.
      * exact IH.
    + simpl. unfold delivered. simpl.
      destruct (id row =? e); simpl;
        (split; [lia | intros H; destruct H; reflexivity]).
Qed.

(** The fetched rows have distinct ids when the table has. *)
Lemma candidates_ids_distinct db :
  NoDup (map id (rows db)) -> NoDup (map id (candidates db)).
Proof.
  unfold candidates. generalize (rows db) as rs.
  induction rs as [|r rs IH]; simpl; intros Hnd; [constructor|].
  apply NoDup_cons_iff in Hnd. destruct Hnd as [Hfresh Hnd].
  destruct (due_candidate r); simpl; [|exact (IH Hnd)].
  apply NoDup_cons; [|exact (IH Hnd)].
  intros Hin. apply Hfresh. apply in_map_iff in Hin.
  destruct Hin as [r' [Hid Hr']]. apply filter_In in Hr'.
  apply in_map_iff. exists r'. tauto.
Qed.

Lemma mark_reminded_ids row d :
  map id (rows (mark_reminded row d)) = map id (rows d).
Proof.
  unfold mark_reminded, update_by_id. simpl. rewrite map_map.
  apply map_ext. intros r. destruct (id r =? id row); reflexivity.
Qed.

Lemma reminder_loop_ids db :
  map id (rows (fst (fst (reminder_loop tr now db)))) = map id (rows db).
Proof.
  unfold reminder_loop.
  apply (remind_each_inv (fun d => map id (rows d) = map id (rows db)));
    [|reflexivity].
  intros row d H. rewrite mark_reminded_ids. exact H.
Qed.

End Scheduler.

Section Cycles.

Lemma calls_for_app e a b :
  calls_for e (a ++ b) = calls_for e a ++ calls_for e b.
Proof. apply filter_app. Qed.

Lemma delivered_app e a b :
  delivered e (a ++ b) = delivered e a ++ delivered e b.
Proof. unfold delivered. rewrite calls_for_app. apply filter_app. Qed.

Lemma step_cycle_reply tr now db :
  snd (step (ReminderLoop tr now) db)
  = Scanned (snd (fst (reminder_loop tr now db)))
            (snd (reminder_loop tr now db)).
Proof.
  simpl. destruct (reminder_loop tr now db) as [[d calls] o]. reflexivity.
Qed.

(** Once an event is marked, no later cycle calls the sink for it. *)
Lemma run_cycles_marked e cs db :
  Forall is_cycle cs -> marked e db ->
  calls_for e (sink_calls (snd (run cs db))) = [].
Proof.
  revert db. induction cs as [|c cs IH]; intros db Hcs Hm; [reflexivity|].
  inversion Hcs as [|c' cs' Hc Hcs']; subst.
  destruct c; try contradiction.
  rewrite run_cons. cbn [snd]. rewrite step_cycle_reply, step_reminder_loop.
  cbn [sink_calls]. rewrite calls_for_app.
  destruct (reminder_loop_marked tr now_utc e db Hm) as [Hnil Hm'].
  rewrite Hnil. simpl. apply IH; assumption.
Qed.

(** Over any number of cycles, whatever the transport does in each, at
    most one send for an event goes through. *)
Lemma run_cycles_delivered_once e cs db :
  Forall is_cycle cs -> NoDup (map id (rows db)) ->
  (length (delivered e (sink_calls (snd (run cs db)))) <= 1)%nat.
Proof.
  revert db. induction cs as [|c cs IH]; intros db Hcs Hnd; [simpl; lia|].
  inversion Hcs as [|c' cs' Hc Hcs']; subst.
  destruct c; try contradiction.
  rewrite run_cons. cbn [snd]. rewrite step_cycle_reply, step_reminder_loop.
  cbn [sink_calls]. rewrite delivered_app, length_app.
  assert (Hnd' : NoDup (map id (rows (fst (fst
                   (reminder_loop tr now_utc db)))))).
  { rewrite reminder_loop_ids. exact Hnd. }
  specialize (IH _ Hcs' Hnd').
  unfold reminder_loop in *.
  destruct (remind_each_delivered tr now_utc e (candidates db) db
              (candidates_ids_distinct db Hnd)) as [Hle Hmk].
  destruct (delivered e (snd (fst (remind_each tr now_utc (candidates db) db))))
    as [|c1 l1] eqn:Hd.
  - simpl. exact IH.
  - assert (Hm : marked e (fst (fst
                    (remind_each tr now_utc (candidates db) db))))
      by (apply Hmk; discriminate).
    unfold delivered.
    rewrite (run_cycles_marked e cs _ Hcs' Hm). simpl in *. lia.
Qed.

(** The threshold the loop uses: never before the event time minus the
    stored minutes when these are not 0; minus thirty minutes when they
    are 0 or NULL. *)
Lemma reminder_loop_threshold tr now db c t :
  In c (snd (fst (reminder_loop tr now db))) ->
  event_time_utc (call_event c) = Some t ->
  call_at c = now /\
  match remind_minutes (call_event c) with
  | Some m => if m =? 0 then t - timedelta_minutes 30 <= now
              else t - timedelta_minutes m <= now
  | None => t - timedelta_minutes 30 <= now
  end.
Proof.
  intros Hc Ht. apply remind_each_calls in Hc.
  destruct Hc as [_ [Hat [_ [_ [t' [Ht' Hdue]]]]]].
  rewrite Ht in Ht'. inversion Ht'; subst t'. split; [exact Hat|].
  unfold remind_at, or_default in Hdue.
  destruct (remind_minutes (call_event c)) as [m|]; [|exact Hdue].
  destruct (m =? 0); exact Hdue.
Qed.

End Cycles.

(** C1 on the code: with the reminder set to 0 minutes the loop takes
    thirty minutes as the offset.  Alice creates the event for 19:30 and
    sets the reminder to 0, which [set_reminder] accepts; a cycle at
    19:00 hands the event to the sink, thirty minutes before the event
    time minus 0 minutes. *)
Lemma reminder_zero_offset_fires_early :
  let db := fst (run [SetReminder Scenario.alice 1 0] Scenario.db_alice) in
  let now := Scenario.game_time - timedelta_minutes 30 in
  exists row db' call,
    snd (set_reminder Scenario.alice 1 0 Scenario.db_alice) = ReminderSet 0 /\
    select_by_id 1 db = Some row /\
    event_time_utc row = Some Scenario.game_time /\
    remind_minutes row = Some 0 /\ reminded row = 0 /\
    reminder_loop Scenario.tr_ok now db = (db', [call], Completed) /\
    call_event call = row /\ call_result call = Sent /\
    call_at call < Scenario.game_time - timedelta_minutes 0.
Proof.
  eexists. eexists. eexists.
  split; [vm_compute; reflexivity|].
  repeat (split; [vm_compute; reflexivity|]).
  vm_compute. reflexivity.
Qed.

(** C7 on the code: a send that raises leaves the cycle before the
    UPDATE.  The due event of Alice is handed to a transport whose send
    raises: the cycle is aborted, the row keeps [reminded = 0], and the
    event is fetched again by the next cycle. *)
Lemma raised_send_leaves_event_unmarked :
  let now := Scenario.game_time in
  exists row call,
    select_by_id 1 Scenario.db_alice = Some row /\
    remind_at row Scenario.game_time <= now /\
    reminder_loop Scenario.tr_down now Scenario.db_alice
      = (Scenario.db_alice, [call], Aborted) /\
    call_event call = row /\ call_result call = SendRaised /\
    reminded row = 0 /\
    candidates
      (fst (fst (reminder_loop Scenario.tr_down now Scenario.db_alice)))
      = [row].
Proof.
  eexists. eexists.
  split; [vm_compute; reflexivity|].
  split; [vm_compute; discriminate|].
  split; [vm_compute; reflexivity|].
  repeat (split; [vm_compute; reflexivity|]).
  vm_compute. reflexivity.
Qed.

(** C6 on the code: with no command between the cycles, the sink is
    called twice for the same event when the first send raises. *)
Lemma raised_send_is_repeated :
  let cs := [ReminderLoop Scenario.tr_down Scenario.game_time;
             ReminderLoop Scenario.tr_ok (Scenario.game_time + minute)] in
  length (calls_for 1 (sink_calls (snd (run cs Scenario.db_alice)))) = 2%nat /\
  map call_result (calls_for 1 (sink_calls (snd (run cs Scenario.db_alice))))
    = [SendRaised; Sent].
Proof.
  split; vm_compute; reflexivity.
Qed.

(* ================================================================= *)
(** ** The scenarios of the specification *)

Module SpecScenarios.

Import Scenario.

(** Scenario A: the first event gets id 1, Alice is manager and sole
    participant. *)
Example scenario_A :
  snd (create_event alice board_game_night empty_db) = Created 1 /\
  select_by_id 1 db_alice = Some row_alice /\
  participants_of row_alice = [py "Alice"].
Proof. repeat split; vm_compute; reflexivity. Qed.

(** Scenario B: Bob joins twice; the second join is refused. *)
Example scenario_B :
  snd (run [JoinEvent bob 1; JoinEvent bob 1] db_alice)
    = [Joined; AlreadyMember] /\
  select_by_id 1 (fst (run [JoinEvent bob 1; JoinEvent bob 1] db_alice))
    = Some row_alice_bob /\
  participants_of row_alice_bob = [py "Alice"; py "Bob"].
Proof. repeat split; vm_compute; reflexivity. Qed.

(** Scenario C: Alice, the manager, leaves; the manager column becomes
    NULL. *)
Example scenario_C :
  leave_event alice 1 db_alice_bob
    = (update_by_id 1 (fun _ => row_bob) db_alice_bob, Left true) /\
  manager row_bob = None /\ participants_of row_bob = [py "Bob"].
Proof. repeat split; vm_compute; reflexivity. Qed.

(** Scenario D: reminder at 15 minutes, a cycle ten minutes before the
    event sends once, a later cycle sends nothing. *)
Example scenario_D :
  map (fun r => match r with Scanned calls _ => length calls | _ => 0%nat end)
      (snd (run [SetReminder alice 1 15;
                 ReminderLoop tr_ok (game_time - timedelta_minutes 10);
                 ReminderLoop tr_ok game_time] db_alice))
  = [0%nat; 1%nat; 0%nat].
Proof. vm_compute. reflexivity. Qed.

(** Scenario E: Carol is not a participant and cannot be made manager. *)
Example scenario_E :
  set_manager alice 1 (py "Carol") db_alice = (db_alice, NotAParticipant).
Proof. vm_compute. reflexivity. Qed.

(** Scenario F: a deleted event is not found. *)
Example scenario_F :
  select_by_id 1 (fst (delete_event alice 1 confirm db_alice)) = None.
Proof. vm_compute. reflexivity. Qed.

(** Times: the wall-clock text of the scenarios, and texts that
    [strptime] takes or refuses. *)
Example parse_game_time :
  parse_local_time (py "2025-08-20 19:30") = Some game_time.
Proof. vm_compute. reflexivity. Qed.

Example parse_short_fields :
  parse_local_time (py " 2025-8-2   7:5 ")
  = parse_local_time (py "2025-08-02 07:05").
Proof. vm_compute. reflexivity. Qed.

Example parse_refused :
  map parse_local_time
      [py "2025-02-29 19:30"; py "2025-08-20 19:60"; py "2025-08-20 24:00";
       py "2025-13-01 10:00"; py "2025-08-20 19:305"; py "20250820 1930";
       py "0000-01-01 00:00"]
  = [None; None; None; None; None; None; None].
Proof. vm_compute. reflexivity. Qed.

End SpecScenarios.

(* ================================================================= *)
(** ** The statements at work *)

Module Witness.

Import Scenario.

(** C5 at work: the event was notified; setting 15 minutes re-arms it,
    setting 2000 is refused. *)
Lemma set_reminder_rearms_witness :
  reminded row_notified = 1 /\
  (exists row',
     select_by_id 1 (fst (set_reminder alice 1 15 db_notified)) = Some row' /\
     reminded row' = 0) /\
  set_reminder alice 1 2000 db_notified = (db_notified, OutOfRange).
Proof.
  split; [reflexivity|].
  assert (Hsel : select_by_id 1 db_notified = Some row_notified)
    by (vm_compute; reflexivity).
  split.
  - destruct (set_reminder_rearms alice 1 15 db_notified row_notified Hsel)
      as [H _].
    destruct H as [_ [row' [H1 [H2 _]]]]; [lia|].
    exists row'. split; assumption.
  - destruct (set_reminder_rearms alice 1 2000 db_notified row_notified Hsel)
      as [_ H].
    apply H. right. lia.
Defined.

(** C9 at work: Alice, the manager, leaves the event she shares with
    Bob; Carol, who never joined, cannot leave. *)
Lemma leave_event_removes_name_witness :
  (exists row',
     select_by_id 1 (fst (leave_event alice 1 db_alice_bob)) = Some row' /\
     participants_of row' = [py "Bob"] /\ manager row' = None) /\
  leave_event carol 1 db_alice_bob = (db_alice_bob, NotMember).
Proof.
  assert (Hsel : select_by_id 1 db_alice_bob = Some row_alice_bob)
    by (vm_compute; reflexivity).
  split.
  - destruct (leave_event_removes_name alice 1 db_alice_bob row_alice_bob Hsel)
      as [H _].
    destruct H as [row' [H1 [_ [H2 [_ [_ [H3 _]]]]]]].
    + vm_compute. left. reflexivity.
    + exists row'. split; [exact H1|]. split; [rewrite H2; reflexivity|].
      apply H3. reflexivity.
  - destruct (leave_event_removes_name carol 1 db_alice_bob row_alice_bob Hsel)
      as [_ H].
    apply H. vm_compute. intros [H1|[H1|[]]]; discriminate.
Defined.

(** C8 at work: Alice creates an event and deletes it, then Bob creates
    one; the ids are 1 and 2 and the id 1 is not given again. *)
Lemma created_ids_increasing_never_reused_witness :
  StronglySorted Z.lt
    (created_ids
       (snd (run [CreateEvent alice board_game_night;
                  DeleteEvent alice 1 confirm;
                  CreateEvent bob film_night] empty_db))) /\
  ~ In 1 (created_ids
            (snd (run [CreateEvent bob film_night]
                    (fst (delete_event alice 1 confirm
                            (fst (run [CreateEvent alice board_game_night]
                                      empty_db))))))).
Proof.
  assert (Hb : ids_bounded empty_db) by constructor.
  destruct (created_ids_increasing_never_reused
              [CreateEvent alice board_game_night;
               DeleteEvent alice 1 confirm;
               CreateEvent bob film_night] empty_db Hb) as [Hs [_ Hd]].
  split; [exact Hs|].
  apply (Hd [CreateEvent alice board_game_night] alice 1 confirm
            [CreateEvent bob film_night]); reflexivity.
Defined.

(** I1 at work: Bob joins twice and Alice leaves. *)
Lemma participants_distinct_for_tidy_names_witness :
  NoDup (participants_of row_bob).
Proof.
  apply (participants_distinct_for_tidy_names alice board_game_night
           empty_db db_alice 1
           [JoinEvent bob 1; JoinEvent bob 1; LeaveEvent alice 1] row_bob).
  - reflexivity.
  - reflexivity.
  - repeat constructor.
  - vm_compute. reflexivity.
Defined.

(** I2 at work: Bob joins, becomes manager by [set_manager], and a
    member with a comma in the name joins as well. *)
Lemma manager_among_participants_for_tidy_proposer_witness :
  manager_ok
    (set_manager_col (Some (py "Bob"))
       (set_participants (Some (py "Alice, Bob, Smith, Alice")) row_alice)).
Proof.
  apply (manager_among_participants_for_tidy_proposer alice board_game_night
           empty_db db_alice 1
           [JoinEvent bob 1; SetManager alice 1 (py "Bob");
            JoinEvent smith_alice 1]).
  - reflexivity.
  - reflexivity.
  - vm_compute. reflexivity.
Defined.

(** C10 at work: "Smith, Alice" stored after "Bob" is read back as
    "Smith" and "Alice"; of the parts "a" and " " only one is not
    blank. *)
Lemma names_roundtrip_iff_clean_witness :
  names_to_list (Some (list_to_names [py "Bob"; py "Smith, Alice"]))
  = [py "Bob"; py "Smith"; py "Alice"] /\
  names_to_list (Some (list_to_names [py "Alice"; py "Bob"]))
  = [py "Alice"; py "Bob"] /\
  length (reread (py "a") ++ reread (py " ")) = 1%nat.
Proof.
  destruct names_roundtrip_iff_clean as [H1 [H2 [_ H4]]]. split; [|split].
  - destruct (H2 [py "Bob"] (py "Smith") (py " Alice") []) as [H _].
    + repeat constructor.
    + constructor.
    + exact H.
  - apply H1. repeat constructor.
  - rewrite (H4 (py "a") (py " ")).
    + reflexivity.
    + vm_compute. intros [H|[]]. discriminate.
    + vm_compute. intros [H|[]]. discriminate.
Defined.

(** C2 at work: the request without a title is stored; the one with a
    day that does not exist is refused; the one for the first minute of
    the year 1 raises. *)
Lemma create_event_validation_witness :
  (exists db' e row,
     create_event alice untitled empty_db = (db', Created e) /\
     select_by_id e db' = Some row /\ title row = []) /\
  create_event alice bad_time db_alice = (db_alice, BadTimeFormat) /\
  create_event alice year_one db_alice = (db_alice, Raised).
Proof.
  split; [|split].
  - destruct (create_event_validation alice untitled empty_db)
      as [_ [_ [_ [H _]]]].
    apply (H eq_refl (py " | 2025-08-20 19:30 | Cafe X")
             game_time eq_refl).
    + vm_compute. lia.
    + reflexivity.
    + vm_compute. reflexivity.
    + vm_compute. discriminate.
    + reflexivity.
    + vm_compute. reflexivity.
  - destruct (create_event_validation alice bad_time db_alice)
      as [_ [_ [H _]]].
    apply (H (py "Board Game Night | 2025-02-30 19:30 | Cafe X") eq_refl).
    + vm_compute. lia.
    + vm_compute. reflexivity.
  - destruct (create_event_validation alice year_one db_alice)
      as [_ [_ [_ [_ H]]]].
    apply (H eq_refl (py "New Year | 0001-01-01 00:00 | Cafe X")
             (datetime_min - TAIPEI) eq_refl).
    + vm_compute. lia.
    + vm_compute. reflexivity.
    + vm_compute. reflexivity.
Defined.

End Witness.

(* ================================================================= *)
(** ** Beyond the claims: what one command does to the table *)

Section Frames.

Lemma select_delete_other e e' db :
  e' <> e -> select_by_id e' (delete_by_id e db) = select_by_id e' db.
Proof.
  intros Hne. unfold select_by_id, delete_by_id. simpl.
  induction (rows db) as [|r rs IH]; simpl; [reflexivity|].
  destruct (id r =? e) eqn:E; simpl.
  - apply Z.eqb_eq in E.
    assert (E' : (id r =? e') = false) by (apply Z.eqb_neq; lia).
    rewrite E'. exact IH.
  - destruct (id r =? e'); [reflexivity | exact IH].
Qed.

Lemma select_delete_same e db : select_by_id e (delete_by_id e db) = None.
Proof.
  unfold select_by_id, delete_by_id. simpl.
  induction (rows db) as [|r rs IH]; simpl; [reflexivity|].
  destruct (id r =? e) eqn:E; simpl; [exact IH|]. rewrite E. exact IH.
Qed.

(** What a successful [create_event] was given and what it inserted. *)
Lemma create_event_success ctx payload db db' e :
  create_event ctx payload db = (db', Created e) ->
  exists p t,
    payload = Some p /\ (3 <= length (fields p))%nat /\
    parse_local_time (nth 1 (fields p) []) = Some t /\
    insert (new_row ctx (nth 0 (fields p) [])
              (if (4 <=? length (fields p))%nat then nth 3 (fields p) []
               else [])
              (nth 2 (fields p) []) t) db = Some (db', e) /\
    in_datetime t = true /\ bindable (ctx_channel_id ctx) = true /\
    is_messageable (Some (ctx_channel ctx)) = true.
Proof.
  unfold create_event. cbv zeta. fold bar.
  destruct (is_messageable (Some (ctx_channel ctx))) eqn:Hch; [|discriminate].
  cbn [negb].
  destruct payload as [p|]; [|discriminate].
  destruct (negb (truthy p)); [discriminate|]. fold (fields p).
  destruct (length (fields p) <? 3)%nat eqn:Hlen; [discriminate|].
  apply Nat.ltb_ge in Hlen.
  destruct (parse_local_time (nth 1 (fields p) [])) as [t|] eqn:Hp;
    [|discriminate].
  destruct (in_datetime t) eqn:Hdt; [|discriminate].
  destruct (bindable (ctx_channel_id ctx)) eqn:Hb; [|discriminate]. cbn [negb].
  match goal with
  | |- context [insert ?mk db] => destruct (insert mk db) as [[d i]|] eqn:Hins
  end; [|discriminate].
  intros H. inversion H; subst. exists p, t.
  repeat split; auto.
Qed.

Lemma nth_fields_trimmed p n :
  strip (nth n (fields p) []) = nth n (fields p) [] /\
  ~ In bar (nth n (fields p) []).
Proof.
  destruct (nth_in_or_default n (fields p) []) as [Hin|Hd].
  - unfold fields in *. apply in_map_iff in Hin.
    destruct Hin as [x [Hx Hin]]. rewrite <- Hx. split.
    + apply strip_idempotent.
    + intros Hb. apply strip_incl in Hb.
      pose proof (split_pieces_no_sep bar p) as Hf.
      rewrite Forall_forall in Hf. exact (Hf x Hin Hb).
  - rewrite Hd. split; [reflexivity | intros []].
Qed.

End Frames.

(** X1: a successful [create_event] returns an id above every id in the
    table and above the counter, appends one row and leaves every
    existing event as it was.  The new row has the caller as proposer
    and manager, the caller's name as stored participants, thirty
    minutes, the flag down, the instant parsed from the second field,
    and title and place equal to the first and third field, trimmed and
    free of bars. *)
Theorem create_event_postcondition
    (ctx : Ctx) (payload : option str) (db db' : DB) (e : Z) :
  create_event ctx payload db = (db', Created e) ->
  (forall r, In r (rows db) -> id r < e) /\
  sqlite_seq db < e /\ sqlite_seq db' = e /\
  (forall e' r, select_by_id e' db = Some r -> select_by_id e' db' = Some r) /\
  exists row p,
    payload = Some p /\
    rows db' = rows db ++ [row] /\ select_by_id e db' = Some row /\
    id row = e /\ channel_id row = Some (ctx_channel_id ctx) /\
    proposer row = display_name ctx /\
    manager row = Some (display_name ctx) /\
    participants_of row = reread (display_name ctx) /\
    remind_minutes row = Some 30 /\ reminded row = 0 /\
    event_time_utc row = parse_local_time (nth 1 (fields p) []) /\
    title row = nth 0 (fields p) [] /\ location row = nth 2 (fields p) [] /\
    strip (title row) = title row /\ ~ In bar (title row) /\
    strip (location row) = location row /\ ~ In bar (location row).
Proof.
  intros Hc.
  destruct (create_event_success _ _ _ _ _ Hc)
    as [p [t [Hp [Hlen [Ht [Hins _]]]]]].
  pose proof (insert_spec _ _ _ _ Hins) as [He [Hr Hs]].
  split; [|split; [|split; [|split]]].
  - intros r Hin. pose proof (max_id_ge _ _ Hin). lia.
  - lia.
  - exact Hs.
  - intros e' r Hsel.
    match type of Hins with
    | insert ?mk _ = _ =>
        rewrite (select_insert_other mk db db' e e' (fun i => eq_refl) Hins)
    end; [exact Hsel|].
    intros ->. pose proof (select_by_id_In _ _ _ Hsel) as Hin.
    pose proof (select_by_id_id _ _ _ Hsel) as Hid.
    pose proof (max_id_ge _ _ Hin). lia.
  - eexists. exists p. split; [exact Hp|]. split; [exact Hr|].
    split.
    { match type of Hins with
      | insert ?mk _ = _ =>
          exact (select_insert_new mk db db' e (fun i => eq_refl) Hins)
      end. }
    cbn [id channel_id proposer manager remind_minutes reminded
         event_time_utc title location new_row].
    rewrite participants_of_new_row, Ht.
    destruct (nth_fields_trimmed p 0) as [H0 H0'].
    destruct (nth_fields_trimmed p 2) as [H2 H2'].
    repeat split; auto.
Qed.

(** X1 at work: Bob creates a second event in the store of Alice. *)
Lemma create_event_postcondition_witness :
  sqlite_seq Scenario.db_alice < 2 /\
  select_by_id 1 (fst (create_event Scenario.bob Scenario.film_night
                         Scenario.db_alice)) = Some Scenario.row_alice.
Proof.
  destruct (create_event_postcondition Scenario.bob Scenario.film_night
              Scenario.db_alice
              (fst (create_event Scenario.bob Scenario.film_night
                      Scenario.db_alice)) 2)
    as [_ [H1 [_ [H2 _]]]].
  - vm_compute. reflexivity.
  - split; [exact H1|]. apply H2. vm_compute. reflexivity.
Defined.

Section Membership.

Variable ctx : Ctx.

(** What a join stores for the row found. *)
Lemma join_event_stored e db row :
  select_by_id e db = Some row ->
  ~ In (display_name ctx) (participants_of row) ->
  join_event ctx e db
  = (update_by_id e
       (set_participants
          (Some (list_to_names (participants_of row ++ [display_name ctx]))))
       db, Joined).
Proof.
  intros Hsel Hnot. unfold join_event. rewrite Hsel.
  apply mem_not_In in Hnot. unfold participants_of in *. rewrite Hnot.
  reflexivity.
Qed.

End Membership.

(** X2: a member with a clean name who is not yet in the event joins at
    the end of the list, manager and the other columns untouched, and
    joining again is refused with the store unchanged; a member already
    listed is refused at once.  An id that no row has is answered with
    not-found when it is an integer of 64 bits; for any other the
    handler raises, and the store is unchanged either way. *)
Theorem join_event_once (ctx : Ctx) (e : Z) (db : DB) :
  (select_by_id e db = None ->
   join_event ctx e db = (db, if bindable e then NotFound else Raised)) /\
  (forall row, select_by_id e db = Some row ->
     In (display_name ctx) (participants_of row) ->
     join_event ctx e db = (db, AlreadyMember)) /\
  (forall row, select_by_id e db = Some row ->
     clean (display_name ctx) = true ->
     ~ In (display_name ctx) (participants_of row) ->
     exists db' row',
       join_event ctx e db = (db', Joined) /\
       select_by_id e db' = Some row' /\
       participants_of row' = participants_of row ++ [display_name ctx] /\
       row' = set_participants (participants row') row /\
       join_event ctx e db' = (db', AlreadyMember)).
Proof.
  split; [|split].
  - intros Hsel. unfold join_event. rewrite Hsel. reflexivity.
  - intros row Hsel Hin. unfold join_event. rewrite Hsel.
    apply mem_In in Hin. unfold participants_of in Hin. rewrite Hin.
    reflexivity.
  - intros row Hsel Hclean Hnot.
    rewrite (join_event_stored ctx e db row Hsel Hnot).
    eexists. eexists. split; [reflexivity|].
    assert (Hsel' : select_by_id e
              (update_by_id e
                 (set_participants
                    (Some (list_to_names
                             (participants_of row ++ [display_name ctx]))))
                 db)
            = Some (set_participants
                      (Some (list_to_names
                               (participants_of row ++ [display_name ctx])))
                      row)).
    { rewrite select_update_same by reflexivity. rewrite Hsel. reflexivity. }
    assert (Hparts : participants_of
              (set_participants
                 (Some (list_to_names
                          (participants_of row ++ [display_name ctx]))) row)
            = participants_of row ++ [display_name ctx]).
    { unfold participants_of. cbn [participants set_participants].
      rewrite names_to_list_append, (reread_clean _ Hclean). reflexivity. }
    split; [exact Hsel'|]. split; [exact Hparts|]. split; [reflexivity|].
    unfold join_event at 1. rewrite Hsel'.
    fold (participants_of
            (set_participants
               (Some (list_to_names
                        (participants_of row ++ [display_name ctx]))) row)).
    rewrite Hparts.
    assert (Hm : mem (display_name ctx)
                   (participants_of row ++ [display_name ctx]) = true).
    { apply mem_In, in_or_app. right. left. reflexivity. }
    rewrite Hm. reflexivity.
Qed.

(** X2 at work: Bob joins the event of Alice; there is no event 7, and
    2^63 is no id at all. *)
Lemma join_event_once_witness :
  (exists db' row',
     join_event Scenario.bob 1 Scenario.db_alice = (db', Joined) /\
     select_by_id 1 db' = Some row' /\
     participants_of row' = [py "Alice"; py "Bob"] /\
     join_event Scenario.bob 1 db' = (db', AlreadyMember)) /\
  join_event Scenario.bob 7 Scenario.db_alice
    = (Scenario.db_alice, NotFound) /\
  join_event Scenario.bob (2 ^ 63) Scenario.db_alice
    = (Scenario.db_alice, Raised).
Proof.
  split; [|split].
  - destruct (join_event_once Scenario.bob 1 Scenario.db_alice) as [_ [_ H]].
    destruct (H Scenario.row_alice) as [db' [row' [H1 [H2 [H3 [_ H5]]]]]].
    + vm_compute. reflexivity.
    + reflexivity.
    + vm_compute. intros [H0|[]]. discriminate.
    + exists db', row'. repeat split; assumption.
  - destruct (join_event_once Scenario.bob 7 Scenario.db_alice) as [H _].
    apply H. vm_compute. reflexivity.
  - destruct (join_event_once Scenario.bob (2 ^ 63) Scenario.db_alice)
      as [H _].
    apply H. vm_compute. reflexivity.
Defined.

(** X3: joining and leaving again gives back the participants the
    event had, for a member with a clean name who was not in it; the
    manager is as before, or NULL if that name was stored as manager. *)
Theorem join_then_leave_restores
    (ctx : Ctx) (e : Z) (db : DB) (row : Row) :
  select_by_id e db = Some row ->
  clean (display_name ctx) = true ->
  ~ In (display_name ctx) (participants_of row) ->
  exists row'',
    select_by_id e (fst (leave_event ctx e (fst (join_event ctx e db))))
      = Some row'' /\
    participants_of row'' = participants_of row /\
    manager row''
      = (if is_manager (display_name ctx) (manager row) then None
         else manager row) /\
    same_event row row'' /\ note row'' = note row /\
    remind_minutes row'' = remind_minutes row /\ reminded row'' = reminded row.
Proof.
  intros Hsel Hclean Hnot.
  rewrite (join_event_stored ctx e db row Hsel Hnot). cbn [fst].
  set (row' := set_participants
                 (Some (list_to_names
                          (participants_of row ++ [display_name ctx]))) row).
  assert (Hsel' : select_by_id e
            (update_by_id e
               (set_participants
                  (Some (list_to_names
                           (participants_of row ++ [display_name ctx]))))
               db) = Some row').
  { rewrite select_update_same by reflexivity. rewrite Hsel. reflexivity. }
  assert (Hparts : names_to_list (participants row')
                   = participants_of row ++ [display_name ctx]).
  { subst row'. cbn [participants set_participants]. unfold participants_of.
    rewrite names_to_list_append, (reread_clean _ Hclean). reflexivity. }
  unfold leave_event. rewrite Hsel', Hparts.
  assert (Hm : mem (display_name ctx)
                 (participants_of row ++ [display_name ctx]) = true).
  { apply mem_In, in_or_app. right. left. reflexivity. }
  rewrite Hm. cbn [negb fst].
  rewrite select_update_same by reflexivity. rewrite Hsel'. cbn [option_map].
  eexists. split; [reflexivity|].
  unfold participants_of at 1.
  cbn [participants manager set_manager_col set_participants].
  split.
  - rewrite <- Hparts. rewrite names_to_list_filter. rewrite Hparts.
    rewrite filter_app. simpl. rewrite eqb_refl. simpl. rewrite app_nil_r.
    apply forallb_filter_id. apply forallb_forall. intros x Hx.
    apply negb_true_iff, eqb_neq. intros ->. contradiction.
  - subst row'. cbn [manager set_participants]. split; [reflexivity|].
    repeat split; reflexivity.
Qed.

(** X3 at work: Bob joins the event of Alice and leaves it again. *)
Lemma join_then_leave_restores_witness :
  exists row'',
    select_by_id 1
      (fst (leave_event Scenario.bob 1
              (fst (join_event Scenario.bob 1 Scenario.db_alice))))
      = Some row'' /\
    participants_of row'' = [py "Alice"] /\
    manager row'' = Some (py "Alice").
Proof.
  destruct (join_then_leave_restores Scenario.bob 1 Scenario.db_alice
              Scenario.row_alice) as [row'' [H1 [H2 [H3 _]]]].
  - vm_compute. reflexivity.
  - reflexivity.
  - vm_compute. intros [H0|[]]. discriminate.
  - exists row''. split; [exact H1|]. split; [exact H2 | exact H3].
Defined.

Section Managers.

Lemma confirmed_spec c : confirmed c = true <-> c = Some (py "confirm").
Proof.
  destruct c as [c|]; simpl.
  - rewrite eqb_eq. split; congruence.
  - split; discriminate.
Qed.

Lemma may_delete_spec ctx p row :
  may_delete ctx p row = true <->
  display_name ctx = proposer row \/ manager row = Some (display_name ctx) \/
  manage_guild p = true \/ administrator p = true.
Proof.
  unfold may_delete. rewrite !orb_true_iff, eqb_eq, is_manager_spec. tauto.
Qed.

Lemma delete_event_found ctx e confirm db row :
  select_by_id e db = Some row ->
  delete_event ctx e confirm db
  = match guild_permissions ctx with
    | None => (db, Raised)
    | Some p =>
        if negb (may_delete ctx p row) then (db, Denied)
        else if negb (confirmed confirm) then (db, NeedConfirm)
        else (delete_by_id e db, Deleted)
    end.
Proof.
  intros Hsel. unfold delete_event, may_delete. rewrite Hsel.
  destruct (guild_permissions ctx) as [p|]; [|reflexivity].
  rewrite <- !orb_assoc. reflexivity.
Qed.

End Managers.

(** X4: [delete_event] deletes only for a caller with guild permissions
    who is the proposer, the manager or holds one of the two permissions
    read, and only with the word confirm; then the event is gone, every
    other event and the counter are as before.  In every other case the
    store is unchanged.  For a caller without guild permissions, as in a
    direct message, the handler raises on an existing event, whoever the
    caller is. *)
Theorem delete_event_authorised
    (ctx : Ctx) (e : Z) (confirm : option str) (db : DB) :
  (snd (delete_event ctx e confirm db) = Deleted <->
   exists row p,
     select_by_id e db = Some row /\ guild_permissions ctx = Some p /\
     (display_name ctx = proposer row \/
      manager row = Some (display_name ctx) \/
      manage_guild p = true \/ administrator p = true) /\
     confirm = Some (py "confirm")) /\
  (snd (delete_event ctx e confirm db) <> Deleted ->
   fst (delete_event ctx e confirm db) = db) /\
  (snd (delete_event ctx e confirm db) = Deleted ->
   select_by_id e (fst (delete_event ctx e confirm db)) = None /\
   sqlite_seq (fst (delete_event ctx e confirm db)) = sqlite_seq db /\
   forall e', e' <> e ->
     select_by_id e' (fst (delete_event ctx e confirm db))
     = select_by_id e' db) /\
  (forall row, select_by_id e db = Some row ->
     guild_permissions ctx = None ->
     delete_event ctx e confirm db = (db, Raised)).
Proof.
  destruct (select_by_id e db) as [row|] eqn:Hsel.
  - rewrite (delete_event_found ctx e confirm db row Hsel).
    destruct (guild_permissions ctx) as [p|] eqn:Hperm.
    + pose proof (may_delete_spec ctx p row) as Hmay.
      pose proof (confirmed_spec confirm) as Hconf.
      destruct (may_delete ctx p row); simpl.
      * destruct (confirmed confirm); simpl.
        -- split; [|split; [|split]].
           ++ split; [intros _|reflexivity].
              exists row, p. split; [reflexivity|]. split; [reflexivity|].
              split; [|]; tauto.
           ++ intros H. contradiction.
           ++ intros _. split; [apply select_delete_same|].
              split; [reflexivity|]. intros e' Hne.
              apply select_delete_other. exact Hne.
           ++ intros r _ H. discriminate.
        -- split; [|split; [|split]]; try discriminate; try reflexivity.
           split; [discriminate|]. intros [r [q [_ [_ [_ Hc]]]]].
           apply Hconf in Hc. discriminate.
      * split; [|split; [|split]]; try discriminate; try reflexivity.
        split; [discriminate|]. intros [r [q [Hr [Hq [Ha _]]]]].
        inversion Hr; subst r. inversion Hq; subst q.
        apply Hmay in Ha. discriminate.
    + split; [|split; [|split]]; try discriminate; try reflexivity.
      split; [discriminate|]. intros [r [q [_ [Hq _]]]]. discriminate.
  - unfold delete_event, no_row. rewrite Hsel.
    split; [|split; [|split]]; try discriminate; try reflexivity.
    + split; [destruct (bindable e); discriminate|].
      intros [r [q [Hr _]]]. discriminate.
    + intros H. destruct (bindable e); discriminate.
Qed.

(** X4 at work: Bob, who merely joined, is denied; Alice without the
    word is asked for it; Alice with the word deletes; Alice writing in
    a direct message, where she has no guild permissions, raises. *)
Lemma delete_event_authorised_witness :
  delete_event Scenario.bob 1 Scenario.confirm Scenario.db_alice_bob
    = (Scenario.db_alice_bob, Denied) /\
  fst (delete_event Scenario.alice 1 None Scenario.db_alice_bob)
    = Scenario.db_alice_bob /\
  select_by_id 1
    (fst (delete_event Scenario.alice 1 Scenario.confirm
            Scenario.db_alice_bob)) = None /\
  delete_event Scenario.alice_dm 1 Scenario.confirm Scenario.db_alice_bob
    = (Scenario.db_alice_bob, Raised).
Proof.
  split; [vm_compute; reflexivity|]. split; [|split].
  - destruct (delete_event_authorised Scenario.alice 1 None
                Scenario.db_alice_bob) as [_ [H _]].
    apply H. vm_compute. discriminate.
  - destruct (delete_event_authorised Scenario.alice 1 Scenario.confirm
                Scenario.db_alice_bob) as [_ [_ [H _]]].
    apply H. vm_compute. reflexivity.
  - destruct (delete_event_authorised Scenario.alice_dm 1 Scenario.confirm
                Scenario.db_alice_bob) as [_ [_ [_ H]]].
    apply (H Scenario.row_alice_bob); reflexivity.
Defined.

(** X5: [set_manager] succeeds exactly for a name among the
    participants and then writes only the manager column; a member of
    the guild with that name may from then on delete the event with the
    word confirm, whatever their permissions.  For any other name the
    store is unchanged. *)
Theorem set_manager_then_may_delete
    (ctx : Ctx) (e : Z) (who : str) (db : DB) (row : Row) :
  select_by_id e db = Some row ->
  (In who (participants_of row) ->
   set_manager ctx e who db
     = (update_by_id e (set_manager_col (Some who)) db, ManagerSet who) /\
   select_by_id e (fst (set_manager ctx e who db))
     = Some (set_manager_col (Some who) row) /\
   forall ctx' p,
     display_name ctx' = who -> guild_permissions ctx' = Some p ->
     snd (delete_event ctx' e (Some (py "confirm"))
            (fst (set_manager ctx e who db))) = Deleted) /\
  (~ In who (participants_of row) ->
   set_manager ctx e who db = (db, NotAParticipant)).
Proof.
  intros Hsel. unfold set_manager. rewrite Hsel.
  fold (participants_of row). split.
  - intros Hin. apply mem_In in Hin. rewrite Hin. cbn [negb fst].
    assert (Hsel' : select_by_id e
                      (update_by_id e (set_manager_col (Some who)) db)
                    = Some (set_manager_col (Some who) row)).
    { rewrite select_update_same by reflexivity. rewrite Hsel. reflexivity. }
    split; [reflexivity|]. split; [exact Hsel'|].
    intros ctx' p Hname Hperm.
    rewrite (delete_event_found ctx' e _ _ _ Hsel'), Hperm.
    assert (Hmay : may_delete ctx' p (set_manager_col (Some who) row) = true).
    { apply may_delete_spec. right. left. rewrite Hname. reflexivity. }
    rewrite Hmay. reflexivity.
  - intros Hnot. apply mem_not_In in Hnot. rewrite Hnot. reflexivity.
Qed.

(** X5 at work: Alice names Bob, who can then delete; Carol cannot be
    named. *)
Lemma set_manager_then_may_delete_witness :
  snd (delete_event Scenario.bob 1 (Some (py "confirm"))
         (fst (set_manager Scenario.alice 1 (py "Bob")
                 Scenario.db_alice_bob))) = Deleted /\
  set_manager Scenario.alice 1 (py "Carol") Scenario.db_alice_bob
    = (Scenario.db_alice_bob, NotAParticipant).
Proof.
  assert (Hsel : select_by_id 1 Scenario.db_alice_bob
                 = Some Scenario.row_alice_bob) by (vm_compute; reflexivity).
  split.
  - destruct (set_manager_then_may_delete Scenario.alice 1 (py "Bob")
                Scenario.db_alice_bob Scenario.row_alice_bob Hsel)
      as [H _].
    destruct H as [_ [_ H]].
    + vm_compute. right. left. reflexivity.
    + apply (H Scenario.bob (mkPermissions false false)); reflexivity.
  - destruct (set_manager_then_may_delete Scenario.alice 1 (py "Carol")
                Scenario.db_alice_bob Scenario.row_alice_bob Hsel)
      as [_ H].
    apply H. vm_compute. intros [H0|[H0|[]]]; discriminate.
Defined.

Section Updates.

(** Two UPDATEs of the same event in a row are one UPDATE with the
    composed setter. *)
Lemma update_update e f g db :
  (forall r, id (f r) = id r) ->
  update_by_id e g (update_by_id e f db)
  = update_by_id e (fun r => g (f r)) db.
Proof.
  intros Hf. unfold update_by_id. simpl. f_equal. rewrite map_map.
  apply map_ext. intros r. destruct (id r =? e) eqn:E.
  - rewrite Hf, E. reflexivity.
  - rewrite E. reflexivity.
Qed.

End Updates.

(** X6: [add_note] overwrites: the note of the event is the text given,
    nothing else of the event changes, no other event changes, and of
    two notes in a row only the second one counts.  An id that no row
    has is answered with not-found when it is an integer of 64 bits;
    for any other the handler raises; the store is unchanged either
    way. *)
Theorem add_note_overwrites (ctx : Ctx) (e : Z) (text : str) (db : DB) :
  (select_by_id e db = None ->
   add_note ctx e text db = (db, if bindable e then NotFound else Raised)) /\
  (forall row, select_by_id e db = Some row ->
     select_by_id e (fst (add_note ctx e text db)) = Some (set_note text row) /\
     (forall e', e' <> e ->
        select_by_id e' (fst (add_note ctx e text db)) = select_by_id e' db) /\
     forall ctx' earlier,
       fst (add_note ctx e text (fst (add_note ctx' e earlier db)))
       = fst (add_note ctx e text db)).
Proof.
  split.
  - intros Hsel. unfold add_note. rewrite Hsel. reflexivity.
  - intros row Hsel. unfold add_note. rewrite Hsel. cbn [fst].
    split; [|split].
    + rewrite select_update_same by reflexivity. rewrite Hsel. reflexivity.
    + intros e' Hne. apply select_update_other; [reflexivity | exact Hne].
    + intros ctx' earlier.
      rewrite select_update_same by reflexivity. rewrite Hsel.
      cbn [option_map fst].
      rewrite update_update by reflexivity. reflexivity.
Qed.

(** X6 at work: two notes on the event of Alice; a note for an id
    below the 64 bits. *)
Lemma add_note_overwrites_witness :
  select_by_id 1
    (fst (add_note Scenario.bob 1 (py "bring dice")
            (fst (add_note Scenario.alice 1 (py "bring cards")
                    Scenario.db_alice))))
  = Some (set_note (py "bring dice") Scenario.row_alice) /\
  add_note Scenario.bob (- 2 ^ 63 - 1) (py "bring dice") Scenario.db_alice
  = (Scenario.db_alice, Raised).
Proof.
  split.
  - destruct (add_note_overwrites Scenario.bob 1 (py "bring dice")
                Scenario.db_alice) as [_ H].
    destruct (H Scenario.row_alice) as [H1 [_ H3]].
    + vm_compute. reflexivity.
    + rewrite (H3 Scenario.alice (py "bring cards")). exact H1.
  - destruct (add_note_overwrites Scenario.bob (- 2 ^ 63 - 1)
                (py "bring dice") Scenario.db_alice) as [H _].
    apply H. vm_compute. reflexivity.
Defined.

(** X7: whatever number the random source draws, [random_manager] makes
    one of the current participants manager and writes nothing else;
    with a single participant it is that one.  With no participants,
    without an id or with an id that no row has the store is unchanged;
    such an id is answered with not-found when it is an integer of 64
    bits, and for any other the handler raises. *)
Theorem random_manager_draws_participant
    (ctx : Ctx) (e : Z) (r : nat) (db : DB) :
  random_manager ctx None r db = (db, NeedEventId) /\
  (select_by_id e db = None ->
   random_manager ctx (Some e) r db
   = (db, if bindable e then NotFound else Raised)) /\
  (forall row, select_by_id e db = Some row ->
     (participants_of row = [] ->
      random_manager ctx (Some e) r db = (db, NoParticipants)) /\
     (participants_of row <> [] ->
      exists who,
        In who (participants_of row) /\
        snd (random_manager ctx (Some e) r db) = ManagerDrawn who /\
        select_by_id e (fst (random_manager ctx (Some e) r db))
          = Some (set_manager_col (Some who) row) /\
        (forall x, participants_of row = [x] -> who = x))).
Proof.
  split; [reflexivity|]. split.
  - intros Hsel. unfold random_manager. rewrite Hsel. reflexivity.
  - intros row Hsel. unfold random_manager. rewrite Hsel.
    fold (participants_of row).
    destruct (participants_of row) as [|x l] eqn:Hparts.
    + split; [reflexivity | intros H; contradiction].
    + split; [discriminate|]. intros _.
      exists (choice r (x :: l)). split; [apply choice_In|].
      split; [reflexivity|]. cbn [fst]. split.
      * rewrite select_update_same by reflexivity. rewrite Hsel. reflexivity.
      * intros y Hy. inversion Hy; subst. unfold choice. cbn [length].
        rewrite Nat.mod_1_r. reflexivity.
Qed.

(** X7 at work: a draw among Alice and Bob, a draw in an event that
    only Alice is in, and a draw for an id that is no event. *)
Lemma random_manager_draws_participant_witness :
  (exists who,
     In who [py "Alice"; py "Bob"] /\
     snd (random_manager Scenario.carol (Some 1) 7 Scenario.db_alice_bob)
       = ManagerDrawn who) /\
  snd (random_manager Scenario.carol (Some 1) 7 Scenario.db_alice)
    = ManagerDrawn (py "Alice") /\
  random_manager Scenario.carol (Some 5) 7 Scenario.db_alice
    = (Scenario.db_alice, NotFound).
Proof.
  split; [|split].
  3: { destruct (random_manager_draws_participant Scenario.carol 5 7
                   Scenario.db_alice) as [_ [H _]].
       apply H. vm_compute. reflexivity. }
  - destruct (random_manager_draws_participant Scenario.carol 1 7
                Scenario.db_alice_bob) as [_ [_ H]].
    destruct (H Scenario.row_alice_bob) as [_ H'].
    + vm_compute. reflexivity.
    + destruct H' as [who [H1 [H2 _]]]; [vm_compute; discriminate|].
      exists who. split; [exact H1 | exact H2].
  - destruct (random_manager_draws_participant Scenario.carol 1 7
                Scenario.db_alice) as [_ [_ H]].
    destruct (H Scenario.row_alice) as [_ H'].
    + vm_compute. reflexivity.
    + destruct H' as [who [_ [H2 [_ H4]]]]; [vm_compute; discriminate|].
      rewrite H2. f_equal. apply H4. reflexivity.
Defined.

(** X8: a command that names an event leaves every other event, and
    the counter, as they were. *)
Theorem command_touches_only_its_event (c : Cmd) (e e' : Z) (db : DB) :
  target c = Some e -> e' <> e ->
  select_by_id e' (fst (step c db)) = select_by_id e' db /\
  sqlite_seq (fst (step c db)) = sqlite_seq db.
Proof.
  intros Ht Hne.
  destruct c; simpl in Ht; try discriminate; inversion Ht; subst; simpl.
  - unfold join_event. destruct (select_by_id e db); [|auto].
    destruct (mem _ _); [auto|]. cbn [fst].
    split; [apply select_update_other; auto | reflexivity].
  - unfold leave_event. destruct (select_by_id e db); [|auto].
    destruct (negb (mem _ _)); [auto|]. cbn [fst].
    split; [apply select_update_other; auto | reflexivity].
  - unfold set_manager. destruct (select_by_id e db); [|auto].
    destruct (negb (mem _ _)); [auto|]. cbn [fst].
    split; [apply select_update_other; auto | reflexivity].
  - unfold random_manager. destruct (select_by_id e db); [|auto].
    destruct (names_to_list _); [auto|]. cbn [fst].
    split; [apply select_update_other; auto | reflexivity].
  - unfold add_note. destruct (select_by_id e db); [|auto]. cbn [fst].
    split; [apply select_update_other; auto | reflexivity].
  - unfold set_reminder. destruct (_ || _); [auto|].
    destruct (select_by_id e db); [|auto]. cbn [fst].
    split; [apply select_update_other; auto | reflexivity].
  - unfold delete_event. destruct (select_by_id e db); [|auto].
    destruct (guild_permissions ctx); [|auto].
    destruct (negb _); [auto|]. destruct (negb _); [auto|]. cbn [fst].
    split; [apply select_delete_other; auto | reflexivity].
Qed.

(** X8 at work: Bob leaves the second event; the first one stays. *)
Lemma command_touches_only_its_event_witness :
  select_by_id 1
    (fst (step (LeaveEvent Scenario.bob 2)
            (fst (create_event Scenario.bob Scenario.film_night
                    Scenario.db_alice))))
  = Some Scenario.row_alice.
Proof.
  destruct (command_touches_only_its_event (LeaveEvent Scenario.bob 2) 2 1
              (fst (create_event Scenario.bob Scenario.film_night
                      Scenario.db_alice))) as [H _].
  - reflexivity.
  - lia.
  - rewrite H. vm_compute. reflexivity.
Defined.

(* ================================================================= *)
(** ** Beyond the claims: what no run of commands does *)

Section Closure.

Variable P : Row -> Prop.
Hypothesis P_setters : setters_keep P.
Variable e : Z.

Lemma event_inv_setter e' f db :
  (forall r, id (f r) = id r) -> (forall r, P r -> P (f r)) ->
  event_inv P e db -> event_inv P e (update_by_id e' f db).
Proof.
  intros Hid Hf. apply event_inv_update; [exact Hid|].
  intros row _ _. apply Hf.
Qed.

Lemma event_inv_cycle tr now db :
  event_inv P e db -> event_inv P e (fst (fst (reminder_loop tr now db))).
Proof.
  unfold reminder_loop. apply remind_each_inv.
  intros row d. unfold mark_reminded. apply event_inv_setter; [reflexivity|].
  intros r Hr. apply (P_setters r Hr).
Qed.

(** Every command keeps, for the row of [e], what every setter keeps. *)
Lemma step_event_inv_setters c db :
  event_inv P e db -> event_inv P e (fst (step c db)).
Proof.
  intros H. destruct c; simpl.
  - apply event_inv_create. exact H.
  - unfold join_event. destruct (select_by_id event_id db); [|exact H].
    destruct (mem _ _); [exact H|]. cbn [fst].
    apply event_inv_setter; [reflexivity | | exact H].
    intros x Hx. apply (P_setters x Hx).
  - unfold leave_event. destruct (select_by_id event_id db); [|exact H].
    destruct (negb (mem _ _)); [exact H|]. cbn [fst].
    apply event_inv_setter; [reflexivity | | exact H].
    intros x Hx. apply P_setters. apply (P_setters x Hx).
  - unfold set_manager. destruct (select_by_id event_id db); [|exact H].
    destruct (negb (mem _ _)); [exact H|]. cbn [fst].
    apply event_inv_setter; [reflexivity | | exact H].
    intros x Hx. apply (P_setters x Hx).
  - unfold random_manager. destruct event_id as [event_id|]; [|exact H].
    destruct (select_by_id event_id db); [|exact H].
    destruct (names_to_list _); [exact H|]. cbn [fst].
    apply event_inv_setter; [reflexivity | | exact H].
    intros x Hx. apply (P_setters x Hx).
  - unfold add_note. destruct (select_by_id event_id db); [|exact H].
    cbn [fst]. apply event_inv_setter; [reflexivity | | exact H].
    intros x Hx. apply (P_setters x Hx).
  - unfold set_reminder. destruct (_ || _); [exact H|].
    destruct (select_by_id event_id db); [|exact H].
    cbn [fst]. apply event_inv_setter; [reflexivity | | exact H].
    intros x Hx. apply (P_setters x Hx).
  - unfold delete_event. destruct (select_by_id event_id db); [|exact H].
    destruct (guild_permissions ctx); [|exact H].
    destruct (negb _); [exact H|]. destruct (negb _); [exact H|].
    cbn [fst]. apply event_inv_delete. exact H.
  - fold (step (ReminderLoop tr now_utc) db). rewrite step_reminder_loop.
    apply event_inv_cycle. exact H.
Qed.

Lemma run_event_inv_setters cs db :
  event_inv P e db -> event_inv P e (fst (run cs db)).
Proof.
  apply (run_event_inv P (fun _ => True) e).
  - intros c d _. apply step_event_inv_setters.
  - apply Forall_forall. intros c _. exact I.
Qed.

End Closure.

Section Keys.

Lemma same_event_setters r : setters_keep (same_event r).
Proof.
  intros r' H. unfold same_event in *. repeat split; intros; simpl; tauto.
Qed.

Lemma nothing_setters : setters_keep (fun _ => False).
Proof. intros r []. Qed.

Lemma select_bounded e db r :
  ids_bounded db -> select_by_id e db = Some r -> e <= sqlite_seq db.
Proof.
  intros Hb Hsel. pose proof (select_by_id_In _ _ _ Hsel) as Hin.
  pose proof (select_by_id_id _ _ _ Hsel) as Hid.
  unfold ids_bounded in Hb. rewrite Forall_forall in Hb.
  specialize (Hb r Hin). lia.
Qed.

End Keys.

(** X9: over any run of commands, as long as an event exists its id,
    channel, title, proposer, place and time are those it was created
    with: no command rewrites them. *)
Theorem event_core_never_rewritten
    (cs : list Cmd) (db : DB) (e : Z) (r r' : Row) :
  ids_bounded db ->
  select_by_id e db = Some r ->
  select_by_id e (fst (run cs db)) = Some r' ->
  same_event r r'.
Proof.
  intros Hb Hsel Hsel'.
  assert (H0 : event_inv (same_event r) e db).
  { split; [eapply select_bounded; eassumption|].
    intros row Hrow. rewrite Hsel in Hrow. inversion Hrow; subst.
    unfold same_event. repeat split; reflexivity. }
  destruct (run_event_inv_setters (same_event r) (same_event_setters r)
              e cs db H0) as [_ H].
  exact (H r' Hsel').
Qed.

(** X9 at work: joins, a note, a new reminder, a new manager and a
    cycle later the event of Alice has its title, place and time. *)
Lemma event_core_never_rewritten_witness :
  exists r',
    select_by_id 1
      (fst (run [JoinEvent Scenario.bob 1; AddNote Scenario.bob 1 (py "hi");
                 SetReminder Scenario.alice 1 5;
                 SetManager Scenario.alice 1 (py "Bob");
                 ReminderLoop Scenario.tr_ok Scenario.game_time]
                Scenario.db_alice)) = Some r' /\
    title r' = py "Board Game Night" /\
    event_time_utc r' = Some Scenario.game_time.
Proof.
  eexists. split; [vm_compute; reflexivity|].
  match goal with
  | |- title ?r' = _ /\ _ =>
      destruct (event_core_never_rewritten
                  [JoinEvent Scenario.bob 1;
                   AddNote Scenario.bob 1 (py "hi");
                   SetReminder Scenario.alice 1 5;
                   SetManager Scenario.alice 1 (py "Bob");
                   ReminderLoop Scenario.tr_ok Scenario.game_time]
                  Scenario.db_alice 1 Scenario.row_alice r')
        as [_ [_ [Ht [_ [_ Htime]]]]]
  end.
  - repeat constructor. vm_compute. discriminate.
  - vm_compute. reflexivity.
  - vm_compute. reflexivity.
  - split; [exact Ht | exact Htime].
Defined.

(** X10: a deleted event does not come back: after [delete_event]
    answered that the event is deleted, no run of commands makes its id
    findable again. *)
Theorem deleted_event_stays_deleted
    (ctx : Ctx) (e : Z) (confirm : option str) (db : DB) (cs : list Cmd) :
  ids_bounded db ->
  snd (delete_event ctx e confirm db) = Deleted ->
  select_by_id e (fst (run cs (fst (delete_event ctx e confirm db)))) = None.
Proof.
  intros Hb Hdel.
  assert (H0 : event_inv (fun _ => False) e
                 (fst (delete_event ctx e confirm db))).
  { unfold delete_event, no_row in *.
    destruct (select_by_id e db) as [row|] eqn:Hsel;
      [|destruct (bindable e); discriminate].
    pose proof (select_bounded e db row Hb Hsel) as Hle.
    destruct (guild_permissions ctx); [|discriminate].
    destruct (negb _); [discriminate|]. destruct (negb _); [discriminate|].
    cbn [fst]. split; [exact Hle|]. intros r Hr.
    rewrite select_delete_same in Hr. discriminate. }
  destruct (run_event_inv_setters (fun _ => False) nothing_setters e cs _ H0)
    as [_ H].
  destruct (select_by_id e (fst (run cs _))) as [r|]; [|reflexivity].
  destruct (H r eq_refl).
Qed.

(** X10 at work: after Alice deleted her event, Bob creates one and
    tries to join number 1. *)
Lemma deleted_event_stays_deleted_witness :
  select_by_id 1
    (fst (run [CreateEvent Scenario.bob Scenario.film_night;
               JoinEvent Scenario.bob 1]
              (fst (delete_event Scenario.alice 1 Scenario.confirm
                      Scenario.db_alice)))) = None.
Proof.
  apply (deleted_event_stays_deleted Scenario.alice 1 Scenario.confirm
           Scenario.db_alice).
  - repeat constructor. vm_compute. discriminate.
  - vm_compute. reflexivity.
Defined.

Section PrimaryKey.

Lemma update_ids e f db :
  (forall r, id (f r) = id r) ->
  map id (rows (update_by_id e f db)) = map id (rows db).
Proof.
  intros Hf. unfold update_by_id. simpl. rewrite map_map.
  apply map_ext. intros r. destruct (id r =? e); [apply Hf | reflexivity].
Qed.

Lemma delete_ids_distinct e db :
  ids_distinct db -> ids_distinct (delete_by_id e db).
Proof.
  unfold ids_distinct, delete_by_id. simpl. generalize (rows db) as rs.
  induction rs as [|r rs IH]; simpl; intros Hnd; [constructor|].
  apply NoDup_cons_iff in Hnd. destruct Hnd as [Hfresh Hnd].
  destruct (negb (id r =? e)); simpl; [|exact (IH Hnd)].
  apply NoDup_cons; [|exact (IH Hnd)].
  intros Hin. apply Hfresh. apply in_map_iff in Hin.
  destruct Hin as [r' [Hid Hr']]. apply filter_In in Hr'.
  apply in_map_iff. exists r'. tauto.
Qed.

Lemma step_ids_distinct c db :
  ids_distinct db -> ids_distinct (fst (step c db)).
Proof.
  intros H. unfold ids_distinct in *. destruct c; simpl.
  - destruct (create_event_cases ctx payload db)
      as [[Hdb _]|[ti [no [lo [t [db' [e' [Hins Hc]]]]]]]].
    + rewrite Hdb. exact H.
    + rewrite Hc. cbn [fst]. pose proof (insert_spec _ _ _ _ Hins) as [He [Hr _]].
      rewrite Hr, map_app. simpl.
      apply NoDup_app; [exact H | repeat constructor; intros [] |].
      intros i Hi [<-|[]]. apply in_map_iff in Hi.
      destruct Hi as [r [Hid Hin]]. pose proof (max_id_ge _ _ Hin). lia.
  - unfold join_event. destruct (select_by_id event_id db); [|exact H].
    destruct (mem _ _); [exact H|]. cbn [fst].
    rewrite update_ids by reflexivity. exact H.
  - unfold leave_event. destruct (select_by_id event_id db); [|exact H].
    destruct (negb (mem _ _)); [exact H|]. cbn [fst].
    rewrite update_ids by reflexivity. exact H.
  - unfold set_manager. destruct (select_by_id event_id db); [|exact H].
    destruct (negb (mem _ _)); [exact H|]. cbn [fst].
    rewrite update_ids by reflexivity. exact H.
  - unfold random_manager. destruct event_id as [event_id|]; [|exact H].
    destruct (select_by_id event_id db); [|exact H].
    destruct (names_to_list _); [exact H|]. cbn [fst].
    rewrite update_ids by reflexivity. exact H.
  - unfold add_note. destruct (select_by_id event_id db); [|exact H].
    cbn [fst]. rewrite update_ids by reflexivity. exact H.
  - unfold set_reminder. destruct (_ || _); [exact H|].
    destruct (select_by_id event_id db); [|exact H].
    cbn [fst]. rewrite update_ids by reflexivity. exact H.
  - unfold delete_event. destruct (select_by_id event_id db); [|exact H].
    destruct (guild_permissions ctx); [|exact H].
    destruct (negb _); [exact H|]. destruct (negb _); [exact H|].
    cbn [fst]. apply delete_ids_distinct. exact H.
  - fold (step (ReminderLoop tr now_utc) db). rewrite step_reminder_loop.
    rewrite reminder_loop_ids. exact H.
Qed.

Lemma run_ids_distinct cs db :
  ids_distinct db -> ids_distinct (fst (run cs db)).
Proof.
  revert db. induction cs as [|c cs IH]; intros db H; [exact H|].
  rewrite run_cons. cbn [fst]. apply IH, step_ids_distinct, H.
Qed.

(** With distinct ids, SELECT by the id of a row finds that row. *)
Lemma distinct_row_found db r :
  ids_distinct db -> In r (rows db) -> select_by_id (id r) db = Some r.
Proof.
  unfold ids_distinct, select_by_id. generalize (rows db) as rs.
  induction rs as [|x rs IH]; simpl; intros Hnd Hin; [destruct Hin|].
  apply NoDup_cons_iff in Hnd. destruct Hnd as [Hfresh Hnd].
  destruct Hin as [->|Hin].
  - rewrite Z.eqb_refl. reflexivity.
  - destruct (id x =? id r) eqn:E; [|exact (IH Hnd Hin)].
    exfalso. apply Hfresh. apply Z.eqb_eq in E. rewrite E.
    apply in_map. exact Hin.
Qed.

End PrimaryKey.

(** X11: the id stays a key: from a table with distinct ids, every run
    of commands leaves a table with distinct ids, in which every row is
    the one that SELECT finds under its id. *)
Theorem ids_stay_distinct (cs : list Cmd) (db : DB) :
  ids_distinct db ->
  ids_distinct (fst (run cs db)) /\
  forall r, In r (rows (fst (run cs db))) ->
            select_by_id (id r) (fst (run cs db)) = Some r.
Proof.
  intros H. pose proof (run_ids_distinct cs db H) as H'.
  split; [exact H'|]. intros r Hin. apply distinct_row_found; assumption.
Qed.

(** X11 at work: two creations, a deletion and a third creation, from
    the empty table. *)
Lemma ids_stay_distinct_witness :
  ids_distinct
    (fst (run [CreateEvent Scenario.alice Scenario.board_game_night;
               CreateEvent Scenario.bob Scenario.film_night;
               DeleteEvent Scenario.alice 1 Scenario.confirm;
               CreateEvent Scenario.alice Scenario.board_game_night]
              empty_db)).
Proof.
  apply (ids_stay_distinct
           [CreateEvent Scenario.alice Scenario.board_game_night;
            CreateEvent Scenario.bob Scenario.film_night;
            DeleteEvent Scenario.alice 1 Scenario.confirm;
            CreateEvent Scenario.alice Scenario.board_game_night] empty_db).
  constructor.
Defined.

(* ================================================================= *)
(** ** Beyond the claims: one cycle of the scheduler *)

Section OneCycle.

Variable tr : Transport.
Variable now : Z.

Lemma remind_each_completes fetched db :
  (forall r, In r fetched -> representable r = true) ->
  (forall r, In r fetched -> to_send tr now r = true -> send tr r = Sent) ->
  snd (remind_each tr now fetched db) = Completed.
Proof.
  revert db.
  induction fetched as [|row rest IH]; intros db Hr Hs; [reflexivity|].
  assert (Hrest : forall d, snd (remind_each tr now rest d) = Completed).
  { intros d. apply IH; intros r Hin; [apply Hr | apply Hs]; right; exact Hin. }
  specialize (Hr row (or_introl eq_refl)).
  specialize (Hs row (or_introl eq_refl)).
  unfold representable in Hr. unfold to_send, due in Hs.
  simpl. destruct (event_time_utc row) as [t|]; [|apply Hrest].
  apply andb_true_iff in Hr. destruct Hr as [Hat Hshown].
  rewrite Hat. cbn [negb].
  destruct (remind_at row t <=? now); [|apply Hrest].
  destruct (is_messageable (channel_of tr row)); [|apply Hrest].
  rewrite Hshown. cbn [negb].
  rewrite (Hs eq_refl). specialize (Hrest (mark_reminded row db)).
  destruct (remind_each tr now rest (mark_reminded row db)) as [[d c] o].
  exact Hrest.
Qed.

(** A fetched row whose threshold is not a [datetime] ends every pass:
    if no exception came before, the subtraction raises at that row. *)
Lemma remind_each_overflow fetched db row t :
  In row fetched -> event_time_utc row = Some t ->
  remind_at_defined row t = false ->
  snd (remind_each tr now fetched db) = Aborted.
Proof.
  revert db. induction fetched as [|r rest IH]; intros db Hin Ht Hat;
    [destruct Hin|].
  simpl. destruct Hin as [->|Hin].
  - rewrite Ht, Hat. reflexivity.
  - destruct (event_time_utc r) as [t'|]; [|auto].
    destruct (remind_at_defined r t'); [|reflexivity]. cbn [negb].
    destruct (remind_at r t' <=? now); [|auto].
    destruct (is_messageable (channel_of tr r)); [|auto].
    destruct (shown_defined t'); [|reflexivity]. cbn [negb].
    destruct (send tr r); [|reflexivity].
    specialize (IH (mark_reminded r db) Hin Ht Hat).
    destruct (remind_each tr now rest (mark_reminded r db)) as [[d c] o].
    exact IH.
Qed.

(** The rows behind it are never reached. *)
Lemma remind_each_overflow_first row rest db t :
  event_time_utc row = Some t -> remind_at_defined row t = false ->
  remind_each tr now (row :: rest) db = (db, [], Aborted).
Proof. intros Ht Hat. simpl. rewrite Ht, Hat. reflexivity. Qed.

Lemma remind_each_completed_calls fetched db :
  snd (remind_each tr now fetched db) = Completed ->
  snd (fst (remind_each tr now fetched db))
  = map (fun r => mkSinkCall r now Sent) (filter (to_send tr now) fetched).
Proof.
  revert db. induction fetched as [|row rest IH]; intros db; [reflexivity|].
  simpl. unfold to_send at 1, due.
  destruct (event_time_utc row) as [t|]; [|apply IH].
  destruct (remind_at_defined row t); [|discriminate]. cbn [negb].
  destruct (remind_at row t <=? now); [|apply IH].
  destruct (is_messageable (channel_of tr row)); [|apply IH].
  destruct (shown_defined t); [|discriminate]. cbn [negb].
  simpl. destruct (send tr row); [|discriminate].
  specialize (IH (mark_reminded row db)).
  destruct (remind_each tr now rest (mark_reminded row db)) as [[d c] o].
  simpl in *. intros Ho. rewrite (IH Ho). reflexivity.
Qed.

(** Marking other events does not change what SELECT finds for [e]. *)
Lemma remind_each_untouched e fetched db :
  (forall r, In r fetched -> id r = e -> due now r = false) ->
  select_by_id e (fst (fst (remind_each tr now fetched db)))
  = select_by_id e db.
Proof.
  revert db. induction fetched as [|row rest IH]; intros db Hs; [reflexivity|].
  assert (Hrest : forall d,
            select_by_id e (fst (fst (remind_each tr now rest d)))
            = select_by_id e d).
  { intros d. apply IH. intros r Hr. apply Hs. right. exact Hr. }
  specialize (Hs row (or_introl eq_refl)). unfold due in Hs.
  simpl. destruct (event_time_utc row) as [t|]; [|apply Hrest].
  destruct (remind_at_defined row t); [|reflexivity]. cbn [negb].
  destruct (remind_at row t <=? now) eqn:Hdue; [|apply Hrest].
  assert (Hne : e <> id row) by (intros Heq; symmetry in Heq;
                                 specialize (Hs Heq); discriminate).
  assert (Hmark : select_by_id e (mark_reminded row db) = select_by_id e db).
  { unfold mark_reminded. apply select_update_other; [reflexivity | exact Hne]. }
  destruct (is_messageable (channel_of tr row)).
  - destruct (shown_defined t); [|reflexivity]. cbn [negb].
    destruct (send tr row); [|reflexivity].
    specialize (Hrest (mark_reminded row db)).
    destruct (remind_each tr now rest (mark_reminded row db)) as [[d c] o].
    simpl in *. rewrite Hrest. exact Hmark.
  - rewrite Hrest. exact Hmark.
Qed.

(** A cycle rewrites nothing but flags, and only upwards. *)
Lemma remind_each_flags fetched db :
  Forall2 (fun r r' => r' = r \/ r' = set_reminded 1 r)
          (rows db) (rows (fst (fst (remind_each tr now fetched db)))).
Proof.
  apply (remind_each_inv
           (fun d => Forall2 (fun r r' => r' = r \/ r' = set_reminded 1 r)
                             (rows db) (rows d))).
  - intros row d H. unfold mark_reminded, update_by_id. simpl.
    induction H as [|r r' l l' Hr Hl IH]; simpl; constructor; [|exact IH].
    destruct (id r' =? id row); [|exact Hr].
    right. destruct Hr as [->| ->]; reflexivity.
  - induction (rows db); constructor; auto.
Qed.

End OneCycle.

(** X12: when the times of the fetched rows are such that the
    arithmetic of the loop does not raise, and the sends of the cycle
    return, the cycle runs through and calls the sink exactly once, at
    the scan time, for each fetched row that is due and whose channel
    can be written to, in the order of the table, and for no other row.
    A fetched row whose threshold is not a [datetime] makes every cycle
    end by an exception, whatever the scan time and the transport; when
    it is the first fetched row nothing is sent and nothing is
    written. *)
Theorem cycle_reminds_exactly_the_due (tr : Transport) (now : Z) (db : DB) :
  ((forall r, In r (candidates db) -> representable r = true) ->
   (forall r, In r (candidates db) -> to_send tr now r = true ->
              send tr r = Sent) ->
   snd (reminder_loop tr now db) = Completed /\
   snd (fst (reminder_loop tr now db))
   = map (fun r => mkSinkCall r now Sent)
         (filter (to_send tr now) (candidates db))) /\
  (forall row t,
     In row (candidates db) -> event_time_utc row = Some t ->
     remind_at_defined row t = false ->
     snd (reminder_loop tr now db) = Aborted /\
     (forall rest, candidates db = row :: rest ->
        reminder_loop tr now db = (db, [], Aborted))).
Proof.
  unfold reminder_loop. split.
  - intros Hr Hs.
    pose proof (remind_each_completes tr now (candidates db) db Hr Hs) as Hc.
    split; [exact Hc|]. apply remind_each_completed_calls. exact Hc.
  - intros row t Hin Ht Hat. split.
    + apply (remind_each_overflow tr now (candidates db) db row t);
        assumption.
    + intros rest Hc. rewrite Hc.
      apply (remind_each_overflow_first tr now row rest db t); assumption.
Qed.

(** X12 at work: at the event time the event of Alice is sent once; ten
    minutes before the threshold nothing is sent.  In the store where
    the event at 00:10 UTC of the year 1 comes first, the cycle at the
    time of the board game night ends at that row: the reminder for the
    board game night is not sent. *)
Lemma cycle_reminds_exactly_the_due_witness :
  snd (fst (reminder_loop Scenario.tr_ok Scenario.game_time
              Scenario.db_alice))
    = [mkSinkCall Scenario.row_alice Scenario.game_time Sent] /\
  snd (fst (reminder_loop Scenario.tr_ok
              (Scenario.game_time - timedelta_minutes 40)
              Scenario.db_alice)) = [] /\
  map event_time_utc (candidates Scenario.db_dawn)
    = [Some (datetime_min + timedelta_minutes 10); Some Scenario.game_time] /\
  reminder_loop Scenario.tr_ok Scenario.game_time Scenario.db_dawn
    = (Scenario.db_dawn, [], Aborted).
Proof.
  assert (Hr : forall r, In r (candidates Scenario.db_alice) ->
                         representable r = true).
  { intros r Hin. vm_compute in Hin. destruct Hin as [<-|[]]. reflexivity. }
  split; [|split; [|split; [vm_compute; reflexivity|]]].
  3: { destruct (cycle_reminds_exactly_the_due Scenario.tr_ok
                   Scenario.game_time Scenario.db_dawn) as [_ H].
       destruct (H Scenario.row_dawn (datetime_min + timedelta_minutes 10))
         as [_ H'].
       - vm_compute. left. reflexivity.
       - reflexivity.
       - vm_compute. reflexivity.
       - eapply H'. vm_compute. reflexivity. }
  - destruct (cycle_reminds_exactly_the_due Scenario.tr_ok Scenario.game_time
                Scenario.db_alice) as [H _].
    destruct (H Hr) as [_ H'].
    + intros r _ _. reflexivity.
    + rewrite H'. vm_compute. reflexivity.
  - destruct (cycle_reminds_exactly_the_due Scenario.tr_ok
                (Scenario.game_time - timedelta_minutes 40)
                Scenario.db_alice) as [H _].
    destruct (H Hr) as [_ H'].
    + intros r _ _. reflexivity.
    + rewrite H'. vm_compute. reflexivity.
Defined.

(** X13: whatever the transport does, a cycle leaves the counter and the
    rows in place and rewrites nothing but [reminded], and that only to
    1; an event none of whose fetched rows is due (it has no time, is
    already flagged, or its threshold lies ahead) is left as it was. *)
Theorem cycle_writes_only_flags (tr : Transport) (now : Z) (db : DB) :
  sqlite_seq (fst (fst (reminder_loop tr now db))) = sqlite_seq db /\
  Forall2 (fun r r' => r' = r \/ r' = set_reminded 1 r)
          (rows db) (rows (fst (fst (reminder_loop tr now db)))) /\
  forall e,
    (forall r, In r (candidates db) -> id r = e -> due now r = false) ->
    select_by_id e (fst (fst (reminder_loop tr now db))) = select_by_id e db.
Proof.
  split; [apply reminder_loop_seq|]. split.
  - unfold reminder_loop. apply remind_each_flags.
  - intros e He. unfold reminder_loop. apply remind_each_untouched. exact He.
Qed.

(** X13 at work: forty minutes before the event, the event of Alice is
    not touched by a cycle. *)
Lemma cycle_writes_only_flags_witness :
  select_by_id 1
    (fst (fst (reminder_loop Scenario.tr_ok
                 (Scenario.game_time - timedelta_minutes 40)
                 Scenario.db_alice)))
  = Some Scenario.row_alice.
Proof.
  destruct (cycle_writes_only_flags Scenario.tr_ok
              (Scenario.game_time - timedelta_minutes 40)
              Scenario.db_alice) as [_ [_ H]].
  rewrite H.
  - vm_compute. reflexivity.
  - intros r Hin _. vm_compute in Hin. destruct Hin as [<-|[]].
    vm_compute. reflexivity.
Defined.

Section Rearm.

Lemma remind_at_minutes row t m :
  remind_minutes row = Some m -> m <> 0 ->
  remind_at row t = t - timedelta_minutes m.
Proof.
  intros Hm Hne. unfold remind_at, or_default. rewrite Hm.
  apply Z.eqb_neq in Hne. rewrite Hne. reflexivity.
Qed.

End Rearm.

(** X14: setting the reminder and the scheduler fit together for every
    offset from 1 to 1440: after [set_reminder e m], whatever the flag
    was, a cycle before the event time minus [m] minutes does not call
    the sink for the event, and a cycle at or after it whose sends
    return calls it for the event, if its channel can be written to and
    the arithmetic of the loop on the times of the fetched rows does not
    raise. *)
Theorem set_reminder_then_cycle
    (ctx : Ctx) (tr : Transport) (now : Z) (e m t : Z)
    (db : DB) (row : Row) :
  ids_distinct db ->
  select_by_id e db = Some row ->
  event_time_utc row = Some t ->
  1 <= m <= 1440 ->
  (now < t - timedelta_minutes m ->
   calls_for e (snd (fst (reminder_loop tr now
                            (fst (set_reminder ctx e m db))))) = []) /\
  (t - timedelta_minutes m <= now ->
   is_messageable (channel_of tr row) = true ->
   (forall r, In r (candidates (fst (set_reminder ctx e m db))) ->
              representable r = true) ->
   (forall r, send tr r = Sent) ->
   In (mkSinkCall (set_remind (Some m) 0 row) now Sent)
      (snd (fst (reminder_loop tr now (fst (set_reminder ctx e m db)))))).
Proof.
  intros Hnd Hsel Ht Hm.
  assert (G : (m <? 0) || (24 * 60 <? m) = false).
  { apply orb_false_iff. split; apply Z.ltb_ge; lia. }
  unfold set_reminder. rewrite G, Hsel. cbn [fst].
  set (db1 := update_by_id e (set_remind (Some m) 0) db).
  set (row1 := set_remind (Some m) 0 row).
  assert (Hsel1 : select_by_id e db1 = Some row1).
  { unfold db1. rewrite select_update_same by reflexivity.
    rewrite Hsel. reflexivity. }
  assert (Hnd1 : ids_distinct db1).
  { unfold ids_distinct, db1. rewrite update_ids by reflexivity. exact Hnd. }
  assert (Hat : remind_at row1 t = t - timedelta_minutes m).
  { apply remind_at_minutes; [reflexivity | lia]. }
  split.
  - intros Hearly. apply calls_for_nil. intros c Hc Hid.
    apply remind_each_calls in Hc.
    destruct Hc as [Hin [_ [_ [_ [t' [Ht' Hdue]]]]]].
    unfold candidates in Hin. apply filter_In in Hin. destruct Hin as [Hin _].
    pose proof (distinct_row_found db1 _ Hnd1 Hin) as Hfound.
    rewrite Hid, Hsel1 in Hfound. inversion Hfound as [Heq].
    rewrite <- Heq in Ht', Hdue. unfold row1 in Ht'.
    cbn [event_time_utc set_remind] in Ht'. rewrite Ht in Ht'.
    inversion Ht'; subst t'. rewrite Hat in Hdue. lia.
  - intros Hlate Hch Hrep Hsend. unfold reminder_loop.
    rewrite remind_each_completed_calls
      by (apply remind_each_completes; [exact Hrep|];
          intros r _ _; apply Hsend).
    apply in_map_iff. exists row1. split; [reflexivity|].
    apply filter_In. split.
    + unfold candidates. apply filter_In. split.
      * apply (select_by_id_In e). exact Hsel1.
      * unfold due_candidate, row1. cbn [event_time_utc reminded set_remind].
        rewrite Ht. reflexivity.
    + unfold to_send, due. change (event_time_utc row1) with (event_time_utc row).
      rewrite Ht, Hat. apply andb_true_iff. split; [apply Z.leb_le; exact Hlate|].
      exact Hch.
Qed.

(** X14 at work: the event of Alice was notified; she sets five
    minutes; a cycle six minutes before the event is silent, a cycle
    five minutes before sends. *)
Lemma set_reminder_then_cycle_witness :
  calls_for 1
    (snd (fst (reminder_loop Scenario.tr_ok
                 (Scenario.game_time - timedelta_minutes 6)
                 (fst (set_reminder Scenario.alice 1 5
                         Scenario.db_notified))))) = [] /\
  In (mkSinkCall (set_remind (Some 5) 0 Scenario.row_notified)
        (Scenario.game_time - timedelta_minutes 5) Sent)
     (snd (fst (reminder_loop Scenario.tr_ok
                  (Scenario.game_time - timedelta_minutes 5)
                  (fst (set_reminder Scenario.alice 1 5
                          Scenario.db_notified))))).
Proof.
  assert (Hnd : ids_distinct Scenario.db_notified).
  { unfold ids_distinct. vm_compute. repeat constructor. intros []. }
  assert (Hsel : select_by_id 1 Scenario.db_notified
                 = Some Scenario.row_notified) by (vm_compute; reflexivity).
  split.
  - destruct (set_reminder_then_cycle Scenario.alice Scenario.tr_ok
                (Scenario.game_time - timedelta_minutes 6) 1 5
                Scenario.game_time Scenario.db_notified
                Scenario.row_notified Hnd Hsel eq_refl) as [H _].
    + lia.
    + apply H. vm_compute. reflexivity.
  - destruct (set_reminder_then_cycle Scenario.alice Scenario.tr_ok
                (Scenario.game_time - timedelta_minutes 5) 1 5
                Scenario.game_time Scenario.db_notified
                Scenario.row_notified Hnd Hsel eq_refl) as [_ H].
    + lia.
    + apply H; [vm_compute; discriminate | reflexivity | | reflexivity].
      intros r Hin. vm_compute in Hin. destruct Hin as [<-|[]]. reflexivity.
Defined.

(* ================================================================= *)
(** ** Beyond the claims: the participants column *)

Section StoredNames.

Lemma join_clean_nonempty (x : str) (l : list str) :
  truthy x = true -> truthy (join [comma; space] (x :: l)) = true.
Proof.
  intros Hx. destruct x as [|c x]; [discriminate|].
  destruct l; reflexivity.
Qed.

End StoredNames.

(** X15: every name that the handlers read from the column, whatever
    text it holds, is non-empty, free of commas and trimmed; storing the
    names read and reading them again gives the same names; NULL and the
    empty text hold no names; and two lists of such names that are
    stored as the same text are the same list. *)
Theorem stored_names_normal_form :
  (forall s, Forall (fun x => clean x = true) (names_to_list s)) /\
  (forall s, names_to_list (Some (list_to_names (names_to_list s)))
             = names_to_list s) /\
  names_to_list None = [] /\ names_to_list (Some []) = [] /\
  (forall l1 l2,
     Forall (fun x => clean x = true) l1 ->
     Forall (fun x => clean x = true) l2 ->
     list_to_names l1 = list_to_names l2 -> l1 = l2) /\
  (forall l, Forall (fun x => clean x = true) l ->
             (list_to_names l = [] <-> l = [])).
Proof.
  split; [apply names_to_list_all_clean|].
  split; [apply roundtrip_stored|].
  split; [reflexivity|]. split; [reflexivity|]. split.
  - intros l1 l2 H1 H2 Heq.
    rewrite <- (roundtrip_clean l1 H1), <- (roundtrip_clean l2 H2), Heq.
    reflexivity.
  - intros l Hl. split; [|intros ->; reflexivity].
    destruct l as [|x l]; [reflexivity|]. intros Hnil.
    inversion Hl as [|y l' Hx _]; subst.
    unfold clean in Hx. apply andb_true_iff in Hx. destruct Hx as [Hx _].
    pose proof (join_clean_nonempty x l Hx) as Hj.
    unfold list_to_names in Hnil. rewrite Hnil in Hj. discriminate.
Qed.

(** X15 at work: a text with stray commas and blanks. *)
Lemma stored_names_normal_form_witness :
  names_to_list (Some (py " Alice ,, Bob,"))
    = [py "Alice"; py "Bob"] /\
  (list_to_names [py "Alice"; py "Bob"] = [] <-> [py "Alice"; py "Bob"] = []).
Proof.
  destruct stored_names_normal_form as [_ [H2 [_ [_ [_ H6]]]]].
  split.
  - rewrite <- (H2 (Some (py " Alice ,, Bob,"))). reflexivity.
  - apply H6. repeat constructor.
Defined.

(* ================================================================= *)
(** ** Beyond the claims: the commands that only read *)

(** X16: what [show_event] shows agrees with what the other handlers
    use: the count is the number of participants; the names shown, read
    back, are the participants, and the place-holder stands exactly for
    no participant; the minutes are those the scheduler subtracts; a
    manager is shown exactly when one is stored and not empty.  The
    event is reported as not found exactly when no row has the id and
    the id is an integer of 64 bits; the handler raises exactly for any
    other id that no row has and for an event whose time cannot be
    shown. *)
Theorem show_event_agrees (e : Z) (db : DB) :
  (show_event e db = NoSuchEvent <->
   select_by_id e db = None /\ bindable e = true) /\
  (show_event e db = ShowRaised <->
   (select_by_id e db = None /\ bindable e = false) \/
   exists row, select_by_id e db = Some row /\
               fmt_defined (event_time_utc row) = false) /\
  forall row s,
    select_by_id e db = Some row -> show_event e db = Summarised s ->
    shown_id s = e /\ shown_title s = title row /\
    shown_count s = length (participants_of row) /\
    names_to_list (shown_names s) = participants_of row /\
    (shown_names s = None <-> participants_of row = []) /\
    (forall t, remind_at row t = t - timedelta_minutes (shown_minutes s)) /\
    (shown_manager s = None <-> manager row = None \/ manager row = Some []).
Proof.
  unfold show_event. split; [|split].
  - destruct (select_by_id e db) as [row|].
    + destruct (fmt_defined (event_time_utc row)); simpl;
        (split; [discriminate | intros [H _]; discriminate]).
    + destruct (bindable e); split; try discriminate; try tauto.
      intros [_ H]. discriminate.
  - destruct (select_by_id e db) as [row|].
    + destruct (fmt_defined (event_time_utc row)) eqn:Hf; simpl.
      * split; [discriminate|].
        intros [[H _]|[r [Hr Hr']]]; [discriminate|].
        inversion Hr; subst r. rewrite Hf in Hr'. discriminate.
      * split; [|reflexivity]. intros _. right. exists row. tauto.
    + destruct (bindable e); split; try discriminate; try tauto.
      intros [[_ H]|[r [H _]]]; discriminate.
  - intros row s Hsel. rewrite Hsel.
    destruct (fmt_defined (event_time_utc row)); [|discriminate]. cbn [negb].
    intros Hs. inversion Hs; subst s.
    cbn [shown_id shown_title shown_count shown_names shown_minutes
         shown_manager].
    fold (participants_of row).
    pose proof (names_to_list_all_clean (participants row)) as Hclean.
    fold (participants_of row) in Hclean.
    assert (Hnil : list_to_names (participants_of row) = []
                   <-> participants_of row = []).
    { split; [|intros ->; reflexivity].
      destruct (participants_of row) as [|x l]; [reflexivity|]. intros Hn.
      inversion Hclean as [|y l' Hx _]; subst.
      unfold clean in Hx. apply andb_true_iff in Hx. destruct Hx as [Hx _].
      pose proof (join_clean_nonempty x l Hx) as Hj.
      unfold list_to_names in Hn. rewrite Hn in Hj. discriminate. }
    split; [apply (select_by_id_id e db row Hsel)|].
    split; [reflexivity|]. split; [reflexivity|].
    unfold or_literal.
    destruct (truthy (list_to_names (participants_of row))) eqn:Htr.
    + split; [apply roundtrip_clean; exact Hclean|]. split.
      * split; [discriminate|]. intros Hp. apply Hnil in Hp.
        rewrite Hp in Htr. discriminate.
      * split; [reflexivity|].
        destruct (manager row) as [[|c m]|]; simpl;
          split; try tauto; try discriminate;
          intros [H|H]; discriminate.
    + assert (Hp : participants_of row = []).
      { apply Hnil. destruct (list_to_names (participants_of row));
          [reflexivity | discriminate]. }
      split; [rewrite Hp; reflexivity|]. split; [tauto|].
      split; [reflexivity|].
      destruct (manager row) as [[|c m]|]; simpl;
        split; try tauto; try discriminate;
        intros [H|H]; discriminate.
Qed.

(** X16 at work: the event of Alice and Bob. *)
Lemma show_event_agrees_witness :
  exists s,
    show_event 1 Scenario.db_alice_bob = Summarised s /\
    shown_count s = 2%nat /\
    names_to_list (shown_names s) = [py "Alice"; py "Bob"].
Proof.
  eexists. split; [vm_compute; reflexivity|].
  match goal with
  | |- shown_count ?s = _ /\ _ =>
      destruct (show_event_agrees 1 Scenario.db_alice_bob) as [_ [_ H]];
      destruct (H Scenario.row_alice_bob s) as [_ [_ [H3 [H4 _]]]]
  end.
  - vm_compute. reflexivity.
  - vm_compute. reflexivity.
  - split; [rewrite H3 | rewrite H4]; reflexivity.
Defined.

Section OrderBy.









End OrderBy.



(* ================================================================= *)
(** ** Beyond the claims: the token *)

Section Token.

Lemma lstrip_app_space (x : str) (c : ascii) :
  is_space c = true ->
  lstrip (x ++ [c]) = match lstrip x with [] => [] | _ => lstrip x ++ [c] end.
Proof.
  intros Hc. unfold lstrip. induction x as [|y x IH]; simpl.
  - rewrite Hc. reflexivity.
  - destruct (is_space y); [exact IH | reflexivity].
Qed.

Lemma rstrip_app_space (x : str) (c : ascii) :
  is_space c = true -> rstrip (x ++ [c]) = rstrip x.
Proof.
  intros Hc. unfold rstrip. rewrite rev_app_distr. simpl. rewrite Hc.
  reflexivity.
Qed.

(** A whitespace character at the end does not change the stripped
    text. *)
Lemma strip_app_space (x : str) (c : ascii) :
  is_space c = true -> strip (x ++ [c]) = strip x.
Proof.
  intros Hc. unfold strip. rewrite (lstrip_app_space x c Hc).
  destruct (lstrip x) as [|y l]; [reflexivity|].
  apply rstrip_app_space. exact Hc.
Qed.

(** The line read is free of line ends but for a final LF. *)
Lemma readline_line (content : str) :
  exists line,
    (readline content = line \/ readline content = line ++ [LF]) /\
    ~ In LF line /\ ~ In CR line.
Proof.
  induction content as [|c rest [line [Hl [Hlf Hcr]]]]; simpl.
  - exists []. split; [left; reflexivity | split; intros []].
  - destruct (Ascii.eqb c LF) eqn:E1; simpl.
    + exists []. split; [right; reflexivity | split; intros []].
    + destruct (Ascii.eqb c CR) eqn:E2.
      * exists []. split; [right; reflexivity | split; intros []].
      * apply Ascii.eqb_neq in E1, E2. exists (c :: line). split.
        -- destruct Hl as [-> | ->]; [left | right]; reflexivity.
        -- split; intros [H|H]; auto.
Qed.

Lemma strip_readline_no_line_end (content : str) (c : ascii) :
  In c (strip (readline content)) -> c <> LF /\ c <> CR.
Proof.
  destruct (readline_line content) as [line [Hl [Hlf Hcr]]].
  assert (Hs : strip (readline content) = strip line).
  { destruct Hl as [-> | ->]; [reflexivity|].
    apply strip_app_space. reflexivity. }
  rewrite Hs. intros Hin. apply strip_incl in Hin.
  split; intros ->; contradiction.
Qed.

Lemma truthy_not_nil (s : str) : truthy s = true <-> s <> [].
Proof. destruct s; simpl; split; congruence. Qed.

End Token.

(** X18: the token that reaches [bot.run] is never empty and has no
    whitespace around it.  A DISCORD_TOKEN that is set and not empty is
    taken, stripped, and the file is not looked at, even when stripping
    leaves nothing, in which case the start-up fails whatever the file
    holds.  Without it the token is the first line of the file,
    stripped, free of line ends, and there is none if the file is
    missing or its first line is blank. *)
Theorem load_token_precedence :
  (forall env file t,
     entrypoint env file = Some t ->
     t <> [] /\ strip t = t /\ load_token env file = Some t) /\
  (forall tok file,
     tok <> [] ->
     load_token (Some tok) file = Some (strip tok) /\
     (strip tok = [] -> entrypoint (Some tok) file = None)) /\
  (forall env file,
     env = None \/ env = Some [] ->
     load_token env None = None /\
     (forall content,
        file = Some content ->
        load_token env file = or_literal (strip (readline content))) /\
     forall t, load_token env file = Some t ->
       t <> [] /\ strip t = t /\ ~ In LF t /\ ~ In CR t).
Proof.
  assert (Hfile : forall env file,
            env = None \/ env = Some [] ->
            load_token env file
            = match file with
              | Some content => or_literal (strip (readline content))
              | None => None
              end).
  { intros env file [-> | ->]; destruct file; reflexivity. }
  split; [|split].
  - intros env file t. unfold entrypoint.
    destruct (load_token env file) as [t'|] eqn:Hl; [|discriminate].
    destruct (truthy t') eqn:Ht; [|discriminate].
    intros H. inversion H; subst t'.
    split; [apply truthy_not_nil; exact Ht|]. split; [|reflexivity].
    unfold load_token in Hl.
    assert (Hf : match file with
                 | Some content =>
                     if truthy (strip (readline content))
                     then Some (strip (readline content)) else None
                 | None => None
                 end = Some t -> strip t = t).
    { destruct file as [content|]; [|discriminate].
      destruct (truthy (strip (readline content))); [|discriminate].
      intros H'. inversion H'. apply strip_idempotent. }
    destruct env as [tok|]; [|exact (Hf Hl)].
    destruct (truthy tok); [|exact (Hf Hl)].
    inversion Hl. apply strip_idempotent.
  - intros tok file Htok. apply truthy_not_nil in Htok.
    unfold entrypoint, load_token. rewrite Htok.
    split; [reflexivity|]. intros ->. reflexivity.
  - intros env file Henv. rewrite !(Hfile env _ Henv).
    split; [reflexivity|]. split.
    + intros content ->. reflexivity.
    + intros t. destruct file as [content|]; [|discriminate].
      unfold or_literal. destruct (truthy _) eqn:Ht; [|discriminate].
      intros H. inversion H; subst t.
      split; [apply truthy_not_nil; exact Ht|].
      split; [apply strip_idempotent|].
      split; intros Hin; apply strip_readline_no_line_end in Hin; tauto.
Qed.

(** X18 at work: a variable of blanks hides the file; without the
    variable the first line of the file is the token. *)
Lemma load_token_precedence_witness :
  entrypoint (Some (py "  ")) (Some (py "token-in-file")) = None /\
  load_token (Some (py " from-env ")) (Some (py "token-in-file"))
    = Some (py "from-env") /\
  load_token None (Some (py " abc" ++ [CR; LF] ++ py "def"))
    = Some (py "abc").
Proof.
  destruct load_token_precedence as [_ [H2 H3]].
  split; [|split].
  - destruct (H2 (py "  ") (Some (py "token-in-file"))) as [_ H].
    + discriminate.
    + apply H. reflexivity.
  - destruct (H2 (py " from-env ") (Some (py "token-in-file"))) as [H _].
    + discriminate.
    + exact H.
  - destruct (H3 None (Some (py " abc" ++ [CR; LF] ++ py "def")))
      as [_ [H _]]; [left; reflexivity|].
    etransitivity; [apply H; reflexivity | reflexivity].
Defined.

(* ================================================================= *)
(** ** Beyond the claims: times shown and times read *)

Section Calendar.

Lemma all_from_spec (p : Z -> bool) (fuel : nat) (z : Z) :
  all_from fuel z p = true ->
  forall k, z <= k < z + Z.of_nat fuel -> p k = true.
Proof.
  revert z. induction fuel as [|f IH]; intros z H k Hk; [lia|].
  simpl in H. apply andb_true_iff in H. destruct H as [Hz Hrest].
  destruct (Z.eq_dec k z) as [->|Hne]; [exact Hz|].
  apply (IH (z + 1) Hrest). lia.
Qed.

(** Every day of an era, one by one. *)
Lemma era_checked : all_from (Z.to_nat 146097) 0 era_day_ok = true.
Proof. vm_compute. reflexivity. Qed.

Lemma era_day (doe : Z) :
  0 <= doe < 146097 -> era_day_ok doe = true.
Proof.
  intros H. apply (all_from_spec era_day_ok (Z.to_nat 146097) 0 era_checked).
  rewrite Z2Nat.id; lia.
Qed.

(** Four hundred years are 146097 days and repeat the leap years. *)
Lemma days_from_civil_era (y0 m d era : Z) :
  days_from_civil (y0 + era * 400) m d
  = days_from_civil y0 m d + era * 146097.
Proof.
  unfold days_from_civil.
  assert (H : (if m <=? 2 then y0 + era * 400 - 1 else y0 + era * 400)
              = (if m <=? 2 then y0 - 1 else y0) + era * 400)
    by (destruct (m <=? 2); ring).
  rewrite H. clear H. generalize (if m <=? 2 then y0 - 1 else y0) as y.
  intros y. cbv zeta. rewrite Z.div_add by lia.
  replace (y + era * 400 - (y / 400 + era) * 400) with (y - y / 400 * 400)
    by ring.
  ring.
Qed.

Lemma is_leap_era (y0 era : Z) : is_leap (y0 + era * 400) = is_leap y0.
Proof.
  unfold is_leap.
  replace (y0 + era * 400) with (y0 + (era * 100) * 4) at 1 by ring.
  replace (y0 + era * 400) with (y0 + (era * 4) * 100) at 1 by ring.
  rewrite !Z.mod_add by lia. reflexivity.
Qed.

Lemma days_in_month_era (y0 m era : Z) :
  days_in_month (y0 + era * 400) m = days_in_month y0 m.
Proof. unfold days_in_month. rewrite is_leap_era. reflexivity. Qed.

(** The date computed from a day count is a date of the calendar, and
    counting its days gives the day count back. *)
Lemma civil_from_days_inverse (z y m d : Z) :
  civil_from_days z = (y, m, d) ->
  1 <= m <= 12 /\ 1 <= d <= days_in_month y m /\ days_from_civil y m d = z.
Proof.
  unfold civil_from_days.
  pose proof (Z.mod_pos_bound (z + 719468) 146097 ltac:(lia)) as Hdoe.
  pose proof (Z.div_mod (z + 719468) 146097 ltac:(lia)) as Hz.
  pose proof (era_day _ Hdoe) as Hok. unfold era_day_ok in Hok.
  destruct (civil_in_era ((z + 719468) mod 146097)) as [[y0 m0] d0].
  intros H. inversion H; subst. clear H.
  rewrite !andb_true_iff in Hok.
  destruct Hok as [[[[H1 H2] H3] H4] H5].
  apply Z.leb_le in H1, H2, H3, H4. apply Z.eqb_eq in H5.
  rewrite days_in_month_era, days_from_civil_era.
  repeat split; try lia.
Qed.

End Calendar.

Section Matching.

Lemma first_match_bind {A B} (m : matcher A) (k : A -> matcher B)
    (s r r' : str) (a : A) (b : B) :
  first_match m s a r -> first_match (k a) r b r' ->
  first_match (bind m k) s b r'.
Proof.
  intros [l Hl] [l' Hl']. unfold first_match, bind. rewrite Hl. simpl.
  rewrite Hl'. simpl. eexists. reflexivity.
Qed.

Lemma first_match_ret {A} (a : A) (s : str) : first_match (ret a) s a s.
Proof. exists []. reflexivity. Qed.

Lemma first_match_lit (c : ascii) (s : str) :
  first_match (lit c) (c :: s) tt s.
Proof. exists []. simpl. rewrite Ascii.eqb_refl. reflexivity. Qed.

(** Case by case below a bound. *)
Lemma below_nat (K : nat) (P : Z -> Prop) :
  (forall k, (k < K)%nat -> P (Z.of_nat k)) ->
  forall n, 0 <= n < Z.of_nat K -> P n.
Proof.
  intros H n Hn. rewrite <- (Z2Nat.id n) by lia. apply H. lia.
Qed.

Tactic Notation "each_case" integer(K) :=
  intros k Hk;
  do K (destruct k as [|k];
        [first [ intros Hlo; exfalso; lia
               | intros _; cbv; eexists; reflexivity ]|]);
  exfalso; lia.

Lemma one_dchar (v : Z) (s : str) :
  0 <= v <= 9 -> one (digit 0 9) (dchar v :: s) = [(v, s)].
Proof.
  intros Hv. assert (Hn : 0 <= v < Z.of_nat 10) by lia. clear Hv.
  revert v Hn.
  apply (below_nat 10
           (fun v => one (digit 0 9) (dchar v :: s) = [(v, s)])).
  intros k Hk. do 10 (destruct k as [|k]; [reflexivity|]). exfalso. lia.
Qed.

Lemma is_space_dchar (v : Z) : 0 <= v <= 9 -> is_space (dchar v) = false.
Proof.
  intros Hv. assert (Hn : 0 <= v < Z.of_nat 10) by lia. clear Hv.
  revert v Hn. apply (below_nat 10 (fun v => is_space (dchar v) = false)).
  intros k Hk. do 10 (destruct k as [|k]; [reflexivity|]). exfalso. lia.
Qed.

Lemma two_dchar (a b : Z) (s : str) :
  0 <= a <= 9 -> 0 <= b <= 9 ->
  two (digit 0 9) (digit 0 9) (dchar a :: dchar b :: s) = [(10 * a + b, s)].
Proof.
  intros Ha Hb. unfold two, bind. rewrite (one_dchar a _ Ha).
  cbn [flat_map fst snd app]. rewrite (one_dchar b _ Hb). reflexivity.
Qed.

Lemma re_Y_pad4 (y : Z) (s : str) :
  0 <= y <= 9999 -> first_match re_Y (pad4 y ++ s) y s.
Proof.
  intros Hy. exists [].
  assert (Ha : 0 <= y / 1000 <= 9).
  { split; [apply Z.div_pos; lia|].
    assert (y / 1000 < 10) by (apply Z.div_lt_upper_bound; lia). lia. }
  assert (Hb : 0 <= y / 100 mod 10 <= 9)
    by (pose proof (Z.mod_pos_bound (y / 100) 10); lia).
  assert (Hc : 0 <= y / 10 mod 10 <= 9)
    by (pose proof (Z.mod_pos_bound (y / 10) 10); lia).
  assert (Hd : 0 <= y mod 10 <= 9)
    by (pose proof (Z.mod_pos_bound y 10); lia).
  assert (Hsum : 100 * (10 * (y / 1000) + y / 100 mod 10)
                 + (10 * (y / 10 mod 10) + y mod 10) = y).
  { clear Ha Hb Hc Hd. Z.to_euclidean_division_equations. lia. }
  unfold re_Y, pad4, bind. cbn [app].
  rewrite (two_dchar _ _ _ Ha Hb). cbn [flat_map fst snd app].
  rewrite (two_dchar _ _ _ Hc Hd). cbn [flat_map fst snd app].
  unfold ret. rewrite Hsum. reflexivity.
Qed.

Lemma re_m_pad2 (s : str) (m : Z) :
  0 <= m < Z.of_nat 13 -> 1 <= m -> first_match re_m (pad2 m ++ s) m s.
Proof.
  revert m.
  apply (below_nat 13
           (fun m => 1 <= m -> first_match re_m (pad2 m ++ s) m s)).
  each_case 13.
Qed.

Lemma re_d_pad2 (s : str) (d : Z) :
  0 <= d < Z.of_nat 32 -> 1 <= d -> first_match re_d (pad2 d ++ s) d s.
Proof.
  revert d.
  apply (below_nat 32
           (fun d => 1 <= d -> first_match re_d (pad2 d ++ s) d s)).
  each_case 32.
Qed.

Lemma re_H_pad2 (s : str) (h : Z) :
  0 <= h < Z.of_nat 24 -> 0 <= h -> first_match re_H (pad2 h ++ s) h s.
Proof.
  revert h.
  apply (below_nat 24
           (fun h => 0 <= h -> first_match re_H (pad2 h ++ s) h s)).
  each_case 24.
Qed.

Lemma re_M_pad2 (s : str) (mi : Z) :
  0 <= mi < Z.of_nat 60 -> 0 <= mi -> first_match re_M (pad2 mi ++ s) mi s.
Proof.
  revert mi.
  apply (below_nat 60
           (fun mi => 0 <= mi -> first_match re_M (pad2 mi ++ s) mi s)).
  each_case 60.
Qed.

Lemma spaces1_before_digit (v : Z) (s : str) :
  0 <= v <= 9 ->
  first_match spaces1 (space :: dchar v :: s) tt (dchar v :: s).
Proof.
  intros Hv. exists []. simpl. rewrite (is_space_dchar v Hv). reflexivity.
Qed.

End Matching.

Section ShownAndRead.

(** The text that [strftime] writes for a date and a time of day. *)
Lemma format_regex_reads (y m d h mi : Z) :
  0 <= y <= 9999 -> 1 <= m <= 12 -> 1 <= d <= 31 ->
  0 <= h <= 23 -> 0 <= mi <= 59 ->
  first_match format_regex
    (pad4 y ++ ["-"%char] ++ pad2 m ++ ["-"%char] ++ pad2 d ++ [space]
     ++ pad2 h ++ [":"%char] ++ pad2 mi)
    (y, m, d, h, mi) [].
Proof.
  intros Hy Hm Hd Hh Hmi. unfold format_regex.
  eapply first_match_bind; [apply re_Y_pad4; exact Hy|].
  eapply first_match_bind; [apply first_match_lit|].
  eapply first_match_bind; [apply re_m_pad2; simpl; lia|].
  eapply first_match_bind; [apply first_match_lit|].
  eapply first_match_bind; [apply re_d_pad2; simpl; lia|].
  eapply first_match_bind.
  { unfold pad2 at 1. cbn [app]. apply spaces1_before_digit.
    split; [apply Z.div_pos; lia|].
    assert (h / 10 < 10) by (apply Z.div_lt_upper_bound; lia). lia. }
  eapply first_match_bind.
  { change (dchar (h / 10) :: [dchar (h mod 10)] ++ [":"%char] ++ pad2 mi)
      with (pad2 h ++ [":"%char] ++ pad2 mi).
    apply re_H_pad2; simpl; lia. }
  eapply first_match_bind; [apply first_match_lit|].
  eapply first_match_bind.
  { rewrite <- (app_nil_r (pad2 mi)). apply re_M_pad2; simpl; lia. }
  apply first_match_ret.
Qed.

Lemma strftime_text_trimmed (y m d h mi : Z) :
  0 <= y <= 9999 -> 0 <= mi <= 59 ->
  strip (pad4 y ++ ["-"%char] ++ pad2 m ++ ["-"%char] ++ pad2 d ++ [space]
         ++ pad2 h ++ [":"%char] ++ pad2 mi)
  = pad4 y ++ ["-"%char] ++ pad2 m ++ ["-"%char] ++ pad2 d ++ [space]
    ++ pad2 h ++ [":"%char] ++ pad2 mi.
Proof.
  intros Hy Hmi.
  assert (Ha : 0 <= y / 1000 <= 9).
  { split; [apply Z.div_pos; lia|].
    assert (y / 1000 < 10) by (apply Z.div_lt_upper_bound; lia). lia. }
  assert (Hz : 0 <= mi mod 10 <= 9)
    by (pose proof (Z.mod_pos_bound mi 10); lia).
  unfold strip.
  assert (Hl : forall x, lstrip (pad4 y ++ x) = pad4 y ++ x).
  { intros x. apply lstrip_fixed. unfold pad4. cbn [app no_leading_ws].
    rewrite (is_space_dchar _ Ha). reflexivity. }
  rewrite Hl. apply rstrip_fixed. unfold no_trailing_ws, pad4, pad2.
  cbn [app rev no_leading_ws]. rewrite (is_space_dchar _ Hz). reflexivity.
Qed.

(** What [parse_local_time] returns is a whole minute. *)
Lemma parse_local_time_minute (s : str) (t : Z) :
  parse_local_time s = Some t -> t mod minute = 0.
Proof.
  unfold parse_local_time, strptime.
  destruct (format_regex (strip s)) as [|[[[[[y m] d] h] mi] rest] l];
    [discriminate|].
  destruct rest; [|discriminate].
  destruct ((1 <=? y) && (d <=? days_in_month y m)); [|discriminate].
  intros H. inversion H. unfold TAIPEI.
  replace (((days_from_civil y m d * 24 + h) * 60 + mi) * minute
           - 8 * 60 * minute)
    with (((days_from_civil y m d * 24 + h) * 60 + mi - 480) * minute)
    by ring.
  apply Z.mod_mul. unfold minute. lia.
Qed.

End ShownAndRead.

(** X19: a time that is shown can be typed back.  For every instant
    whose Taipei date has a year from 1000 to 9999, the text that
    [fmt_dt_local] shows is read by [parse_local_time] as that instant
    with its seconds dropped; and since [parse_local_time] only returns
    whole minutes, the time shown for an event parses to exactly the
    instant that [create_event] stored. *)
Theorem shown_time_parses_back :
  (forall t,
     1000 <= local_year t <= 9999 ->
     fmt_dt_local (Some t) = Shown (strftime_local t) /\
     parse_local_time (strftime_local t) = Some (t - t mod minute)) /\
  (forall s t,
     parse_local_time s = Some t ->
     t mod minute = 0 /\
     (1000 <= local_year t <= 9999 ->
      parse_local_time (strftime_local t) = Some t)).
Proof.
  assert (Hmain : forall t, 1000 <= local_year t <= 9999 ->
            parse_local_time (strftime_local t) = Some (t - t mod minute)).
  { intros t Hy. unfold local_year in Hy. unfold strftime_local.
    set (mins := local_minutes t) in *.
    destruct (civil_from_days (mins / 1440)) as [[y m] d] eqn:Hciv.
    simpl in Hy.
    destruct (civil_from_days_inverse _ _ _ _ Hciv) as [Hm [Hd Hdays]].
    pose proof (Z.mod_pos_bound mins 1440 ltac:(lia)) as Hhm.
    pose proof (Z.div_mod mins 1440 ltac:(lia)) as Hmins.
    set (hm := mins mod 1440) in *.
    assert (Hh : 0 <= hm / 60 <= 23).
    { split; [apply Z.div_pos; lia|].
      assert (hm / 60 < 24) by (apply Z.div_lt_upper_bound; lia). lia. }
    assert (Hmi : 0 <= hm mod 60 <= 59)
      by (pose proof (Z.mod_pos_bound hm 60); lia).
    assert (Hd31 : 1 <= d <= 31).
    { unfold days_in_month in Hd.
      destruct (m =? 2); [destruct (is_leap y); lia|].
      destruct ((m =? 4) || (m =? 6) || (m =? 9) || (m =? 11)); lia. }
    unfold parse_local_time.
    rewrite strftime_text_trimmed by lia.
    destruct (format_regex_reads y m d (hm / 60) (hm mod 60))
      as [l Hl]; try lia.
    unfold strptime. rewrite Hl.
    assert (Hchk : (1 <=? y) && (d <=? days_in_month y m) = true).
    { apply andb_true_iff. split; apply Z.leb_le; lia. }
    rewrite Hchk, Hdays. f_equal.
    pose proof (Z.div_mod hm 60 ltac:(lia)) as Hhm60.
    replace (((mins / 1440 * 24 + hm / 60) * 60 + hm mod 60))
      with mins by lia.
    unfold mins, local_minutes.
    pose proof (Z.div_mod (t + TAIPEI) minute ltac:(unfold minute; lia)) as Ht.
    assert (Hmod : (t + TAIPEI) mod minute = t mod minute).
    { unfold TAIPEI. replace (t + 8 * 60 * minute) with (t + 480 * minute)
        by ring. apply Z.mod_add. unfold minute. lia. }
    rewrite Hmod in Ht. lia. }
  split.
  - intros t Hy. split; [reflexivity | exact (Hmain t Hy)].
  - intros s t Hp. pose proof (parse_local_time_minute s t Hp) as Hmin.
    split; [exact Hmin|]. intros Hy. rewrite (Hmain t Hy), Hmin.
    f_equal. lia.
Qed.

(** X19 at work: the time of the event of Alice, and an instant with
    seconds. *)
Lemma shown_time_parses_back_witness :
  parse_local_time (strftime_local Scenario.game_time)
    = Some Scenario.game_time /\
  parse_local_time (strftime_local (Scenario.game_time + 59999999))
    = Some Scenario.game_time.
Proof.
  destruct shown_time_parses_back as [H1 H2]. split.
  - destruct (H2 (py "2025-08-20 19:30") Scenario.game_time) as [_ H].
    + vm_compute. reflexivity.
    + apply H. vm_compute. split; discriminate.
  - destruct (H1 (Scenario.game_time + 59999999)) as [_ H].
    + vm_compute. split; discriminate.
    + rewrite H. vm_compute. reflexivity.
Defined.

(* ================================================================= *)
(** ** Beyond the claims: deliveries over many cycles *)

(** X20: with distinct ids and no command between the cycles, at most
    one send for an event returns over any number of cycles, whatever
    the transport does in each of them; and once a cycle that ran
    through has found the event due, no later cycle calls the sink for
    it at all. *)
Theorem at_most_one_delivery (e : Z) (db : DB) (cs : list Cmd) :
  ids_distinct db -> Forall is_cycle cs ->
  (length (delivered e (sink_calls (snd (run cs db)))) <= 1)%nat /\
  (forall tr now row t,
     snd (reminder_loop tr now db) = Completed ->
     In row (candidates db) -> id row = e ->
     event_time_utc row = Some t -> remind_at row t <= now ->
     calls_for e
       (sink_calls (snd (run cs (fst (fst (reminder_loop tr now db))))))
     = []).
Proof.
  intros Hnd Hcs. split.
  - apply run_cycles_delivered_once; assumption.
  - intros tr now row t Hdone Hin Hid Ht Hdue.
    apply run_cycles_marked; [exact Hcs|]. rewrite <- Hid.
    unfold reminder_loop in *.
    apply (remind_each_completed_marks tr now (candidates db) db row t);
      assumption.
Qed.

(** X20 at work: a send that raises, then two cycles whose sends
    return. *)
Lemma at_most_one_delivery_witness :
  (length (delivered 1
             (sink_calls
                (snd (run [ReminderLoop Scenario.tr_down Scenario.game_time;
                           ReminderLoop Scenario.tr_ok Scenario.game_time;
                           ReminderLoop Scenario.tr_ok
                             (Scenario.game_time + minute)]
                          Scenario.db_alice)))) <= 1)%nat.
Proof.
  apply (at_most_one_delivery 1 Scenario.db_alice
           [ReminderLoop Scenario.tr_down Scenario.game_time;
            ReminderLoop Scenario.tr_ok Scenario.game_time;
            ReminderLoop Scenario.tr_ok (Scenario.game_time + minute)]).
  - unfold ids_distinct. vm_compute. repeat constructor. intros [].
  - repeat constructor.
Defined.
